(** * The reference tracer of eslint-utils (src/reference-tracer.js)

    A shallow embedding of [ReferenceTracer]: the syntax tree and the scope
    graph are stores of objects addressed by identity, a trace map is a tree
    of own properties, and every generator method is a function from the
    tracer's [variableStack] to the trace of what a consumer observes. *)

From Stdlib Require Import String Ascii List ZArith Bool Arith Lia.
From stdpp Require Import base strings gmap.
Import ListNotations.
Open Scope string_scope.
Open Scope list_scope.

#[local] Arguments String.eqb : simpl never.

(** ** Values and errors of the host language *)

(** The payload of a marker is any value of the caller; the tracer only
    tests it for truthiness.  Numbers are kept to the integers. *)
Inductive JsValue :=
| JsUndefined
| JsNull
| JsBoolean (b : bool)
| JsNumber (z : Z)
| JsString (s : string)
| JsObject (ref : nat).

Definition truthy (v : JsValue) : bool :=
  match v with
  | JsUndefined | JsNull => false
  | JsBoolean b => b
  | JsNumber z => negb (z =? 0)%Z
  | JsString s => negb (s =? "")
  | JsObject _ => true
  end.

(** Reading a property of [null] or [undefined]. *)
Inductive JsError := TypeError.

Inductive Completion (A : Type) :=
| Normal (a : A)
| Throw (e : JsError)
| OutOfFuel.
Arguments Normal {A} a.
Arguments Throw {A} e.
Arguments OutOfFuel {A}.

(** ** Trace maps *)

(** The four symbols used as keys of a trace map. *)
Inductive Symbol := READ | CALL | CONSTRUCT | ESM.

(** A trace map: its own symbol-keyed properties and its own string-keyed
    properties, the latter in the order [Object.keys] enumerates them.  A
    key is looked up at its first binding. *)
#[warnings="-register-all"]
Inductive TraceMap := TM {
  read : option JsValue;
  call : option JsValue;
  construct : option JsValue;
  esm : bool;
  props : list (string * TraceMap)
}.

(** [traceMap[symbol]] for the three markers that carry a payload. *)
Definition marker (traceMap : TraceMap) (symbol : Symbol) : option JsValue :=
  match symbol with
  | READ => read traceMap
  | CALL => call traceMap
  | CONSTRUCT => construct traceMap
  | ESM => if esm traceMap then Some (JsBoolean true) else None
  end.

Fixpoint assoc {A : Type} (key : string) (l : list (string * A)) : option A :=
  match l with
  | [] => None
  | (k, v) :: l' => if k =? key then Some v else assoc key l'
  end.

(** [traceMap[key]] guarded by [has(traceMap, key)]. *)
Definition get (traceMap : TraceMap) (key : string) : option TraceMap :=
  assoc key (props traceMap).

Definition has (traceMap : TraceMap) (key : string) : bool :=
  match get traceMap key with Some _ => true | None => false end.

(** [Object.keys(traceMap)] *)
Definition keys (traceMap : TraceMap) : list string := map fst (props traceMap).

(** [{ default: nextTraceMap }] *)
Definition wrapDefault (nextTraceMap : TraceMap) : TraceMap :=
  TM None None None false [("default", nextTraceMap)].

(** [Object.assign({ default: nextTraceMap }, nextTraceMap)]: every own
    property of [nextTraceMap], symbols included, is copied over the
    wrapper, so an own [default] of the module replaces the wrapper's. *)
Definition assignDefault (nextTraceMap : TraceMap) : TraceMap :=
  TM (read nextTraceMap) (call nextTraceMap) (construct nextTraceMap)
     (esm nextTraceMap)
     (("default", match get nextTraceMap "default" with
                  | Some own => own
                  | None => nextTraceMap
                  end)
      :: List.filter (fun kv => negb (fst kv =? "default"))
                     (props nextTraceMap)).

(** ** Syntax tree and scope graph *)

Definition NodeId := nat.
Definition VarId := nat.

(** A node of the syntax tree with the properties the tracer reads.  A
    property that a node does not have is [None] (or the empty list).
    [source] stands for [node.source.value], the module specifier of an
    import or export declaration. *)
Module Node.
Record t := mk {
  type : string;
  parent : option NodeId;
  name : string;
  object : option NodeId;
  callee : option NodeId;
  arguments : list NodeId;
  left : option NodeId;
  right : option NodeId;
  init : option NodeId;
  id : option NodeId;
  properties : list NodeId;
  value : option NodeId;
  source : option string;
  specifiers : list NodeId;
  imported : option NodeId;
  local : option NodeId;
  body : list NodeId
}.
End Node.

Module Reference.
Record t := mk { identifier : NodeId; isRead : bool }.
End Reference.

Module Var.
Record t := mk { references : list Reference.t; defs : list NodeId }.
End Var.

Module Scope.
#[warnings="-register-all"]
Inductive t := mk {
  set : gmap string VarId;
  upper : option t;
  block : NodeId
}.
End Scope.

(** [field === node] for a property that holds a node or nothing. *)
Definition same_node (field : option NodeId) (node : NodeId) : bool :=
  match field with
  | Some n => Nat.eqb n node
  | None => false
  end.

(** ** The two regular expressions *)

Definition ends_with (suffix s : string) : bool :=
  let n := String.length s in
  let k := String.length suffix in
  (k <=? n)%nat && (substring (n - k) k s =? suffix).

(** Strings hold UTF-8.  The dot of a regular expression matches every
    character but the line terminators U+000A, U+000D, U+2028 and U+2029;
    the last two are the bytes E2 80 A8 and E2 80 A9. *)
Definition line_separator_at (s : string) : bool :=
  match s with
  | String a (String b (String c _)) =>
      Ascii.eqb a "226"%char && Ascii.eqb b "128"%char
      && (Ascii.eqb c "168"%char || Ascii.eqb c "169"%char)
  | _ => false
  end.

Fixpoint no_line_break (s : string) : bool :=
  match s with
  | EmptyString => true
  | String c s' =>
      negb (Ascii.eqb c "010"%char) && negb (Ascii.eqb c "013"%char)
      && negb (line_separator_at s)
      && no_line_break s'
  end.

(** [.+?suffix] anchored at both ends: a non-empty run of characters other
    than line breaks, then the suffix. *)
Definition some_then (suffix s : string) : bool :=
  let n := String.length s in
  let k := String.length suffix in
  ends_with suffix s && (k <? n)%nat && no_line_break (substring 0 (n - k) s).

Definition one_of (l : list string) (s : string) : bool :=
  existsb (fun x => x =? s) l.

Definition SENTINEL_TYPE (s : string) : bool :=
  some_then "Statement" s
  || some_then "Declaration" s
  || one_of ["ArrayExpression"; "ArrowFunctionExpression";
             "AssignmentExpression"; "CallExpression"; "ClassExpression";
             "FunctionExpression"; "MemberExpression"; "NewExpression";
             "ObjectExpression"] s
  || one_of ["AssignmentPattern"; "Program"; "VariableDeclarator"] s.

Definition IMPORT_TYPE (s : string) : bool :=
  one_of ["ImportDeclaration"; "ExportAllDeclaration";
          "ExportDefaultDeclaration"; "ExportNamedDeclaration"] s.

(** ** Match records *)

Module Report.
Record t := mk {
  node : NodeId;
  path : list string;
  type : Symbol;
  entry : JsValue
}.
End Report.

(** ** Generators *)

(** The tracer's only mutable state; [null] can be pushed on it. *)
Definition Stack := list (option VarId).

(** What a consumer of a generator observes: the records in the order they
    are yielded, then the completion.  [onReturn] at a [Yield] is the stack
    left behind when the consumer closes the generator at that point (the
    pending [finally] blocks have run); the stack at [End] is the one left
    by a run to completion.  The stack of a generator that is left
    suspended at a record, neither resumed nor closed, is not
    represented. *)
Inductive Trace :=
| Yield (report : Report.t) (onReturn : Stack) (rest : Trace)
| End (c : Completion unit) (variableStack : Stack).

Definition Gen := Stack -> Trace.

Definition skip : Gen := fun s => End (Normal tt) s.
Definition throw (e : JsError) : Gen := fun s => End (Throw e) s.
Definition out_of_fuel : Gen := fun s => End OutOfFuel s.
Definition yield (report : Report.t) : Gen :=
  fun s => Yield report s (End (Normal tt) s).

Fixpoint then_ (t : Trace) (g : Gen) : Trace :=
  match t with
  | Yield r onReturn rest => Yield r onReturn (then_ rest g)
  | End (Normal _) s => g s
  | End c s => End c s
  end.

Definition seq (g1 g2 : Gen) : Gen := fun s => then_ (g1 s) g2.
Declare Scope gen_scope.
Delimit Scope gen_scope with gen.
Notation "g1 ;; g2" := (seq g1 g2)
  (at level 100, g2 at level 200, right associativity) : gen_scope.
Open Scope gen_scope.

(** [for (const x of l) { body }] over an array. *)
Fixpoint for_of {A : Type} (l : list A) (body : A -> Gen) : Gen :=
  match l with
  | [] => skip
  | x :: l' => body x ;; for_of l' body
  end.

(** [try { ... } finally { ... }] around a running generator. *)
Fixpoint finally (cleanup : Stack -> Stack) (t : Trace) : Trace :=
  match t with
  | Yield r onReturn rest => Yield r (cleanup onReturn) (finally cleanup rest)
  | End c s => End c (cleanup s)
  end.

(** [for (const report of it) { ... }] where the body hands on at most one
    record per record of [it] and reads no state. *)
Fixpoint for_of_it (body : Report.t -> option Report.t) (it : Trace) : Trace :=
  match it with
  | Yield r onReturn rest =>
      match body r with
      | Some r' => Yield r' onReturn (for_of_it body rest)
      | None => for_of_it body rest
      end
  | End c s => End c s
  end.

(** The records of a trace, and how and where it ends. *)
Fixpoint yields (t : Trace) : list Report.t :=
  match t with
  | Yield r _ rest => r :: yields rest
  | End _ _ => []
  end.

Fixpoint completion (t : Trace) : Completion unit :=
  match t with
  | Yield _ _ rest => completion rest
  | End c _ => c
  end.

Fixpoint final_stack (t : Trace) : Stack :=
  match t with
  | Yield _ _ rest => final_stack rest
  | End _ s => s
  end.

(** The stack is [s] when the run ends, and when the consumer closes the
    generator at any of its records. *)
Fixpoint leaves (s : Stack) (t : Trace) : Prop :=
  match t with
  | Yield _ onReturn rest => onReturn = s /\ leaves s rest
  | End _ s' => s' = s
  end.

(** ** The tracer *)

Definition push (s : Stack) (variable : option VarId) : Stack :=
  s ++ [variable].
Definition pop (s : Stack) : Stack := removelast s.

Definition same_variable (a b : option VarId) : bool :=
  match a, b with
  | Some x, Some y => Nat.eqb x y
  | None, None => true
  | _, _ => false
  end.

(** [variableStack.includes(variable)] *)
Definition includes (s : Stack) (variable : option VarId) : bool :=
  existsb (same_variable variable) s.

(** [if (traceMap[symbol]) { yield ... traceMap[symbol] ... }] *)
Definition if_marker (traceMap : TraceMap) (symbol : Symbol)
    (body : JsValue -> Gen) : Gen :=
  match marker traceMap symbol with
  | Some payload => if truthy payload then body payload else skip
  | None => skip
  end.

(** [function exceptDefault(name, index)] *)
Definition exceptDefault (name : string) (index : nat) : bool :=
  negb (Nat.eqb index 1 && (name =? "default")).

(** [Array.prototype.filter], whose callback also receives the index. *)
Fixpoint filter_from {A : Type} (f : A -> nat -> bool) (index : nat)
    (l : list A) : list A :=
  match l with
  | [] => []
  | x :: l' =>
      if f x index then x :: filter_from f (S index) l'
      else filter_from f (S index) l'
  end.

Definition array_filter {A : Type} (f : A -> nat -> bool) (l : list A)
    : list A :=
  filter_from f 0 l.

(** The body of the loop over the records of a module without the [ESM]
    marker: rewrite the path, hand the record on unless it is a [READ] on a
    path shorter than two. *)
Definition withoutDefault (report : Report.t) : option Report.t :=
  let path := array_filter exceptDefault (Report.path report) in
  let report := Report.mk (Report.node report) path (Report.type report)
                          (Report.entry report) in
  if (2 <=? length path)%nat
     || negb (match Report.type report with READ => true | _ => false end)
  then Some report
  else None.

(** The program under analysis, the three helpers the module imports, and
    the fields the constructor sets. *)
Record Tracer := {
  nodeAt : NodeId -> Node.t;
  varAt : VarId -> Var.t;
  getInnermostScope : Scope.t -> NodeId -> Scope.t;
  getPropertyName : NodeId -> option string;
  getStringIfConstant : option NodeId -> option string;
  globalScope : Scope.t;
  mode : string;
  globalObjectNames : list string
}.

(** The loop of [_findVariable]: the first scope of the chain that binds
    the name. *)
Fixpoint lookup_in_chain (scope : Scope.t) (name : string) : option VarId :=
  match scope with
  | Scope.mk set upper _ =>
      match set !! name with
      | Some variable => Some variable
      | None =>
          match upper with
          | Some scope' => lookup_in_chain scope' name
          | None => None
          end
      end
  end.

Definition _findVariable (this : Tracer) (node : NodeId) : option VarId :=
  lookup_in_chain (getInnermostScope this (globalScope this) node)
                  (Node.name (nodeAt this node)).

(** [globalScope.set.get(key)] kept only when it has no definition. *)
Definition undeclared (this : Tracer) (key : string) : option VarId :=
  match Scope.set (globalScope this) !! key with
  | Some variable =>
      match Var.defs (varAt this variable) with
      | [] => Some variable
      | _ :: _ => None
      end
  | None => None
  end.

(** The loop at the head of [_iteratePropertyReferences]: the node whose
    parent has a sentinel type, with that parent. *)
Fixpoint climb (this : Tracer) (fuel : nat) (node : NodeId)
    : Completion (NodeId * NodeId) :=
  match fuel with
  | 0 => OutOfFuel
  | S fuel' =>
      match Node.parent (nodeAt this node) with
      | None => Throw TypeError
      | Some parent =>
          if SENTINEL_TYPE (Node.type (nodeAt this parent))
          then Normal (node, parent)
          else climb this fuel' parent
      end
  end.

Fixpoint _iterateVariableReferences (this : Tracer) (fuel : nat)
    (variable : option VarId) (path : list string) (traceMap : TraceMap)
    (shouldReport : bool) {struct fuel} : Gen :=
  match fuel with
  | 0 => out_of_fuel
  | S fuel' => fun variableStack =>
      if includes variableStack variable then skip variableStack
      else
        finally pop
          ((match variable with
            | None => throw TypeError
            | Some v =>
                for_of (Var.references (varAt this v)) (fun reference =>
                  if negb (Reference.isRead reference) then skip
                  else
                    let node := Reference.identifier reference in
                    (if shouldReport
                     then if_marker traceMap READ (fun payload =>
                            yield (Report.mk node path READ payload))
                     else skip) ;;
                    _iteratePropertyReferences this fuel' node path traceMap)
            end) (push variableStack variable))
  end

with _iteratePropertyReferences (this : Tracer) (fuel : nat) (rootNode : NodeId)
    (path : list string) (traceMap : TraceMap) {struct fuel} : Gen :=
  match fuel with
  | 0 => out_of_fuel
  | S fuel' =>
      match climb this fuel' rootNode with
      | OutOfFuel => out_of_fuel
      | Throw e => throw e
      | Normal (node, parent) =>
          let p := nodeAt this parent in
          if Node.type p =? "MemberExpression" then
            if same_node (Node.object p) node then
              match getPropertyName this parent with
              | None => skip
              | Some key =>
                  match get traceMap key with
                  | None => skip
                  | Some nextTraceMap =>
                      let path := path ++ [key] in
                      if_marker nextTraceMap READ (fun payload =>
                        yield (Report.mk parent path READ payload)) ;;
                      _iteratePropertyReferences this fuel' parent path
                                                 nextTraceMap
                  end
              end
            else skip
          else if Node.type p =? "CallExpression" then
            if same_node (Node.callee p) node then
              if_marker traceMap CALL (fun payload =>
                yield (Report.mk parent path CALL payload))
            else skip
          else if Node.type p =? "NewExpression" then
            if same_node (Node.callee p) node then
              if_marker traceMap CONSTRUCT (fun payload =>
                yield (Report.mk parent path CONSTRUCT payload))
            else skip
          else if Node.type p =? "AssignmentExpression" then
            if same_node (Node.right p) node then
              _iterateLhsReferences this fuel' (Node.left p) path traceMap ;;
              _iteratePropertyReferences this fuel' parent path traceMap
            else skip
          else if Node.type p =? "AssignmentPattern" then
            if same_node (Node.right p) node then
              _iterateLhsReferences this fuel' (Node.left p) path traceMap
            else skip
          else if Node.type p =? "VariableDeclarator" then
            if same_node (Node.init p) node then
              _iterateLhsReferences this fuel' (Node.id p) path traceMap
            else skip
          else skip
      end
  end

with _iterateLhsReferences (this : Tracer) (fuel : nat)
    (patternNode : option NodeId) (path : list string) (traceMap : TraceMap)
    {struct fuel} : Gen :=
  match fuel with
  | 0 => out_of_fuel
  | S fuel' =>
      match patternNode with
      | None => throw TypeError
      | Some patternNode =>
          let pattern := nodeAt this patternNode in
          if Node.type pattern =? "Identifier" then
            match _findVariable this patternNode with
            | Some variable =>
                _iterateVariableReferences this fuel' (Some variable) path
                                           traceMap false
            | None => skip
            end
          else if Node.type pattern =? "ObjectPattern" then
            for_of (Node.properties pattern) (fun property =>
              match getPropertyName this property with
              | None => skip
              | Some key =>
                  match get traceMap key with
                  | None => skip
                  | Some nextTraceMap =>
                      let nextPath := path ++ [key] in
                      if_marker nextTraceMap READ (fun payload =>
                        yield (Report.mk property nextPath READ payload)) ;;
                      _iterateLhsReferences this fuel'
                        (Node.value (nodeAt this property)) nextPath
                        nextTraceMap
                  end
              end)
          else if Node.type pattern =? "AssignmentPattern" then
            _iterateLhsReferences this fuel' (Node.left pattern) path traceMap
          else skip
      end
  end.

(** [specifierNode.imported.name] and [specifierNode.local.name] *)
Definition name_of (this : Tracer) (identifier : option NodeId)
    : Completion string :=
  match identifier with
  | Some i => Normal (Node.name (nodeAt this i))
  | None => Throw TypeError
  end.

(** [this._findVariable(specifierNode.local)] *)
Definition local_variable (this : Tracer) (specifier : NodeId)
    : Completion (option VarId) :=
  match Node.local (nodeAt this specifier) with
  | Some local => Normal (_findVariable this local)
  | None => Throw TypeError
  end.

Definition _iterateImportReferences (this : Tracer) (fuel : nat)
    (specifierNode : NodeId) (path : list string) (traceMap : TraceMap) : Gen :=
  let specifier := nodeAt this specifierNode in
  let type := Node.type specifier in
  if (type =? "ImportSpecifier") || (type =? "ImportDefaultSpecifier") then
    match (if type =? "ImportDefaultSpecifier" then Normal "default"
           else name_of this (Node.imported specifier)) with
    | OutOfFuel => out_of_fuel
    | Throw e => throw e
    | Normal key =>
        match get traceMap key with
        | None => skip
        | Some nextTraceMap =>
            let path := path ++ [key] in
            if_marker nextTraceMap READ (fun payload =>
              yield (Report.mk specifierNode path READ payload)) ;;
            match local_variable this specifierNode with
            | OutOfFuel => out_of_fuel
            | Throw e => throw e
            | Normal variable =>
                _iterateVariableReferences this fuel variable path nextTraceMap
                                           false
            end
        end
    end
  else if type =? "ImportNamespaceSpecifier" then
    match local_variable this specifierNode with
    | OutOfFuel => out_of_fuel
    | Throw e => throw e
    | Normal variable =>
        _iterateVariableReferences this fuel variable path traceMap false
    end
  else if type =? "ExportSpecifier" then
    match name_of this (Node.local specifier) with
    | OutOfFuel => out_of_fuel
    | Throw e => throw e
    | Normal key =>
        match get traceMap key with
        | None => skip
        | Some nextTraceMap =>
            let path := path ++ [key] in
            if_marker nextTraceMap READ (fun payload =>
              yield (Report.mk specifierNode path READ payload))
        end
    end
  else skip.

(** The first loop of [iterateGlobalReferences], one key. *)
Definition globalVariable (this : Tracer) (fuel : nat) (traceMap : TraceMap)
    (key : string) : Gen :=
  match get traceMap key with
  | None => skip
  | Some nextTraceMap =>
      let path := [key] in
      match undeclared this key with
      | None => skip
      | Some variable =>
          _iterateVariableReferences this fuel (Some variable) path nextTraceMap
                                     true
      end
  end.

(** The second loop, one name of the global object. *)
Definition globalObject (this : Tracer) (fuel : nat) (traceMap : TraceMap)
    (key : string) : Gen :=
  let path := [] in
  match undeclared this key with
  | None => skip
  | Some variable =>
      _iterateVariableReferences this fuel (Some variable) path traceMap false
  end.

Definition iterateGlobalReferences (this : Tracer) (fuel : nat)
    (traceMap : TraceMap) : Gen :=
  for_of (keys traceMap) (globalVariable this fuel traceMap) ;;
  for_of (globalObjectNames this) (globalObject this fuel traceMap).

(** The body of the loop of [iterateCjsReferences]. *)
Definition cjsReference (this : Tracer) (fuel : nat) (traceMap : TraceMap)
    (reference : Reference.t) : Gen :=
  let reqNode := Reference.identifier reference in
  if negb (Reference.isRead reference) then skip
  else
    match Node.parent (nodeAt this reqNode) with
    | None => throw TypeError
    | Some callNode =>
        let c := nodeAt this callNode in
        if negb (Node.type c =? "CallExpression")
           || negb (same_node (Node.callee c) reqNode)
        then skip
        else
          match getStringIfConstant this (head (Node.arguments c)) with
          | None => skip
          | Some key =>
              match get traceMap key with
              | None => skip
              | Some nextTraceMap =>
                  let path := [key] in
                  if_marker nextTraceMap READ (fun payload =>
                    yield (Report.mk callNode path READ payload)) ;;
                  _iteratePropertyReferences this fuel callNode path
                                             nextTraceMap
              end
          end
    end.

Definition iterateCjsReferences (this : Tracer) (fuel : nat)
    (traceMap : TraceMap) : Gen :=
  match undeclared this "require" with
  | None => skip
  | Some variable =>
      for_of (Var.references (varAt this variable))
             (cjsReference this fuel traceMap)
  end.

(** One specifier of an import or export declaration whose module is in
    the trace map. *)
Definition esmSpecifier (this : Tracer) (fuel : nat) (path : list string)
    (nextTraceMap : TraceMap) (specifier : NodeId) : Gen :=
  let esm := esm nextTraceMap in
  let it :=
    _iterateImportReferences this fuel specifier path
      (if esm then nextTraceMap
       else if mode this =? "legacy" then assignDefault nextTraceMap
       else wrapDefault nextTraceMap) in
  if esm then it
  else fun variableStack => for_of_it withoutDefault (it variableStack).

(** One key of the module of an [export * from]. *)
Definition esmExportAll (node : NodeId) (path : list string)
    (nextTraceMap : TraceMap) (key : string) : Gen :=
  match get nextTraceMap key with
  | None => skip
  | Some exportTraceMap =>
      if_marker exportTraceMap READ (fun payload =>
        yield (Report.mk node (path ++ [key]) READ payload))
  end.

(** One statement of the program. *)
Definition esmDeclaration (this : Tracer) (fuel : nat) (traceMap : TraceMap)
    (node : NodeId) : Gen :=
  let n := nodeAt this node in
  if negb (IMPORT_TYPE (Node.type n)) then skip
  else
    match Node.source n with
    | None => skip
    | Some moduleId =>
        match get traceMap moduleId with
        | None => skip
        | Some nextTraceMap =>
            let path := [moduleId] in
            if_marker nextTraceMap READ (fun payload =>
              yield (Report.mk node path READ payload)) ;;
            if Node.type n =? "ExportAllDeclaration" then
              for_of (keys nextTraceMap)
                     (esmExportAll node path nextTraceMap)
            else
              for_of (Node.specifiers n)
                     (esmSpecifier this fuel path nextTraceMap)
        end
    end.

Definition iterateEsmReferences (this : Tracer) (fuel : nat)
    (traceMap : TraceMap) : Gen :=
  let programNode := Scope.block (globalScope this) in
  for_of (Node.body (nodeAt this programNode))
         (esmDeclaration this fuel traceMap).


(** ** Programs used below

    Each program is given by its syntax tree (node numbers in source
    order), the variables and scopes the scope analysis produces for it,
    and what the imported helpers answer on its nodes: the innermost scope
    of a node is the global scope of a script and the module scope of a
    module, the property name of a member access in dot notation or of a
    shorthand property is the name of its identifier, and a string literal
    is a constant string. *)

Module Ast.
Definition node (type : string) (parent : option NodeId) : Node.t :=
  Node.mk type parent "" None None [] None None None None [] None None []
          None None [].
Definition Program (body : list NodeId) : Node.t :=
  Node.mk "Program" None "" None None [] None None None None [] None None
          [] None None body.
Definition Identifier (parent : NodeId) (name : string) : Node.t :=
  Node.mk "Identifier" (Some parent) name None None [] None None None None
          [] None None [] None None [].
Definition MemberExpression (parent object : NodeId) : Node.t :=
  Node.mk "MemberExpression" (Some parent) "" (Some object) None [] None
          None None None [] None None [] None None [].
Definition CallExpression (parent callee : NodeId) (arguments : list NodeId)
    : Node.t :=
  Node.mk "CallExpression" (Some parent) "" None (Some callee) arguments
          None None None None [] None None [] None None [].
Definition AssignmentExpression (parent left right : NodeId) : Node.t :=
  Node.mk "AssignmentExpression" (Some parent) "" None None [] (Some left)
          (Some right) None None [] None None [] None None [].
Definition VariableDeclarator (parent id : NodeId) (init : option NodeId)
    : Node.t :=
  Node.mk "VariableDeclarator" (Some parent) "" None None [] None None init
          (Some id) [] None None [] None None [].
Definition FunctionDeclaration (parent id : NodeId) : Node.t :=
  Node.mk "FunctionDeclaration" (Some parent) "" None None [] None None
          None (Some id) [] None None [] None None [].
Definition ObjectPattern (parent : NodeId) (properties : list NodeId)
    : Node.t :=
  Node.mk "ObjectPattern" (Some parent) "" None None [] None None None None
          properties None None [] None None [].
Definition Property (parent value : NodeId) : Node.t :=
  Node.mk "Property" (Some parent) "" None None [] None None None None []
          (Some value) None [] None None [].
Definition ImportDeclaration (parent : NodeId) (source : string)
    (specifiers : list NodeId) : Node.t :=
  Node.mk "ImportDeclaration" (Some parent) "" None None [] None None None
          None [] None (Some source) specifiers None None [].
Definition ExportAllDeclaration (parent : NodeId) (source : string) : Node.t :=
  Node.mk "ExportAllDeclaration" (Some parent) "" None None [] None None
          None None [] None (Some source) [] None None [].
Definition ImportDefaultSpecifier (parent local : NodeId) : Node.t :=
  Node.mk "ImportDefaultSpecifier" (Some parent) "" None None [] None None
          None None [] None None [] None (Some local) [].
Definition ImportSpecifier (parent imported local : NodeId) : Node.t :=
  Node.mk "ImportSpecifier" (Some parent) "" None None [] None None None
          None [] None None [] (Some imported) (Some local) [].
End Ast.

Definition read_at (identifier : NodeId) : Reference.t :=
  Reference.mk identifier true.
Definition write_at (identifier : NodeId) : Reference.t :=
  Reference.mk identifier false.
Definition no_variable : Var.t := Var.mk [] [].

(** A leaf of a trace map with one marker. *)
Definition on (symbol : Symbol) (payload : JsValue) : TraceMap :=
  match symbol with
  | READ => TM (Some payload) None None false []
  | CALL => TM None (Some payload) None false []
  | CONSTRUCT => TM None None (Some payload) false []
  | ESM => TM None None None true []
  end.

(** A trace map with string keys only. *)
Definition object_of (props : list (string * TraceMap)) : TraceMap :=
  TM None None None false props.

(** [let x = x;] *)
Module LetSelf.
Definition ast (n : NodeId) : Node.t :=
  match n with
  | 0 => Ast.Program [1]
  | 1 => Ast.node "VariableDeclaration" (Some 0)
  | 2 => Ast.VariableDeclarator 1 3 (Some 4)
  | 3 => Ast.Identifier 2 "x"
  | 4 => Ast.Identifier 2 "x"
  | _ => Ast.node "" None
  end.
Definition x : VarId := 0.
Definition variables (v : VarId) : Var.t :=
  match v with
  | 0 => Var.mk [write_at 3; read_at 4] [3]
  | _ => no_variable
  end.
Definition scope : Scope.t := Scope.mk {[ "x" := x ]} None 0.
Definition tracer : Tracer :=
  {| nodeAt := ast; varAt := variables;
     getInnermostScope := fun scope _ => scope;
     getPropertyName := fun _ => None;
     getStringIfConstant := fun _ => None;
     globalScope := scope; mode := "strict";
     globalObjectNames := ["global"; "self"; "window"] |}.
(** The distance of a node to [Program]. *)
Definition depth (n : NodeId) : nat :=
  match n with
  | 1 => 1
  | 2 => 2
  | 3 | 4 => 3
  | _ => 0
  end.
End LetSelf.

Definition defaultGlobalObjectNames : list string :=
  ["global"; "self"; "window"].

(** [function window() {} window.x;], and [window.x;] alone when the
    declaration is left out ([declared = false]). *)
Module WindowMember.
Definition ast (n : NodeId) : Node.t :=
  match n with
  | 0 => Ast.Program [1; 4]
  | 1 => Ast.FunctionDeclaration 0 2
  | 2 => Ast.Identifier 1 "window"
  | 3 => Ast.node "BlockStatement" (Some 1)
  | 4 => Ast.node "ExpressionStatement" (Some 0)
  | 5 => Ast.MemberExpression 4 6
  | 6 => Ast.Identifier 5 "window"
  | 7 => Ast.Identifier 5 "x"
  | _ => Ast.node "" None
  end.
Definition window : VarId := 0.
Definition variables (declared : bool) (v : VarId) : Var.t :=
  match v with
  | 0 => Var.mk [read_at 6] (if declared then [2] else [])
  | _ => no_variable
  end.
Definition scope : Scope.t := Scope.mk {[ "window" := window ]} None 0.
(** Modelled from the spec: [getPropertyName] on the nodes of this program. *)
Definition propertyName (n : NodeId) : option string :=
  match n with
  | 5 => Some "x"
  | _ => None
  end.
Definition tracer (declared : bool) : Tracer :=
  {| nodeAt := ast; varAt := variables declared;
     getInnermostScope := fun scope _ => scope;
     getPropertyName := propertyName;
     getStringIfConstant := fun _ => None;
     globalScope := scope; mode := "strict";
     globalObjectNames := defaultGlobalObjectNames |}.
Definition traceMap (E : JsValue) : TraceMap :=
  object_of [("x", on READ E)].
End WindowMember.

(** [require("m").foo;] *)
Module RequireMember.
Definition ast (n : NodeId) : Node.t :=
  match n with
  | 0 => Ast.Program [1]
  | 1 => Ast.node "ExpressionStatement" (Some 0)
  | 2 => Ast.MemberExpression 1 3
  | 3 => Ast.CallExpression 2 4 [5]
  | 4 => Ast.Identifier 3 "require"
  | 5 => Ast.node "Literal" (Some 3)
  | 6 => Ast.Identifier 2 "foo"
  | _ => Ast.node "" None
  end.
Definition require : VarId := 0.
Definition variables (v : VarId) : Var.t :=
  match v with
  | 0 => Var.mk [read_at 4] []
  | _ => no_variable
  end.
Definition scope : Scope.t := Scope.mk {[ "require" := require ]} None 0.
(** Modelled from the spec: [getPropertyName] on the nodes of this program. *)
Definition propertyName (n : NodeId) : option string :=
  match n with
  | 2 => Some "foo"
  | _ => None
  end.
(** Modelled from the spec: [getStringIfConstant] on the nodes of this
    program. *)
Definition stringIfConstant (n : option NodeId) : option string :=
  match n with
  | Some 5 => Some "m"
  | _ => None
  end.
Definition tracer (mode : string) : Tracer :=
  {| nodeAt := ast; varAt := variables;
     getInnermostScope := fun scope _ => scope;
     getPropertyName := propertyName;
     getStringIfConstant := stringIfConstant;
     globalScope := scope; mode := mode;
     globalObjectNames := defaultGlobalObjectNames |}.
End RequireMember.

(** [import {foo} from "m"; foo;] *)
Module ImportNamed.
Definition ast (n : NodeId) : Node.t :=
  match n with
  | 0 => Ast.Program [1; 5]
  | 1 => Ast.ImportDeclaration 0 "m" [2]
  | 2 => Ast.ImportSpecifier 1 3 4
  | 3 => Ast.Identifier 2 "foo"
  | 4 => Ast.Identifier 2 "foo"
  | 5 => Ast.node "ExpressionStatement" (Some 0)
  | 6 => Ast.Identifier 5 "foo"
  | _ => Ast.node "" None
  end.
Definition foo : VarId := 0.
Definition variables (v : VarId) : Var.t :=
  match v with
  | 0 => Var.mk [read_at 6] [4]
  | _ => no_variable
  end.
Definition scope : Scope.t := Scope.mk ∅ None 0.
Definition moduleScope : Scope.t := Scope.mk {[ "foo" := foo ]} (Some scope) 0.
Definition tracer (mode : string) : Tracer :=
  {| nodeAt := ast; varAt := variables;
     getInnermostScope := fun _ _ => moduleScope;
     getPropertyName := fun _ => None;
     getStringIfConstant := fun _ => None;
     globalScope := scope; mode := mode;
     globalObjectNames := defaultGlobalObjectNames |}.
End ImportNamed.

(** The trace map [{ m: { foo: { [READ]: E } } }] of a CommonJS module. *)
Definition cjsFoo (E : JsValue) : TraceMap :=
  object_of [("m", object_of [("foo", on READ E)])].

(** [import x from "m";], with the scope analysis binding [x] or not. *)
Module ImportBare.
Definition ast (n : NodeId) : Node.t :=
  match n with
  | 0 => Ast.Program [1]
  | 1 => Ast.ImportDeclaration 0 "m" [2]
  | 2 => Ast.ImportDefaultSpecifier 1 3
  | 3 => Ast.Identifier 2 "x"
  | _ => Ast.node "" None
  end.
Definition x : VarId := 0.
Definition variables (v : VarId) : Var.t :=
  match v with
  | 0 => Var.mk [] [3]
  | _ => no_variable
  end.
Definition scope : Scope.t := Scope.mk ∅ None 0.
Definition moduleScope (bound : bool) : Scope.t :=
  Scope.mk (if bound then {[ "x" := x ]} else ∅) (Some scope) 0.
Definition tracer (mode : string) (bound : bool) : Tracer :=
  {| nodeAt := ast; varAt := variables;
     getInnermostScope := fun _ _ => moduleScope bound;
     getPropertyName := fun _ => None;
     getStringIfConstant := fun _ => None;
     globalScope := scope; mode := mode;
     globalObjectNames := defaultGlobalObjectNames |}.
End ImportBare.

(** [import x from "m"; x.foo;] *)
Module ImportDefaultMember.
Definition ast (n : NodeId) : Node.t :=
  match n with
  | 0 => Ast.Program [1; 4]
  | 1 => Ast.ImportDeclaration 0 "m" [2]
  | 2 => Ast.ImportDefaultSpecifier 1 3
  | 3 => Ast.Identifier 2 "x"
  | 4 => Ast.node "ExpressionStatement" (Some 0)
  | 5 => Ast.MemberExpression 4 6
  | 6 => Ast.Identifier 5 "x"
  | 7 => Ast.Identifier 5 "foo"
  | _ => Ast.node "" None
  end.
Definition x : VarId := 0.
Definition variables (v : VarId) : Var.t :=
  match v with
  | 0 => Var.mk [read_at 6] [3]
  | _ => no_variable
  end.
Definition scope : Scope.t := Scope.mk ∅ None 0.
Definition moduleScope : Scope.t := Scope.mk {[ "x" := x ]} (Some scope) 0.
(** Modelled from the spec: [getPropertyName] on the nodes of this program. *)
Definition propertyName (n : NodeId) : option string :=
  match n with
  | 5 => Some "foo"
  | _ => None
  end.
Definition tracer (mode : string) : Tracer :=
  {| nodeAt := ast; varAt := variables;
     getInnermostScope := fun _ _ => moduleScope;
     getPropertyName := propertyName;
     getStringIfConstant := fun _ => None;
     globalScope := scope; mode := mode;
     globalObjectNames := defaultGlobalObjectNames |}.
(** [{ m: { default: { foo: { [READ]: E1 } }, foo: { [READ]: E2 } } }] *)
Definition ownDefault (E1 E2 : JsValue) : TraceMap :=
  object_of [("m", object_of [("default", object_of [("foo", on READ E1)]);
                              ("foo", on READ E2)])].
End ImportDefaultMember.

(** [import x from "m"; x.foo.default;] *)
Module ImportDefaultDeep.
Definition ast (n : NodeId) : Node.t :=
  match n with
  | 0 => Ast.Program [1; 4]
  | 1 => Ast.ImportDeclaration 0 "m" [2]
  | 2 => Ast.ImportDefaultSpecifier 1 3
  | 3 => Ast.Identifier 2 "x"
  | 4 => Ast.node "ExpressionStatement" (Some 0)
  | 5 => Ast.MemberExpression 4 6
  | 6 => Ast.MemberExpression 5 7
  | 7 => Ast.Identifier 6 "x"
  | 8 => Ast.Identifier 6 "foo"
  | 9 => Ast.Identifier 5 "default"
  | _ => Ast.node "" None
  end.
Definition x : VarId := 0.
Definition variables (v : VarId) : Var.t :=
  match v with
  | 0 => Var.mk [read_at 7] [3]
  | _ => no_variable
  end.
Definition scope : Scope.t := Scope.mk ∅ None 0.
Definition moduleScope : Scope.t := Scope.mk {[ "x" := x ]} (Some scope) 0.
(** Modelled from the spec: [getPropertyName] on the nodes of this program. *)
Definition propertyName (n : NodeId) : option string :=
  match n with
  | 5 => Some "default"
  | 6 => Some "foo"
  | _ => None
  end.
Definition tracer (mode : string) : Tracer :=
  {| nodeAt := ast; varAt := variables;
     getInnermostScope := fun _ _ => moduleScope;
     getPropertyName := propertyName;
     getStringIfConstant := fun _ => None;
     globalScope := scope; mode := mode;
     globalObjectNames := defaultGlobalObjectNames |}.
(** [{ m: { foo: { default: { [READ]: E } } } }] *)
Definition traceMap (E : JsValue) : TraceMap :=
  object_of [("m", object_of [("foo", object_of [("default", on READ E)])])].
End ImportDefaultDeep.

(** [export * from "m";] *)
Module ExportAll.
Definition ast (n : NodeId) : Node.t :=
  match n with
  | 0 => Ast.Program [1]
  | 1 => Ast.ExportAllDeclaration 0 "m"
  | _ => Ast.node "" None
  end.
Definition scope : Scope.t := Scope.mk ∅ None 0.
Definition tracer (mode : string) : Tracer :=
  {| nodeAt := ast; varAt := fun _ => no_variable;
     getInnermostScope := fun scope _ => scope;
     getPropertyName := fun _ => None;
     getStringIfConstant := fun _ => None;
     globalScope := scope; mode := mode;
     globalObjectNames := defaultGlobalObjectNames |}.
(** [{ m: { default: { [READ]: E } } }] *)
Definition traceMap (E : JsValue) : TraceMap :=
  object_of [("m", object_of [("default", on READ E)])].
End ExportAll.

(** [let x; (x = a).foo; x.bar;] with [a] a global of the environment. *)
Module AssignChain.
Definition ast (n : NodeId) : Node.t :=
  match n with
  | 0 => Ast.Program [1; 4; 10]
  | 1 => Ast.node "VariableDeclaration" (Some 0)
  | 2 => Ast.VariableDeclarator 1 3 None
  | 3 => Ast.Identifier 2 "x"
  | 4 => Ast.node "ExpressionStatement" (Some 0)
  | 5 => Ast.MemberExpression 4 6
  | 6 => Ast.AssignmentExpression 5 7 8
  | 7 => Ast.Identifier 6 "x"
  | 8 => Ast.Identifier 6 "a"
  | 9 => Ast.Identifier 5 "foo"
  | 10 => Ast.node "ExpressionStatement" (Some 0)
  | 11 => Ast.MemberExpression 10 12
  | 12 => Ast.Identifier 11 "x"
  | 13 => Ast.Identifier 11 "bar"
  | _ => Ast.node "" None
  end.
Definition x : VarId := 0.
Definition a : VarId := 1.
Definition variables (v : VarId) : Var.t :=
  match v with
  | 0 => Var.mk [write_at 7; read_at 12] [3]
  | 1 => Var.mk [read_at 8] []
  | _ => no_variable
  end.
Definition scope : Scope.t :=
  Scope.mk (<[ "x" := x ]> {[ "a" := a ]}) None 0.
(** Modelled from the spec: [getPropertyName] on the nodes of this program. *)
Definition propertyName (n : NodeId) : option string :=
  match n with
  | 5 => Some "foo"
  | 11 => Some "bar"
  | _ => None
  end.
Definition tracer : Tracer :=
  {| nodeAt := ast; varAt := variables;
     getInnermostScope := fun scope _ => scope;
     getPropertyName := propertyName;
     getStringIfConstant := fun _ => None;
     globalScope := scope; mode := "strict";
     globalObjectNames := defaultGlobalObjectNames |}.
(** [{ a: { foo: { [READ]: E }, bar: { [READ]: F } } }] *)
Definition traceMap (E F : JsValue) : TraceMap :=
  object_of [("a", object_of [("foo", on READ E); ("bar", on READ F)])].
End AssignChain.

(** [(x = a).foo;] where [a] is a global of the environment and [x] is
    declared nowhere: the scope analysis makes no variable for [x]. *)
Module ImplicitGlobal.
Definition ast (n : NodeId) : Node.t :=
  match n with
  | 0 => Ast.Program [1]
  | 1 => Ast.node "ExpressionStatement" (Some 0)
  | 2 => Ast.MemberExpression 1 3
  | 3 => Ast.AssignmentExpression 2 4 5
  | 4 => Ast.Identifier 3 "x"
  | 5 => Ast.Identifier 3 "a"
  | 6 => Ast.Identifier 2 "foo"
  | _ => Ast.node "" None
  end.
Definition a : VarId := 0.
Definition variables (v : VarId) : Var.t :=
  match v with
  | 0 => Var.mk [read_at 5] []
  | _ => no_variable
  end.
Definition scope : Scope.t := Scope.mk {[ "a" := a ]} None 0.
(** Modelled from the spec: [getPropertyName] on the nodes of this program. *)
Definition propertyName (n : NodeId) : option string :=
  match n with
  | 2 => Some "foo"
  | _ => None
  end.
Definition tracer : Tracer :=
  {| nodeAt := ast; varAt := variables;
     getInnermostScope := fun scope _ => scope;
     getPropertyName := propertyName;
     getStringIfConstant := fun _ => None;
     globalScope := scope; mode := "strict";
     globalObjectNames := defaultGlobalObjectNames |}.
(** [{ a: { foo: { [READ]: E } } }] *)
Definition traceMap (E : JsValue) : TraceMap :=
  object_of [("a", object_of [("foo", on READ E)])].
End ImplicitGlobal.

(** [const {y} = window.x; y();] *)
Module Destructure.
Definition ast (n : NodeId) : Node.t :=
  match n with
  | 0 => Ast.Program [1; 10]
  | 1 => Ast.node "VariableDeclaration" (Some 0)
  | 2 => Ast.VariableDeclarator 1 3 (Some 7)
  | 3 => Ast.ObjectPattern 2 [4]
  | 4 => Ast.Property 3 6
  | 5 => Ast.Identifier 4 "y"
  | 6 => Ast.Identifier 4 "y"
  | 7 => Ast.MemberExpression 2 8
  | 8 => Ast.Identifier 7 "window"
  | 9 => Ast.Identifier 7 "x"
  | 10 => Ast.node "ExpressionStatement" (Some 0)
  | 11 => Ast.CallExpression 10 12 []
  | 12 => Ast.Identifier 11 "y"
  | _ => Ast.node "" None
  end.
Definition window : VarId := 0.
Definition y : VarId := 1.
Definition variables (v : VarId) : Var.t :=
  match v with
  | 0 => Var.mk [read_at 8] []
  | 1 => Var.mk [write_at 6; read_at 12] [6]
  | _ => no_variable
  end.
Definition scope : Scope.t :=
  Scope.mk (<[ "window" := window ]> {[ "y" := y ]}) None 0.
(** Modelled from the spec: [getPropertyName] on the nodes of this program. *)
Definition propertyName (n : NodeId) : option string :=
  match n with
  | 4 => Some "y"
  | 7 => Some "x"
  | _ => None
  end.
Definition tracer : Tracer :=
  {| nodeAt := ast; varAt := variables;
     getInnermostScope := fun scope _ => scope;
     getPropertyName := propertyName;
     getStringIfConstant := fun _ => None;
     globalScope := scope; mode := "strict";
     globalObjectNames := defaultGlobalObjectNames |}.
(** [{ x: { y: { [CALL]: E } } }] *)
Definition traceMap (E : JsValue) : TraceMap :=
  object_of [("x", object_of [("y", on CALL E)])].
(** The distance of a node to [Program], and the height of a pattern. *)
Definition depth (n : NodeId) : nat :=
  match n with
  | 0 => 0
  | 1 | 10 => 1
  | 2 | 11 => 2
  | 3 | 7 | 12 => 3
  | 4 | 8 | 9 => 4
  | 5 | 6 => 5
  | _ => 0
  end.
Definition height (n : NodeId) : nat :=
  match n with
  | 3 => 1
  | _ => 0
  end.
End Destructure.

(** ** Properties of generators and of records *)

(** Every record a generator yields, from any stack, satisfies [R]. *)
Definition emits (R : Report.t -> Prop) (g : Gen) : Prop :=
  forall s, Forall R (yields (g s)).

(** The stack is left as it was found, by a run to its end and by a
    generator closed at any record. *)
Definition balanced (g : Gen) : Prop := forall s, leaves s (g s).

(** A run that did not stop for lack of fuel. *)
Definition settled (t : Trace) : Prop := completion t <> OutOfFuel.

(** [g'] runs as [g] does from every stack where [g] settles. *)
Definition agrees (g' g : Gen) : Prop := forall s, settled (g s) -> g' s = g s.

(** [g] settles when run from [s]. *)
Definition settles (s : Stack) (g : Gen) : Prop := settled (g s).

(** A finite syntax tree and scope graph: [depth] measures the distance of
    a node to the root along the parent links, [height] the height of a
    pattern above its sub-patterns, and [V] lists the variables. *)
Record Finite (this : Tracer) (depth height : NodeId -> nat) (D H : nat)
    (V : list VarId) : Prop := {
  parent_closer : forall n p,
    Node.parent (nodeAt this n) = Some p -> depth p < depth n;
  depth_bound : forall n, depth n <= D;
  value_lower : forall n p v,
    Node.type (nodeAt this n) = "ObjectPattern" ->
    In p (Node.properties (nodeAt this n)) ->
    Node.value (nodeAt this p) = Some v -> height v < height n;
  left_lower : forall n l,
    Node.type (nodeAt this n) = "AssignmentPattern" ->
    Node.left (nodeAt this n) = Some l -> height l < height n;
  height_bound : forall n, height n <= H;
  variables_listed : forall node v, _findVariable this node = Some v -> In v V;
  globals_listed : forall name v,
    Scope.set (globalScope this) !! name = Some v -> In v V
}.

(** The variables that are not on the stack. *)
Definition free (V : list VarId) (s : Stack) : nat :=
  length (List.filter (fun v => negb (includes s (Some v))) V).

(** Fuel that suffices for a traversal with at most [k] variables off the
    stack: of a variable, of a pattern of height [h], of a node at depth
    [d]. *)
Definition fuelVar (D H k : nat) : nat := 1 + k * (2 * D + H + 4).
Definition fuelLhs (D H k h : nat) : nat := h + 1 + fuelVar D H k.
Definition fuelProp (D H k d : nat) : nat :=
  d + 1 + (D + 1 + fuelLhs D H k H).

(** The node of a trace map reached along a path. *)
Fixpoint follow (traceMap : TraceMap) (path : list string) : option TraceMap :=
  match path with
  | [] => Some traceMap
  | key :: path' =>
      match get traceMap key with
      | Some nextTraceMap => follow nextTraceMap path'
      | None => None
      end
  end.

(** The entry of a record is the payload of its type's marker at the node
    its path leads to. *)
Definition payload_at (root : TraceMap) (r : Report.t) : Prop :=
  exists terminal,
    follow root (Report.path r) = Some terminal
    /\ marker terminal (Report.type r) = Some (Report.entry r).

(** The path of a record extends the path its branch was entered with. *)
Definition extends (entered : list string) (r : Report.t) : Prop :=
  exists rest, Report.path r = entered ++ rest.

Definition consistent (root : TraceMap) (entered : list string)
    (r : Report.t) : Prop :=
  payload_at root r /\ extends entered r.

(** A path with a [default] in second position loses it; any other path is
    kept whole. *)
Definition dropSecondDefault (path : list string) : list string :=
  match path with
  | moduleId :: second :: rest =>
      if second =? "default" then moduleId :: rest else path
  | _ => path
  end.

(** ** The entry strategies in the words of the specification *)

(** What a strategy hands to [_iterateVariableReferences]. *)
Record Root := {
  root_variable : VarId;
  root_path : list string;
  root_traceMap : TraceMap;
  root_shouldReport : bool
}.

Definition propagate (this : Tracer) (fuel : nat) (root : Root) : Gen :=
  _iterateVariableReferences this fuel (Some (root_variable root))
    (root_path root) (root_traceMap root) (root_shouldReport root).

(** A variable of the global scope with no declaring definition. *)
Definition undeclaredGlobal (this : Tracer) (name : string) (v : VarId)
    : Prop :=
  Scope.set (globalScope this) !! name = Some v
  /\ Var.defs (varAt this v) = [].

(** The variable of that name is absent from the global scope or has a
    declaring definition. *)
Definition shadowedOrAbsent (this : Tracer) (name : string) : Prop :=
  match Scope.set (globalScope this) !! name with
  | Some v => Var.defs (varAt this v) <> []
  | None => True
  end.

(** Global strategy: one root per top-level key whose name is an undeclared
    global, keyed and reported; then one root per name of the global object
    that is an undeclared global, with the whole map and unreported. *)
Definition globalRoots (this : Tracer) (traceMap : TraceMap) : list Root :=
  flat_map (fun key =>
              match get traceMap key, undeclared this key with
              | Some nextTraceMap, Some v =>
                  [Build_Root v [key] nextTraceMap true]
              | _, _ => []
              end) (keys traceMap)
  ++ flat_map (fun name =>
                 match undeclared this name with
                 | Some v => [Build_Root v [] traceMap false]
                 | None => []
                 end) (globalObjectNames this).

(** CommonJS strategy: the call a reference of [require] stands for, when
    it is a read, the callee of a call expression, and the call's first
    argument is a constant string that is a key of the trace map. *)
Definition requireCall (this : Tracer) (traceMap : TraceMap)
    (reference : Reference.t) : option (NodeId * string * TraceMap) :=
  let reqNode := Reference.identifier reference in
  match Node.parent (nodeAt this reqNode) with
  | Some callNode =>
      let c := nodeAt this callNode in
      if Reference.isRead reference
         && (Node.type c =? "CallExpression")
         && same_node (Node.callee c) reqNode
      then
        match getStringIfConstant this (head (Node.arguments c)) with
        | Some key =>
            match get traceMap key with
            | Some nextTraceMap => Some (callNode, key, nextTraceMap)
            | None => None
            end
        | None => None
        end
      else None
  | None => None
  end.

(** What is done with such a call: a [READ] at the call when the module's
    map has the marker, then property matching rooted at the call. *)
Definition traceCall (this : Tracer) (fuel : nat)
    (c : NodeId * string * TraceMap) : Gen :=
  let '(callNode, key, nextTraceMap) := c in
  if_marker nextTraceMap READ (fun payload =>
    yield (Report.mk callNode [key] READ payload)) ;;
  _iteratePropertyReferences this fuel callNode [key] nextTraceMap.

(** Object destructuring, one property: skipped when its key is not in the
    trace map; otherwise the path is extended, a [READ] is reported when
    the child has the marker, and the value sub-pattern is unpacked. *)
Definition unpackProperty (this : Tracer) (fuel : nat) (path : list string)
    (traceMap : TraceMap) (property : NodeId) : Gen :=
  match getPropertyName this property with
  | Some key =>
      match get traceMap key with
      | Some nextTraceMap =>
          if_marker nextTraceMap READ (fun payload =>
            yield (Report.mk property (path ++ [key]) READ payload)) ;;
          _iterateLhsReferences this fuel (Node.value (nodeAt this property))
                                (path ++ [key]) nextTraceMap
      | None => skip
      end
  | None => skip
  end.

(** The loop of [_iterateVariableReferences] over the references. *)
Definition traceReferences (this : Tracer) (fuel : nat) (v : VarId)
    (path : list string) (traceMap : TraceMap) (shouldReport : bool) : Gen :=
  for_of (Var.references (varAt this v)) (fun reference =>
    if negb (Reference.isRead reference) then skip
    else
      let node := Reference.identifier reference in
      (if shouldReport
       then if_marker traceMap READ (fun payload =>
              yield (Report.mk node path READ payload))
       else skip) ;;
      _iteratePropertyReferences this fuel node path traceMap).

(** ** Further notions *)

(** What holds of a record of a traversal entered with [path] and
    [traceMap]: its entry is truthy and is the payload, under the record's
    type, of the node of [traceMap] that the rest of its path leads to; a
    [READ] of a traversal that does not report the reads of its root lies
    strictly below [path]; a [CALL] is at a call expression and a
    [CONSTRUCT] at a [new] expression. *)
Definition traced_from (this : Tracer) (path : list string)
    (traceMap : TraceMap) (reported : bool) (r : Report.t) : Prop :=
  truthy (Report.entry r) = true
  /\ (exists rest terminal,
         Report.path r = path ++ rest
         /\ follow traceMap rest = Some terminal
         /\ marker terminal (Report.type r) = Some (Report.entry r)
         /\ (Report.type r = READ -> reported = false -> rest <> []))
  /\ (Report.type r = CALL ->
      Node.type (nodeAt this (Report.node r)) = "CallExpression")
  /\ (Report.type r = CONSTRUCT ->
      Node.type (nodeAt this (Report.node r)) = "NewExpression")
  /\ Report.type r <> ESM.

(** The entry of a record is a truthy payload held, under the record's
    type, by some node of the trace map. *)
Definition from_marker (root : TraceMap) (r : Report.t) : Prop :=
  truthy (Report.entry r) = true
  /\ exists path terminal,
       follow root path = Some terminal
       /\ marker terminal (Report.type r) = Some (Report.entry r).

(** A [CALL] is at a call expression, a [CONSTRUCT] at a [new]
    expression. *)
Definition at_its_kind (this : Tracer) (r : Report.t) : Prop :=
  match Report.type r with
  | CALL => Node.type (nodeAt this (Report.node r)) = "CallExpression"
  | CONSTRUCT => Node.type (nodeAt this (Report.node r)) = "NewExpression"
  | READ => True
  | ESM => False
  end.

(** The scopes from a scope outwards, innermost first. *)
Fixpoint chain (scope : Scope.t) : list Scope.t :=
  match scope with
  | Scope.mk _ upper _ =>
      scope :: match upper with
               | Some scope' => chain scope'
               | None => []
               end
  end.

(** The same run from every stack. *)
Definition same (g' g : Gen) : Prop := forall s, g' s = g s.

(** The tracer with another mode. *)
Definition with_mode (this : Tracer) (mode : string) : Tracer :=
  {| nodeAt := nodeAt this; varAt := varAt this;
     getInnermostScope := getInnermostScope this;
     getPropertyName := getPropertyName this;
     getStringIfConstant := getStringIfConstant this;
     globalScope := globalScope this; mode := mode;
     globalObjectNames := globalObjectNames this |}.

(** The records a star re-export yields for the keys of the module's map:
    one [READ] at the declaration for each key whose child has a truthy
    [READ] payload. *)
Definition exportedReads (node : NodeId) (moduleId : string)
    (nextTraceMap : TraceMap) : list Report.t :=
  flat_map (fun key =>
              match get nextTraceMap key with
              | Some exportTraceMap =>
                  match read exportTraceMap with
                  | Some payload =>
                      if truthy payload
                      then [Report.mk node [moduleId; key] READ payload]
                      else []
                  | None => []
                  end
              | None => []
              end) (keys nextTraceMap).

(** The [READ] of the declaration itself, when the module's map has a
    truthy [READ] payload. *)
Definition declarationRead (node : NodeId) (moduleId : string)
    (nextTraceMap : TraceMap) : list Report.t :=
  match read nextTraceMap with
  | Some payload =>
      if truthy payload then [Report.mk node [moduleId] READ payload] else []
  | None => []
  end.

(** What [SENTINEL_TYPE] and [IMPORT_TYPE] match, name by name. *)
Definition sentinelExpressions : list string :=
  ["ArrayExpression"; "ArrowFunctionExpression"; "AssignmentExpression";
   "CallExpression"; "ClassExpression"; "FunctionExpression";
   "MemberExpression"; "NewExpression"; "ObjectExpression"].
Definition sentinelOthers : list string :=
  ["AssignmentPattern"; "Program"; "VariableDeclarator"].

(** A generator that does not throw, from any stack. *)
Definition quiet (g : Gen) : Prop :=
  forall s e, completion (g s) <> Throw e.

(** A syntax tree as a parser builds it and a scope analysis that binds
    the names of the imports: only a node of a sentinel type (the
    program) is without a parent, the nodes have the fields of their
    types, and the local name of an import specifier is bound. *)
Record WellFormed (this : Tracer) : Prop := {
  parents_have_parents : forall n p,
    Node.parent (nodeAt this n) = Some p ->
    SENTINEL_TYPE (Node.type (nodeAt this p)) = false ->
    Node.parent (nodeAt this p) <> None;
  expressions_have_parents : forall n,
    Node.type (nodeAt this n) = "MemberExpression"
    \/ Node.type (nodeAt this n) = "AssignmentExpression"
    \/ Node.type (nodeAt this n) = "CallExpression" ->
    Node.parent (nodeAt this n) <> None;
  references_have_parents : forall v reference,
    In reference (Var.references (varAt this v)) ->
    Node.parent (nodeAt this (Reference.identifier reference)) <> None;
  assignments_have_left : forall n,
    Node.type (nodeAt this n) = "AssignmentExpression"
    \/ Node.type (nodeAt this n) = "AssignmentPattern" ->
    Node.left (nodeAt this n) <> None;
  declarators_have_id : forall n,
    Node.type (nodeAt this n) = "VariableDeclarator" ->
    Node.id (nodeAt this n) <> None;
  properties_have_value : forall n property,
    Node.type (nodeAt this n) = "ObjectPattern" ->
    In property (Node.properties (nodeAt this n)) ->
    getPropertyName this property <> None ->
    Node.value (nodeAt this property) <> None;
  imports_have_imported : forall n,
    Node.type (nodeAt this n) = "ImportSpecifier" ->
    Node.imported (nodeAt this n) <> None;
  exports_have_local : forall n,
    Node.type (nodeAt this n) = "ExportSpecifier" ->
    Node.local (nodeAt this n) <> None;
  imports_are_bound : forall n,
    Node.type (nodeAt this n) = "ImportSpecifier"
    \/ Node.type (nodeAt this n) = "ImportDefaultSpecifier"
    \/ Node.type (nodeAt this n) = "ImportNamespaceSpecifier" ->
    exists local variable,
      Node.local (nodeAt this n) = Some local
      /\ _findVariable this local = Some variable
}.

(** [const b = !a; b.foo;] with [a] a global of the environment. *)
Module Negated.
Definition ast (n : NodeId) : Node.t :=
  match n with
  | 0 => Ast.Program [1; 6]
  | 1 => Ast.node "VariableDeclaration" (Some 0)
  | 2 => Ast.VariableDeclarator 1 3 (Some 4)
  | 3 => Ast.Identifier 2 "b"
  | 4 => Ast.node "UnaryExpression" (Some 2)
  | 5 => Ast.Identifier 4 "a"
  | 6 => Ast.node "ExpressionStatement" (Some 0)
  | 7 => Ast.MemberExpression 6 8
  | 8 => Ast.Identifier 7 "b"
  | 9 => Ast.Identifier 7 "foo"
  | _ => Ast.node "" None
  end.
Definition a : VarId := 0.
Definition b : VarId := 1.
Definition variables (v : VarId) : Var.t :=
  match v with
  | 0 => Var.mk [read_at 5] []
  | 1 => Var.mk [write_at 3; read_at 8] [3]
  | _ => no_variable
  end.
Definition scope : Scope.t :=
  Scope.mk (<[ "a" := a ]> {[ "b" := b ]}) None 0.
(** Modelled from the spec: [getPropertyName] on the nodes of this program. *)
Definition propertyName (n : NodeId) : option string :=
  match n with
  | 7 => Some "foo"
  | _ => None
  end.
Definition tracer : Tracer :=
  {| nodeAt := ast; varAt := variables;
     getInnermostScope := fun scope _ => scope;
     getPropertyName := propertyName;
     getStringIfConstant := fun _ => None;
     globalScope := scope; mode := "strict";
     globalObjectNames := defaultGlobalObjectNames |}.
(** [{ a: { foo: { [READ]: E } } }] *)
Definition traceMap (E : JsValue) : TraceMap :=
  object_of [("a", object_of [("foo", on READ E)])].
End Negated.

(** * Facts *)

(** ** Traces *)

Lemma then_skip (t : Trace) : then_ t skip = t.
Proof.
  induction t as [r c rest IH | c s]; simpl.
  - now rewrite IH.
  - destruct c as [[] | e | ]; reflexivity.
Qed.

Lemma then_then (t : Trace) (g1 g2 : Gen) :
  then_ (then_ t g1) g2 = then_ t (g1 ;; g2).
Proof.
  induction t as [r c rest IH | c s]; simpl.
  - now rewrite IH.
  - destruct c; reflexivity.
Qed.

Lemma then_ext (t : Trace) (g g' : Gen) :
  (forall s, g s = g' s) -> then_ t g = then_ t g'.
Proof.
  intros Hg. induction t as [r c rest IH | c s]; simpl.
  - now rewrite IH.
  - destruct c; auto.
Qed.

Lemma for_of_app {A : Type} (l1 l2 : list A) (body : A -> Gen) (s : Stack) :
  for_of (l1 ++ l2) body s = (for_of l1 body ;; for_of l2 body) s.
Proof.
  revert s; induction l1 as [| x l1 IH]; intros s; simpl.
  - reflexivity.
  - unfold seq. rewrite then_then. apply then_ext. intros s1. apply IH.
Qed.

Lemma for_of_ext {A : Type} (l : list A) (body body' : A -> Gen) (s : Stack) :
  (forall x s1, In x l -> body x s1 = body' x s1) ->
  for_of l body s = for_of l body' s.
Proof.
  revert s; induction l as [| x l IH]; intros s Hb; simpl.
  - reflexivity.
  - unfold seq. rewrite (Hb x s (or_introl eq_refl)).
    apply then_ext. intros s1. apply IH. intros y s2 Hy. apply Hb. now right.
Qed.

Lemma for_of_flat_map {A B : Type} (f : A -> list B) (l : list A)
    (body : B -> Gen) (s : Stack) :
  for_of (flat_map f l) body s = for_of l (fun x => for_of (f x) body) s.
Proof.
  revert s; induction l as [| x l IH]; intros s; simpl.
  - reflexivity.
  - rewrite for_of_app. unfold seq. apply then_ext. intros s1. apply IH.
Qed.

Lemma for_of_skip {A : Type} (l : list A) (body : A -> Gen) (s : Stack) :
  (forall x s1, In x l -> body x s1 = skip s1) ->
  for_of l body s = skip s.
Proof.
  revert s; induction l as [| x l IH]; intros s Hb; simpl.
  - reflexivity.
  - unfold seq. rewrite (Hb x s (or_introl eq_refl)). simpl.
    apply IH. intros y s1 Hy. apply Hb. now right.
Qed.

Lemma yields_then (t : Trace) (g : Gen) :
  yields (then_ t g) =
  yields t ++ match completion t with
              | Normal _ => yields (g (final_stack t))
              | _ => []
              end.
Proof.
  induction t as [r c rest IH | c s]; simpl.
  - now rewrite IH.
  - destruct c; reflexivity.
Qed.

Lemma yields_finally (cleanup : Stack -> Stack) (t : Trace) :
  yields (finally cleanup t) = yields t.
Proof.
  induction t as [r c rest IH | c s]; simpl; [now rewrite IH | reflexivity].
Qed.

Lemma completion_finally (cleanup : Stack -> Stack) (t : Trace) :
  completion (finally cleanup t) = completion t.
Proof.
  induction t as [r c rest IH | c s]; simpl; auto.
Qed.

Lemma yields_for_of_it (body : Report.t -> option Report.t) (t : Trace) :
  yields (for_of_it body t) = omap body (yields t).
Proof.
  induction t as [r c rest IH | c s]; simpl; [| reflexivity].
  destruct (body r); simpl; now rewrite IH.
Qed.

Lemma completion_for_of_it (body : Report.t -> option Report.t) (t : Trace) :
  completion (for_of_it body t) = completion t.
Proof.
  induction t as [r c rest IH | c s]; simpl; [| reflexivity].
  destruct (body r); simpl; now rewrite IH.
Qed.

(** ** Rules for [emits] *)

Section Emits.
Variable R : Report.t -> Prop.

Lemma emits_skip : emits R skip.
Proof. intros s. constructor. Qed.

Lemma emits_throw e : emits R (throw e).
Proof. intros s. constructor. Qed.

Lemma emits_out_of_fuel : emits R out_of_fuel.
Proof. intros s. constructor. Qed.

Lemma emits_yield r : R r -> emits R (yield r).
Proof. intros Hr s. simpl. repeat constructor. exact Hr. Qed.

Lemma emits_seq g1 g2 : emits R g1 -> emits R g2 -> emits R (g1 ;; g2).
Proof.
  intros H1 H2 s. unfold seq. rewrite yields_then.
  apply Forall_app. split; [apply H1 |].
  destruct (completion (g1 s)); [apply H2 | constructor | constructor].
Qed.

Lemma emits_for_of {A : Type} (l : list A) (body : A -> Gen) :
  (forall x, In x l -> emits R (body x)) -> emits R (for_of l body).
Proof.
  induction l as [| x l IH]; intros Hb; simpl.
  - apply emits_skip.
  - apply emits_seq; [apply Hb; now left |].
    apply IH. intros y Hy. apply Hb. now right.
Qed.

Lemma emits_if_marker traceMap symbol (body : JsValue -> Gen) :
  (forall payload, marker traceMap symbol = Some payload ->
                   truthy payload = true -> emits R (body payload)) ->
  emits R (if_marker traceMap symbol body).
Proof.
  intros Hb. unfold if_marker.
  destruct (marker traceMap symbol) as [payload |] eqn:Hm;
    [| apply emits_skip].
  destruct (truthy payload) eqn:Ht; [now apply Hb | apply emits_skip].
Qed.

Lemma emits_finally cleanup (g : Gen) (f : Stack -> Stack) :
  emits R g -> emits R (fun s => finally cleanup (g (f s))).
Proof. intros Hg s. rewrite yields_finally. apply Hg. Qed.
End Emits.

Lemma emits_weaken (R R' : Report.t -> Prop) (g : Gen) :
  (forall r, R r -> R' r) -> emits R g -> emits R' g.
Proof.
  intros HR Hg s. eapply Forall_impl; [apply Hg | exact HR].
Qed.

(** ** Rules for [balanced] *)

Lemma leaves_then (s : Stack) (t : Trace) (g : Gen) :
  leaves s t -> balanced g -> leaves s (then_ t g).
Proof.
  intros Ht Hg. induction t as [r c rest IH | c s1]; simpl in *.
  - destruct Ht as [-> Ht]. split; [reflexivity | now apply IH].
  - subst s1. destruct c; [apply Hg | reflexivity | reflexivity].
Qed.

Lemma leaves_finally (s s1 : Stack) (cleanup : Stack -> Stack) (t : Trace) :
  cleanup s1 = s -> leaves s1 t -> leaves s (finally cleanup t).
Proof.
  intros Hc Ht. induction t as [r c rest IH | c s2]; simpl in *.
  - destruct Ht as [-> Ht]. split; [exact Hc | now apply IH].
  - now subst s2.
Qed.

Lemma leaves_for_of_it (s : Stack) body (t : Trace) :
  leaves s t -> leaves s (for_of_it body t).
Proof.
  intros Ht. induction t as [r c rest IH | c s1]; simpl in *; [| exact Ht].
  destruct Ht as [-> Ht]. destruct (body r); simpl; auto.
Qed.

Lemma leaves_final_stack (s : Stack) (t : Trace) :
  leaves s t -> final_stack t = s.
Proof.
  induction t as [r c rest IH | c s1]; simpl; [intros [_ H]; auto | auto].
Qed.

Lemma balanced_skip : balanced skip.
Proof. intros s. reflexivity. Qed.

Lemma balanced_throw e : balanced (throw e).
Proof. intros s. reflexivity. Qed.

Lemma balanced_out_of_fuel : balanced out_of_fuel.
Proof. intros s. reflexivity. Qed.

Lemma balanced_yield r : balanced (yield r).
Proof. intros s. simpl. auto. Qed.

Lemma balanced_seq g1 g2 : balanced g1 -> balanced g2 -> balanced (g1 ;; g2).
Proof. intros H1 H2 s. apply leaves_then; auto. Qed.

Lemma balanced_for_of {A : Type} (l : list A) (body : A -> Gen) :
  (forall x, balanced (body x)) -> balanced (for_of l body).
Proof.
  intros Hb. induction l as [| x l IH]; simpl.
  - apply balanced_skip.
  - apply balanced_seq; auto.
Qed.

Lemma balanced_if_marker traceMap symbol (body : JsValue -> Gen) :
  (forall payload, balanced (body payload)) ->
  balanced (if_marker traceMap symbol body).
Proof.
  intros Hb. unfold if_marker.
  destruct (marker traceMap symbol) as [payload |]; [| apply balanced_skip].
  destruct (truthy payload); [apply Hb | apply balanced_skip].
Qed.

Lemma pop_push (s : Stack) (variable : option VarId) :
  pop (push s variable) = s.
Proof. unfold pop, push. apply removelast_last. Qed.

(** ** Undeclared globals *)

Lemma undeclared_Some (this : Tracer) (name : string) (v : VarId) :
  undeclared this name = Some v <-> undeclaredGlobal this name v.
Proof.
  unfold undeclared, undeclaredGlobal.
  destruct (Scope.set (globalScope this) !! name) as [w |]; [| now split].
  destruct (Var.defs (varAt this w)) eqn:Hd; split.
  - intros [= ->]. auto.
  - intros [[= ->] _]. reflexivity.
  - discriminate.
  - intros [[= ->] H]. congruence.
Qed.

Lemma undeclared_None (this : Tracer) (name : string) :
  undeclared this name = None <-> shadowedOrAbsent this name.
Proof.
  unfold undeclared, shadowedOrAbsent.
  destruct (Scope.set (globalScope this) !! name) as [w |]; [| now split].
  destruct (Var.defs (varAt this w)); split; congruence.
Qed.

(** ** The stack is restored by every traversal *)

Ltac balance :=
  repeat first
    [ apply balanced_skip
    | apply balanced_throw
    | apply balanced_out_of_fuel
    | apply balanced_yield
    | apply balanced_seq
    | apply balanced_for_of; intros ?
    | apply balanced_if_marker; intros ?
    | solve [auto]
    | match goal with
      | |- balanced (if ?c then _ else _) => destruct c
      | |- balanced (match ?x with _ => _ end) => destruct x
      | |- balanced (let _ := _ in _) => cbv zeta
      end ].

Lemma traversal_balanced (this : Tracer) (fuel : nat) :
  (forall variable path traceMap shouldReport,
     balanced (_iterateVariableReferences this fuel variable path traceMap
                                          shouldReport))
  /\ (forall rootNode path traceMap,
        balanced (_iteratePropertyReferences this fuel rootNode path traceMap))
  /\ (forall patternNode path traceMap,
        balanced (_iterateLhsReferences this fuel patternNode path traceMap)).
Proof.
  induction fuel as [| fuel (IHv & IHp & IHl)].
  - repeat split; intros; apply balanced_out_of_fuel.
  - repeat split.
    + intros variable path traceMap shouldReport s. simpl.
      destruct (includes s variable); [reflexivity |].
      apply leaves_finally with (s1 := push s variable);
        [apply pop_push |].
      generalize (push s variable) as s1.
      destruct variable as [v |]; [| apply balanced_throw].
      balance.
    + intros rootNode path traceMap. simpl.
      destruct (climb this fuel rootNode) as [[node parent] | e |]; balance.
    + intros patternNode path traceMap. simpl.
      destruct patternNode as [patternNode |]; balance.
Qed.

(** ** Every record follows the trace map of its traversal *)

Lemma follow_snoc root path traceMap key nextTraceMap :
  follow root path = Some traceMap ->
  get traceMap key = Some nextTraceMap ->
  follow root (path ++ [key]) = Some nextTraceMap.
Proof.
  revert root. induction path as [| k path IH]; intros root Hf Hg; simpl in *.
  - injection Hf as <-. now rewrite Hg.
  - destruct (get root k) as [next |]; [eauto | discriminate].
Qed.

Lemma extends_snoc path key r : extends (path ++ [key]) r -> extends path r.
Proof.
  intros [rest Hr]. exists (key :: rest). now rewrite Hr, <- app_assoc.
Qed.

Lemma consistent_snoc root path key r :
  consistent root (path ++ [key]) r -> consistent root path r.
Proof. intros [Hp He]. split; [exact Hp | eapply extends_snoc, He]. Qed.

Lemma consistent_here root path traceMap symbol payload node :
  follow root path = Some traceMap ->
  marker traceMap symbol = Some payload ->
  consistent root path (Report.mk node path symbol payload).
Proof.
  intros Hf Hm. split.
  - exists traceMap. simpl. auto.
  - exists []. simpl. now rewrite app_nil_r.
Qed.

Lemma emits_marker root path traceMap symbol node :
  follow root path = Some traceMap ->
  emits (consistent root path)
        (if_marker traceMap symbol (fun payload =>
           yield (Report.mk node path symbol payload))).
Proof.
  intros Hf. apply emits_if_marker. intros payload Hm _.
  apply emits_yield. eapply consistent_here; eauto.
Qed.

Lemma emits_child root path traceMap key nextTraceMap (g : Gen) :
  follow root path = Some traceMap ->
  get traceMap key = Some nextTraceMap ->
  (follow root (path ++ [key]) = Some nextTraceMap ->
   emits (consistent root (path ++ [key])) g) ->
  emits (consistent root path) g.
Proof.
  intros Hf Hg H. eapply emits_weaken; [apply consistent_snoc |].
  apply H. eapply follow_snoc; eauto.
Qed.

Ltac emit :=
  repeat first
    [ apply emits_skip
    | apply emits_throw
    | apply emits_out_of_fuel
    | apply emits_seq
    | apply emits_marker; assumption
    | solve [auto]
    | match goal with
      | |- emits _ (if ?c then _ else _) => destruct c
      | |- emits _ (let _ := _ in _) => cbv zeta
      end ].

Lemma traversal_consistent (this : Tracer) (root : TraceMap) (fuel : nat) :
  (forall variable path traceMap shouldReport,
     follow root path = Some traceMap ->
     emits (consistent root path)
           (_iterateVariableReferences this fuel variable path traceMap
                                       shouldReport))
  /\ (forall rootNode path traceMap,
        follow root path = Some traceMap ->
        emits (consistent root path)
              (_iteratePropertyReferences this fuel rootNode path traceMap))
  /\ (forall patternNode path traceMap,
        follow root path = Some traceMap ->
        emits (consistent root path)
              (_iterateLhsReferences this fuel patternNode path traceMap)).
Proof.
  induction fuel as [| fuel (IHv & IHp & IHl)].
  - repeat split; intros; apply emits_out_of_fuel.
  - repeat split.
    + intros variable path traceMap shouldReport Hf s. simpl.
      destruct (includes s variable); [constructor |].
      rewrite yields_finally. generalize (push s variable) as s1.
      destruct variable as [v |]; [| apply emits_throw].
      apply emits_for_of. intros reference _. emit.
    + intros rootNode path traceMap Hf. simpl.
      destruct (climb this fuel rootNode) as [[node parent] | e |]; emit.
      destruct (getPropertyName this parent) as [key |]; emit.
      destruct (get traceMap key) as [nextTraceMap |] eqn:Hg;
          [| apply emits_skip].
      eapply emits_child; eauto. intros Hf'. emit.
    + intros patternNode path traceMap Hf. simpl.
      destruct patternNode as [patternNode |]; emit.
      * destruct (_findVariable this patternNode); emit.
      * apply emits_for_of. intros property _.
        destruct (getPropertyName this property) as [key |]; emit.
        destruct (get traceMap key) as [nextTraceMap |] eqn:Hg;
          [| apply emits_skip].
        eapply emits_child; eauto. intros Hf'. emit.
Qed.

(** ** The path rewriting of modules without the [ESM] marker *)

Lemma filter_from_exceptDefault (l : list string) (index : nat) :
  filter_from exceptDefault (S (S index)) l = l.
Proof.
  revert index. induction l as [| x l IH]; intros index; simpl.
  - reflexivity.
  - now rewrite IH.
Qed.

Lemma array_filter_exceptDefault (path : list string) :
  array_filter exceptDefault path = dropSecondDefault path.
Proof.
  destruct path as [| moduleId [| second rest]]; try reflexivity.
  unfold array_filter, dropSecondDefault. cbn [filter_from].
  rewrite filter_from_exceptDefault. unfold exceptDefault. simpl.
  destruct (second =? "default"); reflexivity.
Qed.

Lemma withoutDefault_Some (r r' : Report.t) :
  withoutDefault r = Some r' ->
  Report.node r' = Report.node r
  /\ Report.path r' = dropSecondDefault (Report.path r)
  /\ Report.type r' = Report.type r
  /\ Report.entry r' = Report.entry r
  /\ (2 <= length (Report.path r') \/ Report.type r' <> READ).
Proof.
  unfold withoutDefault. rewrite array_filter_exceptDefault.
  cbn [Report.path Report.type].
  destruct (_ || _) eqn:Hkeep; [| discriminate].
  intros H. injection H as H. subst r'. cbn.
  repeat split.
  apply orb_true_iff in Hkeep as [Hlen | Ht].
  - left. now apply Nat.leb_le in Hlen.
  - right. destruct (Report.type r); [discriminate Ht | | |]; discriminate.
Qed.

Lemma Forall_omap {A B : Type} (P : A -> Prop) (Q : B -> Prop)
    (f : A -> option B) (l : list A) :
  (forall x y, P x -> f x = Some y -> Q y) ->
  Forall P l -> Forall Q (omap f l).
Proof.
  intros Hf Hl. induction Hl as [| x l Hx Hl IH]; simpl.
  - constructor.
  - destruct (f x) as [y |] eqn:Hy; [constructor; eauto | exact IH].
Qed.

Lemma esmSpecifier_esm this fuel path nextTraceMap specifier s :
  esm nextTraceMap = true ->
  esmSpecifier this fuel path nextTraceMap specifier s =
  _iterateImportReferences this fuel specifier path nextTraceMap s.
Proof. intros He. unfold esmSpecifier. now rewrite He. Qed.

Lemma esmSpecifier_cjs this fuel path nextTraceMap specifier s :
  esm nextTraceMap = false ->
  esmSpecifier this fuel path nextTraceMap specifier s =
  for_of_it withoutDefault
    (_iterateImportReferences this fuel specifier path
       (if mode this =? "legacy" then assignDefault nextTraceMap
        else wrapDefault nextTraceMap) s).
Proof. intros He. unfold esmSpecifier. now rewrite He. Qed.

Lemma assoc_filter_other {A : Type} (key other : string)
    (l : list (string * A)) :
  (other =? key) = false ->
  assoc key (List.filter (fun kv => negb (fst kv =? other)) l) = assoc key l.
Proof.
  intros Hne. induction l as [| [k v] l IH]; simpl; [reflexivity |].
  destruct (k =? other) eqn:Hk; simpl.
  - apply String.eqb_eq in Hk. subst k. rewrite Hne. exact IH.
  - now rewrite IH.
Qed.

Lemma get_wrapDefault nextTraceMap key :
  get (wrapDefault nextTraceMap) key =
  if "default" =? key then Some nextTraceMap else None.
Proof. reflexivity. Qed.

Lemma get_assignDefault nextTraceMap key :
  get (assignDefault nextTraceMap) key =
  if "default" =? key
  then Some (match get nextTraceMap "default" with
             | Some own => own
             | None => nextTraceMap
             end)
  else get nextTraceMap key.
Proof.
  unfold get, assignDefault. simpl.
  destruct ("default" =? key) eqn:Hk; [reflexivity |].
  now apply assoc_filter_other.
Qed.

Lemma marker_assignDefault nextTraceMap symbol :
  marker (assignDefault nextTraceMap) symbol = marker nextTraceMap symbol.
Proof. destruct symbol; reflexivity. Qed.

Lemma marker_wrapDefault nextTraceMap symbol :
  marker (wrapDefault nextTraceMap) symbol = None.
Proof. destruct symbol; reflexivity. Qed.

(** ** The entry strategies keep to the trace map *)

Lemma import_consistent (this : Tracer) (root : TraceMap) (fuel : nat)
    specifierNode path traceMap :
  follow root path = Some traceMap ->
  emits (consistent root path)
        (_iterateImportReferences this fuel specifierNode path traceMap).
Proof.
  intros Hf. destruct (traversal_consistent this root fuel) as (Hv & _ & _).
  unfold _iterateImportReferences. cbv zeta.
  destruct (_ || _).
  - destruct (if _ =? _ then _ else _) as [key | e |]; emit.
    destruct (get traceMap key) as [nextTraceMap |] eqn:Hg;
      [| apply emits_skip].
    eapply emits_child; eauto. intros Hf'. emit.
    destruct (local_variable this specifierNode); emit.
  - emit.
    + destruct (local_variable this specifierNode); emit.
    + destruct (name_of this _) as [key | e |]; emit.
      destruct (get traceMap key) as [nextTraceMap |] eqn:Hg;
        [| apply emits_skip].
      eapply emits_child; eauto. intros Hf'. emit.
Qed.

(** The trace map an import specifier is matched against, when the module
    has no [ESM] marker. *)
Lemma unwrap_consistent (legacy : bool) (root nextTraceMap : TraceMap)
    (moduleId : string) (r r' : Report.t) :
  get root moduleId = Some nextTraceMap ->
  (legacy = true -> get nextTraceMap "default" = None) ->
  consistent
    (object_of [(moduleId, if legacy then assignDefault nextTraceMap
                           else wrapDefault nextTraceMap)])
    [moduleId] r ->
  withoutDefault r = Some r' ->
  consistent root [moduleId] r'.
Proof.
  intros Hroot Hown [(terminal & Hf & Hm) [rest Hrest]] Hr'.
  apply withoutDefault_Some in Hr' as (_ & Hpath & Htype & Hentry & _).
  rewrite Hrest in Hf, Hpath. simpl in Hf, Hpath.
  unfold get at 1 in Hf. simpl in Hf. rewrite String.eqb_refl in Hf.
  unfold consistent, payload_at, extends.
  rewrite Hpath, Htype, Hentry. clear Hpath Htype Hentry Hrest r'.
  destruct rest as [| key rest]; simpl in *.
  - injection Hf as <-. split; [| now exists []].
    exists nextTraceMap. rewrite Hroot. split; [reflexivity |].
    destruct legacy.
    + now rewrite marker_assignDefault in Hm.
    + now rewrite marker_wrapDefault in Hm.
  - destruct legacy.
    + rewrite get_assignDefault in Hf. rewrite (String.eqb_sym key).
      destruct ("default" =? key) eqn:Hk.
      * rewrite (Hown eq_refl) in Hf. split; [| now exists rest].
        exists terminal. simpl. now rewrite Hroot.
      * split; [| now exists (key :: rest)].
        exists terminal. simpl. rewrite Hroot. auto.
    + rewrite get_wrapDefault in Hf. rewrite (String.eqb_sym key).
      destruct ("default" =? key) eqn:Hk; [| discriminate].
      split; [| now exists rest].
      exists terminal. simpl. now rewrite Hroot.
Qed.

Lemma follow_singleton (moduleId : string) (traceMap : TraceMap) :
  follow (object_of [(moduleId, traceMap)]) [moduleId] = Some traceMap.
Proof. simpl. unfold get. simpl. now rewrite String.eqb_refl. Qed.

Lemma esmSpecifier_consistent (this : Tracer) (root : TraceMap) (fuel : nat)
    moduleId nextTraceMap specifier :
  get root moduleId = Some nextTraceMap ->
  (mode this = "legacy" -> esm nextTraceMap = false ->
   get nextTraceMap "default" = None) ->
  emits (consistent root [moduleId])
        (esmSpecifier this fuel [moduleId] nextTraceMap specifier).
Proof.
  intros Hroot Hown. destruct (esm nextTraceMap) eqn:He.
  - intros s. rewrite esmSpecifier_esm by exact He.
    apply import_consistent. simpl. now rewrite Hroot.
  - intros s. rewrite esmSpecifier_cjs by exact He.
    rewrite yields_for_of_it.
    eapply Forall_omap;
      [| apply (import_consistent this
                  (object_of [(moduleId,
                               if mode this =? "legacy"
                               then assignDefault nextTraceMap
                               else wrapDefault nextTraceMap)]));
         apply follow_singleton].
    intros r r'. apply unwrap_consistent; [exact Hroot |].
    intros Hl. apply String.eqb_eq in Hl. auto.
Qed.

Lemma esmDeclaration_consistent (this : Tracer) (root : TraceMap) (fuel : nat)
    (node : NodeId) :
  (mode this = "legacy" ->
   forall moduleId nextTraceMap,
     get root moduleId = Some nextTraceMap -> esm nextTraceMap = false ->
     get nextTraceMap "default" = None) ->
  emits (fun r => consistent root
                    (match Node.source (nodeAt this node) with
                     | Some moduleId => [moduleId]
                     | None => []
                     end) r)
        (esmDeclaration this fuel root node).
Proof.
  intros Hown. unfold esmDeclaration. cbv zeta.
  destruct (negb _); [apply emits_skip |].
  destruct (Node.source (nodeAt this node)) as [moduleId |];
    [| apply emits_skip].
  destruct (get root moduleId) as [nextTraceMap |] eqn:Hroot;
    [| apply emits_skip].
  assert (Hf : follow root [moduleId] = Some nextTraceMap)
    by (simpl; now rewrite Hroot).
  emit.
  - apply emits_for_of. intros key _. unfold esmExportAll.
    destruct (get nextTraceMap key) as [exportTraceMap |] eqn:Hg;
      [| apply emits_skip].
    eapply emits_child; eauto. intros Hf'. emit.
  - apply emits_for_of. intros specifier _.
    apply esmSpecifier_consistent; eauto.
Qed.

Lemma keys_get (traceMap : TraceMap) (key : string) :
  In key (keys traceMap) ->
  exists nextTraceMap, get traceMap key = Some nextTraceMap.
Proof.
  unfold keys, get. induction (props traceMap) as [| [k v] l IH]; simpl.
  - intros [].
  - intros [-> | Hin].
    + rewrite String.eqb_refl. eauto.
    + destruct (k =? key); eauto.
Qed.

Lemma globalVariable_consistent (this : Tracer) (root : TraceMap) (fuel : nat)
    (key : string) :
  emits (consistent root [key]) (globalVariable this fuel root key).
Proof.
  unfold globalVariable.
  destruct (get root key) as [nextTraceMap |] eqn:Hg; [| apply emits_skip].
  cbv zeta. destruct (undeclared this key); [| apply emits_skip].
  apply traversal_consistent. simpl. now rewrite Hg.
Qed.

Lemma globalObject_consistent (this : Tracer) (root : TraceMap) (fuel : nat)
    (key : string) :
  emits (consistent root []) (globalObject this fuel root key).
Proof.
  unfold globalObject. cbv zeta.
  destruct (undeclared this key); [| apply emits_skip].
  now apply traversal_consistent.
Qed.

Lemma cjsReference_consistent (this : Tracer) (root : TraceMap) (fuel : nat)
    (reference : Reference.t) :
  emits (fun r => exists key, consistent root [key] r)
        (cjsReference this fuel root reference).
Proof.
  unfold cjsReference. cbv zeta.
  destruct (negb _); [apply emits_skip |].
  destruct (Node.parent _) as [callNode |]; [| apply emits_throw].
  destruct (_ || _); [apply emits_skip |].
  destruct (getStringIfConstant this _) as [key |]; [| apply emits_skip].
  destruct (get root key) as [nextTraceMap |] eqn:Hg; [| apply emits_skip].
  assert (Hf : follow root [key] = Some nextTraceMap)
    by (simpl; now rewrite Hg).
  apply emits_weaken with (R := consistent root [key]); [eauto |].
  emit. now apply traversal_consistent.
Qed.

(** ** More fuel changes nothing once a run has settled *)

Lemma settled_then (t : Trace) (g : Gen) : settled (then_ t g) -> settled t.
Proof.
  unfold settled. induction t as [r c rest IH | c s]; simpl; [exact IH |].
  destruct c; intros H; try exact H. discriminate.
Qed.

Lemma then_agrees (t : Trace) (g' g : Gen) :
  agrees g' g -> settled (then_ t g) -> then_ t g' = then_ t g.
Proof.
  intros Hg. induction t as [r c rest IH | c s]; simpl; intros Ht.
  - f_equal. now apply IH.
  - destruct c; [now apply Hg | reflexivity | reflexivity].
Qed.

Lemma agrees_refl (g : Gen) : agrees g g.
Proof. now intros s _. Qed.

Lemma agrees_trans (g2 g1 g0 : Gen) :
  agrees g2 g1 -> agrees g1 g0 -> agrees g2 g0.
Proof.
  intros H21 H10 s Hs. rewrite <- (H10 s Hs). apply H21.
  now rewrite (H10 s Hs).
Qed.

Lemma agrees_seq (g1' g1 g2' g2 : Gen) :
  agrees g1' g1 -> agrees g2' g2 -> agrees (g1' ;; g2') (g1 ;; g2).
Proof.
  intros H1 H2 s Hs. unfold seq in *.
  rewrite (H1 s (settled_then _ _ Hs)). now apply then_agrees.
Qed.

Lemma agrees_for_of {A : Type} (l : list A) (body' body : A -> Gen) :
  (forall x, agrees (body' x) (body x)) ->
  agrees (for_of l body') (for_of l body).
Proof.
  intros Hb. induction l as [| x l IH]; simpl.
  - apply agrees_refl.
  - now apply agrees_seq.
Qed.

Lemma agrees_if_marker traceMap symbol (body' body : JsValue -> Gen) :
  (forall payload, agrees (body' payload) (body payload)) ->
  agrees (if_marker traceMap symbol body') (if_marker traceMap symbol body).
Proof.
  intros Hb. unfold if_marker.
  destruct (marker traceMap symbol) as [payload |]; [| apply agrees_refl].
  destruct (truthy payload); [apply Hb | apply agrees_refl].
Qed.

Lemma agrees_finally cleanup (f : Stack -> Stack) (g' g : Gen) :
  agrees g' g ->
  agrees (fun s => finally cleanup (g' (f s)))
         (fun s => finally cleanup (g (f s))).
Proof.
  intros Hg s Hs. unfold settled in Hs. rewrite completion_finally in Hs.
  now rewrite (Hg (f s) Hs).
Qed.

Lemma agrees_for_of_it body (g' g : Gen) :
  agrees g' g ->
  agrees (fun s => for_of_it body (g' s)) (fun s => for_of_it body (g s)).
Proof.
  intros Hg s Hs. unfold settled in Hs. rewrite completion_for_of_it in Hs.
  now rewrite (Hg s Hs).
Qed.

Lemma climb_more (this : Tracer) (fuel : nat) (node : NodeId) :
  climb this fuel node <> OutOfFuel ->
  climb this (S fuel) node = climb this fuel node.
Proof.
  revert node. induction fuel as [| fuel IH]; intros node H.
  - now destruct H.
  - cbn [climb] in *. destruct (Node.parent (nodeAt this node)) as [parent |];
      [| reflexivity].
    destruct (SENTINEL_TYPE _); [reflexivity |]. now apply IH.
Qed.

Ltac agree :=
  repeat first
    [ apply agrees_refl
    | apply agrees_seq
    | apply agrees_for_of; intros ?
    | apply agrees_if_marker; intros ?
    | solve [auto]
    | match goal with
      | |- agrees (if ?c then _ else _) (if ?c then _ else _) => destruct c
      | |- agrees (match ?x with _ => _ end) (match ?x with _ => _ end) =>
          destruct x
      | |- agrees (let _ := _ in _) _ => cbv zeta
      end ].

(** One more level of recursion on both sides. *)
Lemma traversal_agrees_step (this : Tracer) (m n : nat) :
  (forall node, climb this n node <> OutOfFuel ->
                climb this m node = climb this n node) ->
  (forall variable path traceMap shouldReport,
      agrees (_iterateVariableReferences this m variable path traceMap
                                         shouldReport)
             (_iterateVariableReferences this n variable path traceMap
                                         shouldReport)) ->
  (forall rootNode path traceMap,
      agrees (_iteratePropertyReferences this m rootNode path traceMap)
             (_iteratePropertyReferences this n rootNode path traceMap)) ->
  (forall patternNode path traceMap,
      agrees (_iterateLhsReferences this m patternNode path traceMap)
             (_iterateLhsReferences this n patternNode path traceMap)) ->
  (forall variable path traceMap shouldReport,
      agrees (_iterateVariableReferences this (S m) variable path traceMap
                                         shouldReport)
             (_iterateVariableReferences this (S n) variable path traceMap
                                         shouldReport))
  /\ (forall rootNode path traceMap,
         agrees (_iteratePropertyReferences this (S m) rootNode path traceMap)
                (_iteratePropertyReferences this (S n) rootNode path
                                            traceMap))
  /\ (forall patternNode path traceMap,
         agrees (_iterateLhsReferences this (S m) patternNode path traceMap)
                (_iterateLhsReferences this (S n) patternNode path traceMap)).
Proof.
  intros Hclimb Hv Hp Hl. repeat split.
  - intros variable path traceMap shouldReport s. simpl.
    destruct (includes s variable); [reflexivity |].
    revert s. apply (agrees_finally pop (fun s => push s variable)).
    destruct variable as [v |]; agree.
  - intros rootNode path traceMap. simpl.
    destruct (climb this n rootNode) as [[node parent] | e |] eqn:Hn.
    + rewrite (Hclimb rootNode) by (rewrite Hn; discriminate).
      rewrite Hn. agree.
    + rewrite (Hclimb rootNode) by (rewrite Hn; discriminate).
      rewrite Hn. agree.
    + intros s Hs. now destruct Hs.
  - intros patternNode path traceMap. simpl.
    destruct patternNode as [patternNode |]; agree.
Qed.

Lemma traversal_agrees (this : Tracer) (fuel : nat) :
  (forall variable path traceMap shouldReport,
      agrees (_iterateVariableReferences this (S fuel) variable path traceMap
                                         shouldReport)
             (_iterateVariableReferences this fuel variable path traceMap
                                         shouldReport))
  /\ (forall rootNode path traceMap,
         agrees (_iteratePropertyReferences this (S fuel) rootNode path
                                            traceMap)
                (_iteratePropertyReferences this fuel rootNode path traceMap))
  /\ (forall patternNode path traceMap,
         agrees (_iterateLhsReferences this (S fuel) patternNode path
                                       traceMap)
                (_iterateLhsReferences this fuel patternNode path traceMap)).
Proof.
  induction fuel as [| fuel (IHv & IHp & IHl)].
  - repeat split; intros; intros s Hs; now destruct Hs.
  - apply traversal_agrees_step; auto. apply climb_more.
Qed.

Lemma traversal_agrees_plus (this : Tracer) (extra fuel : nat) :
  (forall variable path traceMap shouldReport,
      agrees (_iterateVariableReferences this (extra + fuel) variable path
                                         traceMap shouldReport)
             (_iterateVariableReferences this fuel variable path traceMap
                                         shouldReport))
  /\ (forall rootNode path traceMap,
         agrees (_iteratePropertyReferences this (extra + fuel) rootNode path
                                            traceMap)
                (_iteratePropertyReferences this fuel rootNode path traceMap))
  /\ (forall patternNode path traceMap,
         agrees (_iterateLhsReferences this (extra + fuel) patternNode path
                                       traceMap)
                (_iterateLhsReferences this fuel patternNode path traceMap)).
Proof.
  induction extra as [| extra (IHv & IHp & IHl)].
  - repeat split; intros; apply agrees_refl.
  - destruct (traversal_agrees this (extra + fuel)) as (Hv & Hp & Hl).
    repeat split; intros; eapply agrees_trans; eauto.
Qed.

Lemma import_agrees (this : Tracer) (extra fuel : nat) specifierNode path
    traceMap :
  agrees (_iterateImportReferences this (extra + fuel) specifierNode path
                                   traceMap)
         (_iterateImportReferences this fuel specifierNode path traceMap).
Proof.
  destruct (traversal_agrees_plus this extra fuel) as (Hv & _ & _).
  unfold _iterateImportReferences. cbv zeta. agree.
Qed.

(** A run of an entry strategy that did not stop for lack of fuel is the
    run with any larger amount of fuel. *)
Theorem enough_fuel (this : Tracer) (extra fuel : nat) (traceMap : TraceMap) :
  agrees (iterateGlobalReferences this (extra + fuel) traceMap)
         (iterateGlobalReferences this fuel traceMap)
  /\ agrees (iterateCjsReferences this (extra + fuel) traceMap)
            (iterateCjsReferences this fuel traceMap)
  /\ agrees (iterateEsmReferences this (extra + fuel) traceMap)
            (iterateEsmReferences this fuel traceMap).
Proof.
  destruct (traversal_agrees_plus this extra fuel) as (Hv & Hp & Hl).
  repeat split.
  - unfold iterateGlobalReferences, globalVariable, globalObject. agree.
  - unfold iterateCjsReferences, cjsReference. agree.
  - unfold iterateEsmReferences, esmDeclaration, esmSpecifier. agree.
    + apply import_agrees.
    + apply (agrees_for_of_it withoutDefault), import_agrees.
Qed.

(** ** Every run on a finite program settles *)

Lemma settles_skip s : settles s skip.
Proof. discriminate. Qed.

Lemma settles_throw s e : settles s (throw e).
Proof. discriminate. Qed.

Lemma settles_yield s r : settles s (yield r).
Proof. discriminate. Qed.

Lemma settles_seq s (g1 g2 : Gen) :
  balanced g1 -> settles s g1 -> settles s g2 -> settles s (g1 ;; g2).
Proof.
  intros Hb H1 H2. unfold settles, settled, seq in *.
  specialize (Hb s). induction (g1 s) as [r c rest IH | c s1]; simpl in *.
  - apply IH; tauto.
  - subst s1. destruct c; [exact H2 | discriminate | exact H1].
Qed.

Lemma settles_for_of {A : Type} s (l : list A) (body : A -> Gen) :
  (forall x, balanced (body x)) ->
  (forall x, In x l -> settles s (body x)) ->
  settles s (for_of l body).
Proof.
  intros Hb Hs. induction l as [| x l IH]; simpl.
  - apply settles_skip.
  - apply settles_seq; [apply Hb | apply Hs; now left |].
    apply IH. intros y Hy. apply Hs. now right.
Qed.

Lemma settles_if_marker s traceMap symbol (body : JsValue -> Gen) :
  (forall payload, settles s (body payload)) ->
  settles s (if_marker traceMap symbol body).
Proof.
  intros Hb. unfold if_marker.
  destruct (marker traceMap symbol) as [payload |]; [| apply settles_skip].
  destruct (truthy payload); [apply Hb | apply settles_skip].
Qed.

Lemma settles_marker s traceMap symbol node path :
  settles s (if_marker traceMap symbol (fun payload =>
               yield (Report.mk node path symbol payload))).
Proof. apply settles_if_marker. intros payload. apply settles_yield. Qed.

Lemma includes_push s variable x :
  includes (push s x) variable = includes s variable || same_variable variable x.
Proof.
  unfold includes, push. rewrite existsb_app. simpl. now rewrite orb_false_r.
Qed.

Lemma same_variable_refl variable : same_variable variable variable = true.
Proof. destruct variable; simpl; [apply Nat.eqb_refl | reflexivity]. Qed.

Lemma filter_length_le {A : Type} (f f' : A -> bool) (l : list A) :
  (forall x, f' x = true -> f x = true) ->
  length (List.filter f' l) <= length (List.filter f l).
Proof.
  intros Hf. induction l as [| x l IH]; simpl; [lia |].
  destruct (f' x) eqn:H'; [rewrite (Hf x H'); simpl; lia |].
  destruct (f x); simpl; lia.
Qed.

Lemma filter_length_lt {A : Type} (f f' : A -> bool) (l : list A) (a : A) :
  (forall x, f' x = true -> f x = true) ->
  In a l -> f a = true -> f' a = false ->
  length (List.filter f' l) < length (List.filter f l).
Proof.
  intros Hf Hin Ha Ha'. induction l as [| x l IH]; simpl; [destruct Hin |].
  destruct Hin as [-> | Hin].
  - rewrite Ha, Ha'. simpl.
    pose proof (filter_length_le f f' l Hf). lia.
  - specialize (IH Hin).
    destruct (f' x) eqn:H'; [rewrite (Hf x H'); simpl; lia |].
    destruct (f x); simpl; lia.
Qed.

Lemma free_push (V : list VarId) (s : Stack) (v : VarId) :
  In v V -> includes s (Some v) = false ->
  free V (push s (Some v)) < free V s.
Proof.
  intros Hin Hv. unfold free. apply filter_length_lt with (a := v).
  - intros x. rewrite includes_push, negb_orb. intros H.
    now apply andb_true_iff in H as [H _].
  - exact Hin.
  - now rewrite Hv.
  - rewrite includes_push, same_variable_refl, orb_true_r. reflexivity.
Qed.

Lemma free_zero (V : list VarId) (s : Stack) (v : VarId) :
  In v V -> free V s = 0 -> includes s (Some v) = true.
Proof.
  intros Hin Hfree. unfold free in Hfree.
  destruct (includes s (Some v)) eqn:Hv; [reflexivity |].
  assert (Hf : In v (List.filter (fun v => negb (includes s (Some v))) V)).
  { apply filter_In. split; [exact Hin | now rewrite Hv]. }
  destruct (List.filter _ V); [destruct Hf | discriminate].
Qed.

Lemma free_le (V : list VarId) (s : Stack) : free V s <= length V.
Proof.
  unfold free. induction V as [| v V IH]; simpl; [lia |].
  destruct (negb _); simpl; lia.
Qed.

Ltac settle :=
  repeat first
    [ apply settles_skip
    | apply settles_throw
    | apply settles_yield
    | apply settles_marker
    | apply settles_seq; [solve [balance] | |]
    | solve [auto]
    | match goal with
      | |- settles _ (if ?c then _ else _) => destruct c eqn:?
      | |- settles _ (let _ := _ in _) => cbv zeta
      end ].

Lemma climb_settles (this : Tracer) depth height D H V
    (F : Finite this depth height D H V) (fuel : nat) (node : NodeId) :
  depth node < fuel ->
  match climb this fuel node with
  | Normal (_, parent) => depth parent < depth node
  | Throw _ => True
  | OutOfFuel => False
  end.
Proof.
  revert node. induction fuel as [| fuel IH]; intros node Hd; [lia |].
  simpl. destruct (Node.parent (nodeAt this node)) as [parent |] eqn:Hp;
    [| exact I].
  pose proof (parent_closer _ _ _ _ _ _ F node parent Hp) as Hlt.
  destruct (SENTINEL_TYPE _); [exact Hlt |].
  specialize (IH parent ltac:(lia)).
  destruct (climb this fuel parent) as [[n p] | e |]; [lia | exact I | exact IH].
Qed.

Lemma lhs_none_settles (this : Tracer) (fuel : nat) path traceMap s :
  1 <= fuel -> settles s (_iterateLhsReferences this fuel None path traceMap).
Proof. destruct fuel; [lia |]. intros _. apply settles_throw. Qed.

Lemma fuelVar_pos D H k : 1 <= fuelVar D H k.
Proof. unfold fuelVar. lia. Qed.

Lemma lhs_settles_step (this : Tracer) depth height D H V
    (F : Finite this depth height D H V) (fuel : nat) (p : NodeId) path
    traceMap s :
  (forall variable path traceMap shouldReport,
      (forall v, variable = Some v -> In v V) ->
      settles s (_iterateVariableReferences this fuel variable path traceMap
                                            shouldReport)) ->
  (forall sub path traceMap,
      (forall v, sub = Some v -> height v < height p) ->
      settles s (_iterateLhsReferences this fuel sub path traceMap)) ->
  settles s (_iterateLhsReferences this (S fuel) (Some p) path traceMap).
Proof.
  intros HV Hsub.
  destruct (traversal_balanced this fuel) as (Bv & Bp & Bl).
  simpl.
  destruct (Node.type (nodeAt this p) =? "Identifier").
  { destruct (_findVariable this p) as [v |] eqn:Hv; [| apply settles_skip].
    apply HV. intros v' [= <-]. eapply variables_listed; eauto. }
  destruct (Node.type (nodeAt this p) =? "ObjectPattern") eqn:Hobject.
  { apply String.eqb_eq in Hobject.
    apply settles_for_of; [intros property; balance |].
    intros property Hin.
    destruct (getPropertyName this property) as [key |]; settle.
    destruct (get traceMap key) as [nextTraceMap |]; settle.
    apply Hsub. intros v Hv. eapply value_lower; eauto. }
  destruct (Node.type (nodeAt this p) =? "AssignmentPattern") eqn:Hassign;
    [| apply settles_skip].
  apply String.eqb_eq in Hassign.
  apply Hsub. intros v Hv. eapply left_lower; eauto.
Qed.

Lemma lhs_settles (this : Tracer) depth height D H V
    (F : Finite this depth height D H V) (k : nat) :
  (forall fuel variable path traceMap shouldReport s,
      free V s <= k ->
      (forall v, variable = Some v -> In v V) ->
      fuelVar D H k <= fuel ->
      settles s (_iterateVariableReferences this fuel variable path traceMap
                                            shouldReport)) ->
  forall h patternNode path traceMap s fuel,
    free V s <= k ->
    (forall p, patternNode = Some p -> height p <= h) ->
    fuelLhs D H k h <= fuel ->
    settles s (_iterateLhsReferences this fuel patternNode path traceMap).
Proof.
  intros HV h. pose proof (fuelVar_pos D H k) as Hpos.
  induction h as [| h IH];
    intros patternNode path traceMap s fuel Hfree Hh Hfuel;
    unfold fuelLhs in Hfuel;
    (destruct patternNode as [p |];
     [| apply lhs_none_settles; lia]);
    (destruct fuel as [| fuel]; [lia |]);
    specialize (Hh p eq_refl);
    (apply (lhs_settles_step this depth height D H V F fuel p);
     [ intros variable path' traceMap' shouldReport Hin;
       apply HV; [exact Hfree | exact Hin | lia]
     | ]).
  - intros [v |] path' traceMap' Hv.
    + specialize (Hv v eq_refl). lia.
    + apply lhs_none_settles. lia.
  - intros sub path' traceMap' Hv. apply IH; [exact Hfree | |].
    + intros v Hsome. specialize (Hv v Hsome). lia.
    + unfold fuelLhs. lia.
Qed.

Lemma prop_settles_step (this : Tracer) depth height D H V
    (F : Finite this depth height D H V) (fuel : nat) (rootNode : NodeId)
    path traceMap s :
  depth rootNode < fuel ->
  (forall patternNode path traceMap,
      settles s (_iterateLhsReferences this fuel patternNode path traceMap)) ->
  (forall parent path traceMap,
      depth parent < depth rootNode ->
      settles s (_iteratePropertyReferences this fuel parent path traceMap)) ->
  settles s (_iteratePropertyReferences this (S fuel) rootNode path traceMap).
Proof.
  intros Hd Hl Hup.
  destruct (traversal_balanced this fuel) as (Bv & Bp & Bl).
  pose proof (climb_settles this depth height D H V F fuel rootNode Hd)
    as Hclimb.
  simpl. destruct (climb this fuel rootNode) as [[node parent] | e |];
    [| apply settles_throw | destruct Hclimb].
  settle.
  destruct (getPropertyName this parent) as [key |]; settle.
  destruct (get traceMap key) as [nextTraceMap |]; settle.
Qed.

Lemma prop_settles (this : Tracer) depth height D H V
    (F : Finite this depth height D H V) (k : nat) :
  (forall fuel variable path traceMap shouldReport s,
      free V s <= k ->
      (forall v, variable = Some v -> In v V) ->
      fuelVar D H k <= fuel ->
      settles s (_iterateVariableReferences this fuel variable path traceMap
                                            shouldReport)) ->
  forall d rootNode path traceMap s fuel,
    free V s <= k ->
    depth rootNode <= d ->
    fuelProp D H k d <= fuel ->
    settles s (_iteratePropertyReferences this fuel rootNode path traceMap).
Proof.
  intros HV d. pose proof (fuelVar_pos D H k) as Hpos.
  induction d as [| d IH];
    intros rootNode path traceMap s fuel Hfree Hd Hfuel;
    unfold fuelProp in Hfuel;
    (destruct fuel as [| fuel]; [lia |]);
    pose proof (depth_bound _ _ _ _ _ _ F rootNode) as HD;
    (apply (prop_settles_step this depth height D H V F fuel rootNode);
     [ lia
     | intros patternNode path' traceMap';
       apply (lhs_settles this depth height D H V F k HV H);
       [ exact Hfree
       | intros p _; apply (height_bound _ _ _ _ _ _ F)
       | lia ]
     | ]).
  - intros parent path' traceMap' Hp. lia.
  - intros parent path' traceMap' Hp. apply IH; [exact Hfree | lia |].
    unfold fuelProp. lia.
Qed.

Lemma var_settles (this : Tracer) depth height D H V
    (F : Finite this depth height D H V) (k : nat) :
  forall fuel variable path traceMap shouldReport s,
    free V s <= k ->
    (forall v, variable = Some v -> In v V) ->
    fuelVar D H k <= fuel ->
    settles s (_iterateVariableReferences this fuel variable path traceMap
                                          shouldReport).
Proof.
  induction k as [| k IH];
    intros fuel variable path traceMap shouldReport s Hfree Hin Hfuel;
    pose proof (fuelVar_pos D H 0) as Hpos;
    (destruct fuel as [| fuel]; [unfold fuelVar in *; lia |]);
    unfold settles, settled; simpl;
    (destruct (includes s variable) eqn:Hon; [discriminate |]);
    rewrite completion_finally;
    (destruct variable as [v |]; [| discriminate]);
    specialize (Hin v eq_refl).
  - rewrite (free_zero V s v Hin) in Hon by lia. discriminate.
  - pose proof (free_push V s v Hin Hon) as Hless.
    destruct (traversal_balanced this fuel) as (Bv & Bp & Bl).
    apply (settles_for_of (push s (Some v))); [intros reference; balance |].
    intros reference _. settle.
    apply (prop_settles this depth height D H V F k IH D);
      [lia | apply (depth_bound _ _ _ _ _ _ F) |].
    unfold fuelProp, fuelLhs, fuelVar in *. lia.
Qed.

Lemma import_settles (this : Tracer) (fuel : nat) specifier path traceMap s :
  (forall local path traceMap,
      settles s (_iterateVariableReferences this fuel (_findVariable this local)
                                            path traceMap false)) ->
  settles s (_iterateImportReferences this fuel specifier path traceMap).
Proof.
  intros Hv. destruct (traversal_balanced this fuel) as (Bv & Bp & Bl).
  assert (Hlocal : forall path traceMap,
             settles s
               match local_variable this specifier with
               | Normal variable =>
                   _iterateVariableReferences this fuel variable path
                                              traceMap false
               | Throw e => throw e
               | OutOfFuel => out_of_fuel
               end).
  { intros path' traceMap'. unfold local_variable.
    destruct (Node.local (nodeAt this specifier)); [apply Hv |].
    apply settles_throw. }
  unfold _iterateImportReferences. cbv zeta.
  destruct (_ || _).
  - destruct (Node.type (nodeAt this specifier) =? "ImportDefaultSpecifier");
      [| unfold name_of;
         destruct (Node.imported (nodeAt this specifier));
         [| apply settles_throw]];
      (destruct (get traceMap _); settle).
  - destruct (Node.type (nodeAt this specifier) =? "ImportNamespaceSpecifier");
      [apply Hlocal |].
    destruct (Node.type (nodeAt this specifier) =? "ExportSpecifier");
      [| apply settles_skip].
    unfold name_of. destruct (Node.local (nodeAt this specifier));
      [| apply settles_throw].
    destruct (get traceMap _); settle.
Qed.

Lemma entries_balanced (this : Tracer) (fuel : nat) (traceMap : TraceMap) :
  balanced (iterateGlobalReferences this fuel traceMap)
  /\ balanced (iterateCjsReferences this fuel traceMap)
  /\ balanced (iterateEsmReferences this fuel traceMap).
Proof.
  destruct (traversal_balanced this fuel) as (Bv & Bp & Bl).
  assert (Bi : forall specifier path traceMap',
             balanced (_iterateImportReferences this fuel specifier path
                                                traceMap')).
  { intros specifier path traceMap'. unfold _iterateImportReferences.
    balance. }
  repeat split.
  - unfold iterateGlobalReferences, globalVariable, globalObject. balance.
  - unfold iterateCjsReferences, cjsReference. balance.
  - unfold iterateEsmReferences, esmDeclaration, esmExportAll, esmSpecifier.
    balance; intros s1; apply leaves_for_of_it, Bi.
Qed.

(** On a finite program every entry strategy settles, whatever the trace
    map and the stack, once the fuel exceeds a bound that depends on the
    size of the program only. *)
Theorem entries_settle (this : Tracer) depth height D H V
    (F : Finite this depth height D H V) (fuel : nat) (traceMap : TraceMap)
    (s : Stack) :
  fuelProp D H (length V) D <= fuel ->
  settles s (iterateGlobalReferences this fuel traceMap)
  /\ settles s (iterateCjsReferences this fuel traceMap)
  /\ settles s (iterateEsmReferences this fuel traceMap).
Proof.
  intros Hfuel.
  destruct (traversal_balanced this fuel) as (Bv & Bp & Bl).
  pose proof (free_le V s) as Hfree.
  assert (Hv : forall variable path traceMap' shouldReport,
             (forall v, variable = Some v -> In v V) ->
             settles s (_iterateVariableReferences this fuel variable path
                          traceMap' shouldReport)).
  { intros variable path traceMap' shouldReport Hin.
    apply (var_settles this depth height D H V F (length V));
      [exact Hfree | exact Hin |].
    unfold fuelProp, fuelLhs in Hfuel. lia. }
  assert (Hp : forall rootNode path traceMap',
             settles s (_iteratePropertyReferences this fuel rootNode path
                          traceMap')).
  { intros rootNode path traceMap'.
    apply (prop_settles this depth height D H V F (length V)
             (var_settles this depth height D H V F (length V)) D);
      [exact Hfree | apply (depth_bound _ _ _ _ _ _ F) | exact Hfuel]. }
  assert (Hu : forall key v, undeclared this key = Some v -> In v V).
  { intros key v Hu. apply undeclared_Some in Hu as [Hu _].
    eapply globals_listed; eauto. }
  assert (Hi : forall specifier path traceMap',
             settles s (_iterateImportReferences this fuel specifier path
                          traceMap')).
  { intros specifier path traceMap'.
    apply import_settles. intros local path0 traceMap0.
    apply Hv. intros v. apply (variables_listed _ _ _ _ _ _ F). }
  destruct (entries_balanced this fuel traceMap) as (_ & _ & Be).
  assert (Bi : forall specifier path traceMap',
             balanced (_iterateImportReferences this fuel specifier path
                                                traceMap'))
    by (intros; unfold _iterateImportReferences; balance).
  repeat split.
  - unfold iterateGlobalReferences.
    apply settles_seq.
    + apply balanced_for_of. intros x. unfold globalVariable. balance.
    + apply settles_for_of; [intros x; unfold globalVariable; balance |].
      intros x _. unfold globalVariable.
      destruct (get traceMap x); settle.
      destruct (undeclared this x) as [v |] eqn:Hx; settle.
      apply Hv. intros v' [= <-]. eauto.
    + apply settles_for_of; [intros x; unfold globalObject; balance |].
      intros x _. unfold globalObject. cbv zeta.
      destruct (undeclared this x) as [v |] eqn:Hx; settle.
      apply Hv. intros v' [= <-]. eauto.
  - unfold iterateCjsReferences.
    destruct (undeclared this "require"); settle.
    apply settles_for_of; [intros x; unfold cjsReference; balance |].
    intros x _. unfold cjsReference. cbv zeta. settle.
    destruct (Node.parent _) as [callNode |]; settle.
    destruct (getStringIfConstant this _) as [key |]; settle.
    destruct (get traceMap key); settle.
  - unfold iterateEsmReferences.
    apply settles_for_of.
    + intros x. unfold esmDeclaration, esmExportAll, esmSpecifier.
      balance; intros s1; apply leaves_for_of_it, Bi.
    + intros x _. unfold esmDeclaration. cbv zeta. settle.
      destruct (Node.source (nodeAt this x)) as [moduleId |]; settle.
      destruct (get traceMap moduleId) as [nextTraceMap |]; settle.
      * apply settles_for_of; [intros y; unfold esmExportAll; balance |].
        intros y _. unfold esmExportAll.
        destruct (get nextTraceMap y); settle.
      * apply settles_for_of.
        -- intros y. unfold esmSpecifier.
           balance; intros s1; apply leaves_for_of_it, Bi.
        -- intros y _. unfold esmSpecifier. cbv zeta.
           destruct (esm nextTraceMap); [apply Hi |].
           unfold settles, settled. rewrite completion_for_of_it. apply Hi.
Qed.

(** Past that bound the run of an entry strategy does not depend on the
    fuel. *)
Corollary entries_do_not_depend_on_fuel (this : Tracer) depth height D H V
    (F : Finite this depth height D H V) (extra : nat) (traceMap : TraceMap)
    (s : Stack) :
  iterateGlobalReferences this (extra + fuelProp D H (length V) D) traceMap s =
  iterateGlobalReferences this (fuelProp D H (length V) D) traceMap s
  /\ iterateCjsReferences this (extra + fuelProp D H (length V) D) traceMap s =
     iterateCjsReferences this (fuelProp D H (length V) D) traceMap s
  /\ iterateEsmReferences this (extra + fuelProp D H (length V) D) traceMap s =
     iterateEsmReferences this (fuelProp D H (length V) D) traceMap s.
Proof.
  destruct (entries_settle this depth height D H V F
              (fuelProp D H (length V) D) traceMap s (le_n _))
    as (Sg & Sc & Se).
  destruct (enough_fuel this extra (fuelProp D H (length V) D) traceMap)
    as (Ag & Ac & Ae).
  auto.
Qed.

(** [const {y} = window.x; y();] is such a program. *)
Lemma Destructure_finite :
  Finite Destructure.tracer Destructure.depth Destructure.height 5 1
         [Destructure.window; Destructure.y].
Proof.
  assert (Hscope : forall name v,
             Scope.set Destructure.scope !! name = Some v ->
             In v [Destructure.window; Destructure.y]).
  { intros name v. simpl. intros Hv.
    apply lookup_insert_Some in Hv as [[_ <-] | [_ Hv]]; [now left |].
    apply lookup_singleton_Some in Hv as [_ <-]. right. now left. }
  split.
  - intros n p.
    do 13 (destruct n as [| n]; [simpl; intros [= <-]; simpl; lia |]).
    discriminate.
  - intros n. do 13 (destruct n as [| n]; [simpl; lia |]). simpl. lia.
  - intros n p v Htype.
    destruct (Nat.eq_dec n 3) as [-> | Hn].
    + simpl. intros [<- | []]. simpl. intros [= <-]. simpl. lia.
    + exfalso. revert Htype.
      do 13 (destruct n as [| n]; [try discriminate; now destruct Hn |]).
      discriminate.
  - intros n l.
    do 13 (destruct n as [| n]; [discriminate |]). discriminate.
  - intros n. unfold Destructure.height.
    do 4 (destruct n as [| n]; [lia |]). lia.
  - intros node v Hv. unfold _findVariable in Hv. simpl in Hv.
    destruct (_ !! _) as [w |] eqn:Hw; [| discriminate].
    injection Hv as <-. eapply Hscope. exact Hw.
  - exact Hscope.
Qed.

(** So is [let x = x;]. *)
Lemma LetSelf_finite :
  Finite LetSelf.tracer LetSelf.depth (fun _ => 0) 3 0 [LetSelf.x].
Proof.
  assert (Hscope : forall name v,
             Scope.set LetSelf.scope !! name = Some v -> In v [LetSelf.x]).
  { intros name v. simpl. intros Hv.
    apply lookup_singleton_Some in Hv as [_ <-]. now left. }
  split.
  - intros n p.
    do 5 (destruct n as [| n]; [simpl; intros [= <-]; simpl; lia |]).
    discriminate.
  - intros n. do 5 (destruct n as [| n]; [simpl; lia |]). simpl. lia.
  - intros n p v Htype. exfalso. revert Htype.
    do 5 (destruct n as [| n]; [discriminate |]). discriminate.
  - intros n l Htype. exfalso. revert Htype.
    do 5 (destruct n as [| n]; [discriminate |]). discriminate.
  - intros n. lia.
  - intros node v Hv. unfold _findVariable in Hv. simpl in Hv.
    destruct (_ !! _) as [w |] eqn:Hw; [| discriminate].
    injection Hv as <-. eapply Hscope. exact Hw.
  - exact Hscope.
Qed.

(** * The properties of the specification *)

(** A run on a truthy payload, by the shape of the payload. *)
Ltac by_cases_of E HE :=
  destruct E as [| | [|] | [| ? | ?] | [| ? ?] | ?];
  try discriminate HE; vm_compute; reflexivity.

(** A run on any payload, by the shape of the payload. *)
Ltac by_shape_of E :=
  destruct E as [| | [|] | [| ? | ?] | [| ? ?] | ?]; vm_compute; reflexivity.

(** ** Global strategy *)

Lemma iterateGlobalReferences_roots (this : Tracer) (fuel : nat)
    (traceMap : TraceMap) (s : Stack) :
  iterateGlobalReferences this fuel traceMap s =
  for_of (globalRoots this traceMap) (propagate this fuel) s.
Proof.
  unfold iterateGlobalReferences, globalRoots.
  rewrite for_of_app. unfold seq.
  rewrite (for_of_flat_map _ (keys traceMap)).
  erewrite then_ext.
  - f_equal. apply for_of_ext. intros key s1 _. unfold globalVariable.
    destruct (get traceMap key); [| reflexivity].
    cbv zeta. destruct (undeclared this key); simpl; [| reflexivity].
    unfold seq. now rewrite then_skip.
  - intros s1. rewrite for_of_flat_map. apply for_of_ext.
    intros name s2 _. unfold globalObject. cbv zeta.
    destruct (undeclared this name); simpl; [| reflexivity].
    unfold seq. now rewrite then_skip.
Qed.

(** C2: the global strategy emits matches only through the variables of
    the global scope that have no declaring definition.  A top-level key
    of the trace map that names such a variable has the variable
    propagated with path [[key]], the child map of the key and
    [shouldReport = true]; a name of the global object that names such a
    variable has it propagated with the empty path, the whole trace map
    and [shouldReport = false]; a name whose variable is absent from the
    global scope or has a declaring definition contributes nothing.  The
    roots propagated are exactly these, the keys first.  So [window.x;]
    is matched through [window] against [{ x: ... }] and through the key
    [window] against [{ window: ... }], the records of the keys coming
    before those of the names of the global object whatever the order of
    the keys is; the bare [window] is not reported as a name of the
    global object, and after [function window() {}] nothing is matched. *)
Theorem C2_global_strategy :
  (forall (this : Tracer) (fuel : nat) (traceMap : TraceMap) (s : Stack)
          key nextTraceMap v,
      get traceMap key = Some nextTraceMap ->
      undeclaredGlobal this key v ->
      globalVariable this fuel traceMap key s =
      _iterateVariableReferences this fuel (Some v) [key] nextTraceMap true s)
  /\ (forall (this : Tracer) (fuel : nat) (traceMap : TraceMap) (s : Stack)
             name v,
         undeclaredGlobal this name v ->
         globalObject this fuel traceMap name s =
         _iterateVariableReferences this fuel (Some v) [] traceMap false s)
  /\ (forall (this : Tracer) (fuel : nat) (traceMap : TraceMap) (s : Stack)
             name,
         shadowedOrAbsent this name ->
         globalVariable this fuel traceMap name s = End (Normal tt) s
         /\ globalObject this fuel traceMap name s = End (Normal tt) s)
  /\ (forall (this : Tracer) (fuel : nat) (traceMap : TraceMap) (s : Stack),
         iterateGlobalReferences this fuel traceMap s =
         for_of (globalRoots this traceMap) (propagate this fuel) s)
  /\ (forall (this : Tracer) (traceMap : TraceMap) root,
         In root (globalRoots this traceMap) <->
         (exists key,
             In key (keys traceMap)
             /\ undeclaredGlobal this key (root_variable root)
             /\ root_path root = [key]
             /\ get traceMap key = Some (root_traceMap root)
             /\ root_shouldReport root = true)
         \/ (exists name,
                In name (globalObjectNames this)
                /\ undeclaredGlobal this name (root_variable root)
                /\ root_path root = []
                /\ root_traceMap root = traceMap
                /\ root_shouldReport root = false))
  /\ (forall (this : Tracer) (fuel : nat) (traceMap : TraceMap) (s : Stack),
         (forall key, In key (keys traceMap) -> shadowedOrAbsent this key) ->
         (forall name, In name (globalObjectNames this) ->
                       shadowedOrAbsent this name) ->
         iterateGlobalReferences this fuel traceMap s = End (Normal tt) s)
  /\ (forall fuel E,
         iterateGlobalReferences (WindowMember.tracer false) (4 + fuel)
           (object_of [("x", on READ E)]) [] =
         (if truthy E
          then Yield (Report.mk 5 ["x"] READ E) [] (End (Normal tt) [])
          else End (Normal tt) [])
         /\ iterateGlobalReferences (WindowMember.tracer false) (4 + fuel)
              (object_of [("window", on READ E)]) [] =
            (if truthy E
             then Yield (Report.mk 6 ["window"] READ E) []
                        (End (Normal tt) [])
             else End (Normal tt) [])
         /\ iterateGlobalReferences (WindowMember.tracer false) (4 + fuel)
              (on READ E) [] = End (Normal tt) []
         /\ iterateGlobalReferences (WindowMember.tracer true) (4 + fuel)
              (object_of [("x", on READ E)]) [] = End (Normal tt) []
         /\ iterateGlobalReferences (WindowMember.tracer true) (4 + fuel)
              (object_of [("window", on READ E)]) [] = End (Normal tt) [])
  /\ (forall fuel E F,
         iterateGlobalReferences (WindowMember.tracer false) (4 + fuel)
           (object_of [("x", on READ F); ("window", on READ E)]) [] =
         for_of ((if truthy E then [Report.mk 6 ["window"] READ E] else [])
                 ++ (if truthy F then [Report.mk 5 ["x"] READ F] else []))
                yield []).
Proof.
  split; [| split; [| split; [| split; [| split; [| split; [| split]]]]]].
  - intros this fuel traceMap s key nextTraceMap v Hget Hv.
    apply undeclared_Some in Hv. unfold globalVariable.
    now rewrite Hget, Hv.
  - intros this fuel traceMap s name v Hv.
    apply undeclared_Some in Hv. unfold globalObject. now rewrite Hv.
  - intros this fuel traceMap s name Hname.
    apply undeclared_None in Hname. unfold globalVariable, globalObject.
    rewrite Hname. split; [| reflexivity].
    now destruct (get traceMap name).
  - intros this fuel traceMap s. apply iterateGlobalReferences_roots.
  - intros this traceMap root. unfold globalRoots. rewrite in_app_iff.
    rewrite !in_flat_map. split.
    + intros [(key & Hkey & Hin) | (name & Hname & Hin)].
      * left. exists key.
        destruct (get traceMap key) as [nextTraceMap |] eqn:Hg;
          [| destruct Hin].
        destruct (undeclared this key) as [v |] eqn:Hu; [| destruct Hin].
        destruct Hin as [<- | []]. simpl.
        apply undeclared_Some in Hu. auto 6.
      * right. exists name.
        destruct (undeclared this name) as [v |] eqn:Hu; [| destruct Hin].
        destruct Hin as [<- | []]. simpl.
        apply undeclared_Some in Hu. auto 6.
    + destruct root as [v path nextTraceMap shouldReport]. simpl.
      intros [(key & Hkey & Hv & -> & Hget & ->)
             | (name & Hname & Hv & -> & -> & ->)];
        apply undeclared_Some in Hv.
      * left. exists key. split; [exact Hkey |]. rewrite Hget, Hv. now left.
      * right. exists name. split; [exact Hname |]. rewrite Hv. now left.
  - intros this fuel traceMap s Hkeys Hnames.
    unfold iterateGlobalReferences, seq. rewrite for_of_skip.
    + simpl. apply for_of_skip. intros name s1 Hin. unfold globalObject.
      apply Hnames, undeclared_None in Hin. now rewrite Hin.
    + intros key s1 Hin. unfold globalVariable.
      apply Hkeys, undeclared_None in Hin. rewrite Hin.
      now destruct (get traceMap key).
  - intros fuel E. repeat split; by_shape_of E.
  - intros fuel E F.
    destruct E as [| | [|] | [| ? | ?] | [| ? ?] | ?]; by_shape_of F.
Qed.

(** [window.x;]: [window] is a variable of the global scope with no
    definition and a name of the global object, so it is propagated with
    the whole trace map; after [function window() {}] it is not. *)
Lemma C2_witness :
  globalObject (WindowMember.tracer false) 4
    (WindowMember.traceMap (JsBoolean true)) "window" [] =
  Yield (Report.mk 5 ["x"] READ (JsBoolean true)) [] (End (Normal tt) [])
  /\ iterateGlobalReferences (WindowMember.tracer true) 5
       (WindowMember.traceMap (JsBoolean true)) [] = End (Normal tt) [].
Proof.
  split.
  - rewrite (proj1 (proj2 C2_global_strategy) (WindowMember.tracer false) 4
               (WindowMember.traceMap (JsBoolean true)) [] "window"
               WindowMember.window).
    + reflexivity.
    + split; reflexivity.
  - apply (proj1 (proj2 (proj2 (proj2 (proj2 (proj2 C2_global_strategy)))))
             (WindowMember.tracer true) 5
             (WindowMember.traceMap (JsBoolean true)) []).
    + intros key [<- | []]. vm_compute. exact I.
    + intros name [<- | [<- | [<- | []]]]; vm_compute; try exact I.
      discriminate.
Defined.

(** ** CommonJS strategy *)

Lemma same_node_refl (node : NodeId) : same_node (Some node) node = true.
Proof. apply Nat.eqb_refl. Qed.

Lemma for_of_omap {A B : Type} (f : A -> option B) (l : list A)
    (body : B -> Gen) (s : Stack) :
  for_of (omap f l) body s =
  for_of l (fun x => match f x with Some y => body y | None => skip end) s.
Proof.
  revert s; induction l as [| x l IH]; intros s; simpl.
  - reflexivity.
  - destruct (f x) as [y |]; simpl.
    + unfold seq. apply then_ext. exact IH.
    + unfold seq. simpl. apply IH.
Qed.

Lemma cjsReference_requireCall (this : Tracer) (fuel : nat)
    (traceMap : TraceMap) (reference : Reference.t) (s : Stack) :
  (Reference.isRead reference = true ->
   Node.parent (nodeAt this (Reference.identifier reference)) <> None) ->
  cjsReference this fuel traceMap reference s =
  match requireCall this traceMap reference with
  | Some c => traceCall this fuel c
  | None => skip
  end s.
Proof.
  intros Hparent. unfold cjsReference, requireCall. cbv zeta.
  destruct (Reference.isRead reference); simpl.
  - destruct (Node.parent _) as [callNode |]; [| now destruct Hparent].
    destruct (Node.type (nodeAt this callNode) =? "CallExpression"); simpl;
      [| reflexivity].
    destruct (same_node _ _); simpl; [| reflexivity].
    destruct (getStringIfConstant this _) as [key |]; [| reflexivity].
    destruct (get traceMap key); reflexivity.
  - now destruct (Node.parent _).
Qed.

(** C3, with the [READ] at the call told by the payload: when [require]
    is absent from the global scope or has a declaring definition the
    CommonJS strategy completes with no match.  Otherwise it goes through
    the references of [require] in order.  A reference that is a read and
    the callee of a call expression whose first argument is a constant
    string that is an own key of the trace map yields a [READ] at the call
    with path [[key]] exactly when the child map holds a truthy [READ]
    payload, and then has the properties matched from the call with that
    path and the child map; every other reference is passed over.  So
    against [{ m: { [READ]: E, foo: { [READ]: F } } }] the program
    [require("m").foo;] yields the [READ] of [m] at the call when [E] is
    truthy, then the [READ] of [m.foo] at the member expression when [F]
    is truthy. *)
Theorem C3_cjs_strategy :
  (forall (this : Tracer) (fuel : nat) (traceMap : TraceMap) (s : Stack),
      shadowedOrAbsent this "require" ->
      iterateCjsReferences this fuel traceMap s = End (Normal tt) s)
  /\ (forall (this : Tracer) (fuel : nat) (traceMap : TraceMap) (s : Stack)
             v,
         undeclaredGlobal this "require" v ->
         iterateCjsReferences this fuel traceMap s =
         for_of (Var.references (varAt this v))
                (cjsReference this fuel traceMap) s)
  /\ (forall (this : Tracer) (fuel : nat) (traceMap : TraceMap) (s : Stack)
             reference callNode key nextTraceMap,
         Reference.isRead reference = true ->
         Node.parent (nodeAt this (Reference.identifier reference)) =
         Some callNode ->
         Node.type (nodeAt this callNode) = "CallExpression" ->
         Node.callee (nodeAt this callNode) =
         Some (Reference.identifier reference) ->
         getStringIfConstant this
           (head (Node.arguments (nodeAt this callNode))) = Some key ->
         get traceMap key = Some nextTraceMap ->
         cjsReference this fuel traceMap reference s =
         ((match read nextTraceMap with
           | Some payload =>
               if truthy payload
               then yield (Report.mk callNode [key] READ payload)
               else skip
           | None => skip
           end) ;;
          _iteratePropertyReferences this fuel callNode [key] nextTraceMap)
           s)
  /\ (forall (this : Tracer) (fuel : nat) (traceMap : TraceMap) (s : Stack)
             reference,
         Reference.isRead reference = false
         \/ (exists callNode,
                Node.parent (nodeAt this (Reference.identifier reference)) =
                Some callNode
                /\ (Node.type (nodeAt this callNode) <> "CallExpression"
                    \/ Node.callee (nodeAt this callNode) <>
                       Some (Reference.identifier reference)
                    \/ match getStringIfConstant this
                               (head (Node.arguments (nodeAt this callNode)))
                       with
                       | Some key => get traceMap key = None
                       | None => True
                       end)) ->
         cjsReference this fuel traceMap reference s = End (Normal tt) s)
  /\ (forall (this : Tracer) (fuel : nat) (traceMap : TraceMap) (s : Stack)
             v,
         undeclaredGlobal this "require" v ->
         (forall reference,
             In reference (Var.references (varAt this v)) ->
             Reference.isRead reference = true ->
             Node.parent (nodeAt this (Reference.identifier reference))
             <> None) ->
         iterateCjsReferences this fuel traceMap s =
         for_of (omap (requireCall this traceMap)
                      (Var.references (varAt this v)))
                (traceCall this fuel) s)
  /\ (forall fuel E F,
         iterateCjsReferences (RequireMember.tracer "strict") (4 + fuel)
           (object_of [("m", TM (Some E) None None false
                               [("foo", on READ F)])]) [] =
         for_of ((if truthy E then [Report.mk 3 ["m"] READ E] else [])
                 ++ (if truthy F then [Report.mk 2 ["m"; "foo"] READ F]
                     else []))
                yield []).
Proof.
  split; [| split; [| split; [| split; [| split]]]].
  - intros this fuel traceMap s H. unfold iterateCjsReferences.
    apply undeclared_None in H. now rewrite H.
  - intros this fuel traceMap s v Hv. unfold iterateCjsReferences.
    apply undeclared_Some in Hv. now rewrite Hv.
  - intros this fuel traceMap s reference callNode key nextTraceMap Hread
           Hparent Htype Hcallee Hkey Hget.
    unfold cjsReference. cbv zeta.
    rewrite Hread, Hparent, Htype, Hcallee, Hkey, Hget.
    rewrite String.eqb_refl, same_node_refl. reflexivity.
  - intros this fuel traceMap s reference
           [Hread | (callNode & Hparent & Hcall)];
      unfold cjsReference; cbv zeta.
    + now rewrite Hread.
    + destruct (negb (Reference.isRead reference)); [reflexivity |].
      rewrite Hparent.
      destruct (Node.type (nodeAt this callNode) =? "CallExpression")
        eqn:Htype; [| reflexivity].
      apply String.eqb_eq in Htype.
      destruct (same_node (Node.callee (nodeAt this callNode))
                          (Reference.identifier reference)) eqn:Hcallee;
        [| reflexivity].
      cbn [negb orb].
      destruct Hcall as [Hcall | [Hcall | Hcall]].
      * contradiction.
      * exfalso. apply Hcall. unfold same_node in Hcallee.
        destruct (Node.callee (nodeAt this callNode)) as [n |];
          [| discriminate].
        apply Nat.eqb_eq in Hcallee. now subst n.
      * destruct (getStringIfConstant this _) as [key |]; [| reflexivity].
        now rewrite Hcall.
  - intros this fuel traceMap s v Hv Hparent. unfold iterateCjsReferences.
    apply undeclared_Some in Hv. rewrite Hv.
    rewrite for_of_omap. apply for_of_ext. intros reference s1 Hin.
    apply cjsReference_requireCall. now apply Hparent.
  - intros fuel E F.
    destruct E as [| | [|] | [| ? | ?] | [| ? ?] | ?]; by_shape_of F.
Qed.

(** C3 as it stands does not hold of [require("m").foo;] against
    [{ m: { [READ]: 0 } }]: the child map of [m] carries a [READ] marker,
    and no [READ] is yielded at the call, the payload being falsy. *)
Lemma C3_falsy_marker_not_reported :
  (exists nextTraceMap,
      get (object_of [("m", on READ (JsNumber 0))]) "m" = Some nextTraceMap
      /\ marker nextTraceMap READ = Some (JsNumber 0))
  /\ iterateCjsReferences (RequireMember.tracer "strict") 4
       (object_of [("m", on READ (JsNumber 0))]) [] = End (Normal tt) [].
Proof.
  split.
  - eexists. split; reflexivity.
  - vm_compute. reflexivity.
Qed.

(** [require("m").foo;]: the one reference of [require] is such a call;
    [let x = x;] has no [require] at all. *)
Lemma C3_witness :
  cjsReference (RequireMember.tracer "strict") 3 (cjsFoo (JsBoolean true))
    (read_at 4) [] =
  Yield (Report.mk 2 ["m"; "foo"] READ (JsBoolean true)) []
        (End (Normal tt) [])
  /\ iterateCjsReferences LetSelf.tracer 3 (cjsFoo (JsBoolean true)) [] =
     End (Normal tt) [].
Proof.
  split.
  - rewrite (proj1 (proj2 (proj2 C3_cjs_strategy))
               (RequireMember.tracer "strict") 3 (cjsFoo (JsBoolean true)) []
               (read_at 4) 3 "m"
               (object_of [("foo", on READ (JsBoolean true))])
               eq_refl eq_refl eq_refl eq_refl eq_refl eq_refl).
    reflexivity.
  - apply (proj1 C3_cjs_strategy LetSelf.tracer 3
             (cjsFoo (JsBoolean true)) []).
    vm_compute. exact I.
Defined.

(** ** The guard against re-entrant propagation *)

Lemma _iterateVariableReferences_on_stack (this : Tracer) (fuel : nat)
    variable path traceMap shouldReport (s : Stack) :
  includes s variable = true ->
  _iterateVariableReferences this (S fuel) variable path traceMap
                             shouldReport s = End (Normal tt) s.
Proof. intros H. simpl. now rewrite H. Qed.

Lemma _iterateVariableReferences_pushed (this : Tracer) (fuel : nat)
    v path traceMap shouldReport (s : Stack) :
  includes s (Some v) = false ->
  _iterateVariableReferences this (S fuel) (Some v) path traceMap
                             shouldReport s =
  finally pop (traceReferences this fuel v path traceMap shouldReport
                               (push s (Some v))).
Proof. intros H. simpl. now rewrite H. Qed.

(** C4: on a variable that is already on the traversal stack,
    [_iterateVariableReferences] completes at once with no record and the
    stack untouched.  Otherwise its loop over the references runs on the
    stack with the variable pushed, and the [finally] pops it: whether the
    call completes, fails, or is closed by its consumer at any record, the
    stack is left as it was found.  With this guard the propagation of a
    variable of a finite program comes to an end, however the variables
    alias one another; for [let x = x;] the propagation of [x] completes
    normally with the one [READ] of the initializer. *)
Theorem C4_cycle_guard :
  (forall this fuel variable path traceMap shouldReport s,
      includes s variable = true ->
      _iterateVariableReferences this (S fuel) variable path traceMap
                                 shouldReport s = End (Normal tt) s)
  /\ (forall this fuel v path traceMap shouldReport s,
         includes s (Some v) = false ->
         _iterateVariableReferences this (S fuel) (Some v) path traceMap
                                    shouldReport s =
         finally pop (traceReferences this fuel v path traceMap shouldReport
                                      (push s (Some v))))
  /\ (forall this fuel variable path traceMap shouldReport s,
         leaves s (_iterateVariableReferences this fuel variable path
                                              traceMap shouldReport s))
  /\ (forall this depth height D H V fuel v path traceMap shouldReport s,
         Finite this depth height D H V ->
         In v V ->
         fuelVar D H (length V) <= fuel ->
         completion (_iterateVariableReferences this fuel (Some v) path
                       traceMap shouldReport s) <> OutOfFuel)
  /\ (forall fuel E,
         truthy E = true ->
         _iterateVariableReferences LetSelf.tracer (4 + fuel)
           (Some LetSelf.x) ["x"] (on READ E) true [] =
         Yield (Report.mk 4 ["x"] READ E) [] (End (Normal tt) [])).
Proof.
  split; [exact _iterateVariableReferences_on_stack |].
  split; [exact _iterateVariableReferences_pushed |].
  split; [| split].
  - intros this fuel variable path traceMap shouldReport.
    now apply traversal_balanced.
  - intros this depth height D H V fuel v path traceMap shouldReport s F Hin
           Hfuel.
    apply (var_settles this depth height D H V F (length V));
      [apply free_le | now intros v' [= <-] | exact Hfuel].
  - intros fuel E HE. by_cases_of E HE.
Qed.

(** [let x = x;]: the inner propagation of [x] finds [x] on the stack, and
    the propagation of [x] ends. *)
Lemma C4_witness :
  _iterateVariableReferences LetSelf.tracer 1 (Some LetSelf.x) ["x"]
    (on READ (JsBoolean true)) false [Some LetSelf.x] =
  End (Normal tt) [Some LetSelf.x]
  /\ completion
       (_iterateVariableReferences LetSelf.tracer (fuelVar 3 0 1)
          (Some LetSelf.x) ["x"] (on READ (JsBoolean true)) true []) <>
     OutOfFuel
  /\ _iterateVariableReferences LetSelf.tracer 4 (Some LetSelf.x) ["x"]
       (on READ (JsBoolean true)) true [] =
     Yield (Report.mk 4 ["x"] READ (JsBoolean true)) []
           (End (Normal tt) []).
Proof.
  split; [| split].
  - apply (proj1 C4_cycle_guard). reflexivity.
  - apply (proj1 (proj2 (proj2 (proj2 C4_cycle_guard)))
             LetSelf.tracer LetSelf.depth (fun _ => 0) 3 0 [LetSelf.x]).
    + exact LetSelf_finite.
    + simpl. auto.
    + simpl. lia.
  - apply (proj2 (proj2 (proj2 (proj2 C4_cycle_guard))) 0 (JsBoolean true)).
    reflexivity.
Defined.

(** ** CommonJS and ES modules in legacy mode *)

(** C5, for every payload: in legacy mode, for the trace map
    [{ m: { foo: { [READ]: E } } }] (no [ESM] marker),
    [require("m").foo] under the CommonJS strategy and
    [import {foo} from "m"; foo;] under the ES-module strategy each yield
    one record when [E] is truthy, a [READ] with path [["m"; "foo"]] and
    entry [E] (at the member expression and at the import specifier), and
    each yield nothing when [E] is falsy. *)
Theorem C5_legacy_equivalence (fuel : nat) (E : JsValue) :
  iterateCjsReferences (RequireMember.tracer "legacy") (3 + fuel)
                       (cjsFoo E) [] =
  (if truthy E
   then Yield (Report.mk 2 ["m"; "foo"] READ E) [] (End (Normal tt) [])
   else End (Normal tt) [])
  /\ iterateEsmReferences (ImportNamed.tracer "legacy") (3 + fuel)
                          (cjsFoo E) [] =
     (if truthy E
      then Yield (Report.mk 2 ["m"; "foo"] READ E) [] (End (Normal tt) [])
      else End (Normal tt) []).
Proof. split; by_shape_of E. Qed.

(** C5 as it stands does not hold of [E = 0]: neither strategy
    yields a record, although [m.foo] carries the [READ] marker. *)
Lemma C5_falsy_entry_not_reported :
  follow (cjsFoo (JsNumber 0)) ["m"; "foo"] = Some (on READ (JsNumber 0))
  /\ iterateCjsReferences (RequireMember.tracer "legacy") 3
       (cjsFoo (JsNumber 0)) [] = End (Normal tt) []
  /\ iterateEsmReferences (ImportNamed.tracer "legacy") 3
       (cjsFoo (JsNumber 0)) [] = End (Normal tt) [].
Proof. repeat split; vm_compute; reflexivity. Qed.

Lemma C5_witness :
  iterateCjsReferences (RequireMember.tracer "legacy") 3
                       (cjsFoo (JsString "E")) [] =
  Yield (Report.mk 2 ["m"; "foo"] READ (JsString "E")) []
        (End (Normal tt) [])
  /\ iterateEsmReferences (ImportNamed.tracer "legacy") 3
                          (cjsFoo (JsString "E")) [] =
     Yield (Report.mk 2 ["m"; "foo"] READ (JsString "E")) []
           (End (Normal tt) []).
Proof. exact (C5_legacy_equivalence 0 (JsString "E")). Defined.

(** ** Strict mode *)







(** ** Assignments *)

(** C7: when the node reached by the climb is the right-hand side of an
    assignment expression, property matching first unpacks the left-hand
    side with the current path and trace map, then goes on matching from
    the assignment expression itself with the same path and trace map.  So
    in [let x; (x = a).foo; x.bar;] the assigned [x] carries the trace of
    [a] to [x.bar], and [(x = a).foo] is matched as [a.foo] is. *)
Theorem C7_assignment_rhs :
  (forall (this : Tracer) (fuel : nat) rootNode node parent path traceMap s,
      climb this fuel rootNode = Normal (node, parent) ->
      Node.type (nodeAt this parent) = "AssignmentExpression" ->
      Node.right (nodeAt this parent) = Some node ->
      _iteratePropertyReferences this (S fuel) rootNode path traceMap s =
      (_iterateLhsReferences this fuel (Node.left (nodeAt this parent)) path
                             traceMap ;;
       _iteratePropertyReferences this fuel parent path traceMap) s)
  /\ (forall fuel E F,
         truthy E = true ->
         truthy F = true ->
         iterateGlobalReferences AssignChain.tracer (7 + fuel)
                                 (AssignChain.traceMap E F) [] =
         Yield (Report.mk 11 ["a"; "bar"] READ F) []
               (Yield (Report.mk 5 ["a"; "foo"] READ E) []
                      (End (Normal tt) []))).
Proof.
  split.
  - intros this fuel rootNode node parent path traceMap s Hclimb Htype Hright.
    simpl. rewrite Hclimb. cbv zeta. rewrite Htype, Hright, same_node_refl.
    reflexivity.
  - intros fuel E F HE HF.
    destruct E as [| | [|] | [| ? | ?] | [| ? ?] | ?]; try discriminate HE;
      by_cases_of F HF.
Qed.

(** [let x; (x = a).foo; x.bar;]: the reference [a] is the right-hand side
    of the assignment. *)
Lemma C7_witness :
  _iteratePropertyReferences AssignChain.tracer 5 8 ["a"]
    (object_of [("foo", on READ (JsBoolean true))]) [] =
  (_iterateLhsReferences AssignChain.tracer 4 (Some 7) ["a"]
     (object_of [("foo", on READ (JsBoolean true))]) ;;
   _iteratePropertyReferences AssignChain.tracer 4 6 ["a"]
     (object_of [("foo", on READ (JsBoolean true))])) [].
Proof.
  apply (proj1 C7_assignment_rhs AssignChain.tracer 4 8 8 6); reflexivity.
Defined.

(** ** Object destructuring *)

Lemma _iterateLhsReferences_ObjectPattern (this : Tracer) (fuel : nat)
    patternNode path traceMap (s : Stack) :
  Node.type (nodeAt this patternNode) = "ObjectPattern" ->
  _iterateLhsReferences this (S fuel) (Some patternNode) path traceMap s =
  for_of (Node.properties (nodeAt this patternNode))
         (unpackProperty this fuel path traceMap) s.
Proof.
  intros Htype. simpl. rewrite Htype. reflexivity.
Qed.

Lemma unpackProperty_skipped (this : Tracer) (fuel : nat) path traceMap
    property (s : Stack) :
  match getPropertyName this property with
  | Some key => get traceMap key = None
  | None => True
  end ->
  unpackProperty this fuel path traceMap property s = End (Normal tt) s.
Proof.
  unfold unpackProperty. destruct (getPropertyName this property) as [key |].
  - now intros ->.
  - reflexivity.
Qed.

(** C8, with the records told by the payloads: on an object pattern the
    unpacker goes through the properties in order; a property whose key
    is unresolved or is not a key of the current trace map is skipped by
    itself, the properties before and after it being unpacked as if it
    were not there; a property whose key is in the trace map extends the
    path, yields a [READ] exactly when the child map holds a truthy
    [READ] payload, and has its value sub-pattern unpacked under the
    child map.  So [const {y} = window.x; y();] with
    [{ x: { y: { [CALL]: E } } }] yields one record, the [CALL] at [y()],
    when [E] is truthy, and none when [E] is falsy. *)
Theorem C8_object_destructuring :
  (forall (this : Tracer) (fuel : nat) patternNode path traceMap s,
      Node.type (nodeAt this patternNode) = "ObjectPattern" ->
      _iterateLhsReferences this (S fuel) (Some patternNode) path traceMap s =
      for_of (Node.properties (nodeAt this patternNode))
             (unpackProperty this fuel path traceMap) s)
  /\ (forall (this : Tracer) (fuel : nat) path traceMap before property
             after s,
         match getPropertyName this property with
         | Some key => get traceMap key = None
         | None => True
         end ->
         for_of (before ++ property :: after)
                (unpackProperty this fuel path traceMap) s =
         for_of (before ++ after) (unpackProperty this fuel path traceMap) s)
  /\ (forall (this : Tracer) (fuel : nat) path traceMap property key
             nextTraceMap s,
         getPropertyName this property = Some key ->
         get traceMap key = Some nextTraceMap ->
         unpackProperty this fuel path traceMap property s =
         ((match read nextTraceMap with
           | Some payload =>
               if truthy payload
               then yield (Report.mk property (path ++ [key]) READ payload)
               else skip
           | None => skip
           end) ;;
          _iterateLhsReferences this fuel (Node.value (nodeAt this property))
                                (path ++ [key]) nextTraceMap) s)
  /\ (forall fuel E,
         iterateGlobalReferences Destructure.tracer (8 + fuel)
                                 (Destructure.traceMap E) [] =
         (if truthy E
          then Yield (Report.mk 11 ["x"; "y"] CALL E) [] (End (Normal tt) [])
          else End (Normal tt) [])).
Proof.
  split; [exact _iterateLhsReferences_ObjectPattern |].
  split; [| split].
  - intros this fuel path traceMap before property after s Hskip.
    rewrite !for_of_app. unfold seq. apply then_ext. intros s1. simpl.
    unfold seq. now rewrite unpackProperty_skipped.
  - intros this fuel path traceMap property key nextTraceMap s Hname Hget.
    unfold unpackProperty. now rewrite Hname, Hget.
  - intros fuel E. by_shape_of E.
Qed.

(** C8 as it stands does not hold of [E = 0]:
    [const {y} = window.x; y();] with [{ x: { y: { [CALL]: 0 } } }] yields
    no record, although [x.y] carries the [CALL] marker. *)
Lemma C8_falsy_call_not_reported :
  follow (Destructure.traceMap (JsNumber 0)) ["x"; "y"] =
  Some (on CALL (JsNumber 0))
  /\ iterateGlobalReferences Destructure.tracer 8
       (Destructure.traceMap (JsNumber 0)) [] = End (Normal tt) [].
Proof. split; vm_compute; reflexivity. Qed.

(** [const {y} = window.x; y();]: the pattern [{y}] under the map of [x]. *)
Lemma C8_witness :
  _iterateLhsReferences Destructure.tracer 6 (Some 3) ["x"]
    (object_of [("y", on CALL (JsBoolean true))]) [] =
  for_of [4] (unpackProperty Destructure.tracer 5 ["x"]
                (object_of [("y", on CALL (JsBoolean true))])) []
  /\ unpackProperty Destructure.tracer 5 ["x"]
       (object_of [("y", on CALL (JsBoolean true))]) 4 [] =
     Yield (Report.mk 11 ["x"; "y"] CALL (JsBoolean true)) []
           (End (Normal tt) []).
Proof.
  split.
  - apply (proj1 C8_object_destructuring Destructure.tracer 5 3); reflexivity.
  - rewrite (proj1 (proj2 (proj2 C8_object_destructuring)) Destructure.tracer
               5 ["x"] (object_of [("y", on CALL (JsBoolean true))]) 4 "y"
               (on CALL (JsBoolean true)) [] eq_refl eq_refl).
    reflexivity.
Defined.

(** ** An identifier without a variable *)






(** ** The [default] segment of a path *)

Lemma dropSecondDefault_default (moduleId : string) (rest : list string) :
  dropSecondDefault (moduleId :: "default" :: rest) = moduleId :: rest.
Proof. reflexivity. Qed.

Lemma dropSecondDefault_other (moduleId second : string) (rest : list string) :
  second <> "default" ->
  dropSecondDefault (moduleId :: second :: rest) = moduleId :: second :: rest.
Proof.
  intros Hne. unfold dropSecondDefault.
  destruct (second =? "default") eqn:Hs; [| reflexivity].
  apply String.eqb_eq in Hs. contradiction.
Qed.

(** C10 does not hold of [export * from "m";] with
    [{ m: { default: { [READ]: true } } }]: the module's map has no [ESM]
    marker, and the record of the star re-export keeps [default] right
    after the module specifier. *)
Lemma C10_export_all_keeps_default :
  (exists nextTraceMap,
      get (ExportAll.traceMap (JsBoolean true)) "m" = Some nextTraceMap
      /\ esm nextTraceMap = false)
  /\ iterateEsmReferences (ExportAll.tracer "strict") 0
                          (ExportAll.traceMap (JsBoolean true)) [] =
     Yield (Report.mk 1 ["m"; "default"] READ (JsBoolean true)) []
           (End (Normal tt) [])
  /\ dropSecondDefault ["m"; "default"] <> ["m"; "default"].
Proof.
  split; [| split].
  - eexists. split; reflexivity.
  - reflexivity.
  - discriminate.
Qed.

(** C10, for the records of specifiers: for a module whose trace map has
    no [ESM] marker, the records yielded for an import or export specifier
    are those of
    [_iterateImportReferences] on the wrapped map, in order, each with the
    same node, type and entry and with its path rewritten: a [default] in
    second position, right after the module specifier, is dropped, and
    every other segment is kept, a [default] further down included
    (records left with a [READ] on a path shorter than two are dropped).
    So in strict mode [import x from "m"; x.foo] reports [["m"; "foo"]]
    and [import x from "m"; x.foo.default] reports
    [["m"; "foo"; "default"]]. *)
Theorem C10_specifier_paths_drop_default :
  (forall (this : Tracer) (fuel : nat) path nextTraceMap specifier s,
      esm nextTraceMap = false ->
      yields (esmSpecifier this fuel path nextTraceMap specifier s) =
      omap withoutDefault
           (yields (_iterateImportReferences this fuel specifier path
                      (if mode this =? "legacy"
                       then assignDefault nextTraceMap
                       else wrapDefault nextTraceMap) s)))
  /\ (forall r r',
         withoutDefault r = Some r' ->
         Report.node r' = Report.node r
         /\ Report.type r' = Report.type r
         /\ Report.entry r' = Report.entry r
         /\ Report.path r' = dropSecondDefault (Report.path r))
  /\ (forall moduleId rest,
         dropSecondDefault (moduleId :: "default" :: rest) = moduleId :: rest)
  /\ (forall moduleId second rest,
         second <> "default" ->
         dropSecondDefault (moduleId :: second :: rest) =
         moduleId :: second :: rest)
  /\ (forall fuel E,
         truthy E = true ->
         iterateEsmReferences (ImportDefaultMember.tracer "strict")
                              (4 + fuel) (cjsFoo E) [] =
         Yield (Report.mk 5 ["m"; "foo"] READ E) [] (End (Normal tt) [])
         /\ iterateEsmReferences (ImportDefaultDeep.tracer "strict")
                                 (5 + fuel) (ImportDefaultDeep.traceMap E) [] =
            Yield (Report.mk 5 ["m"; "foo"; "default"] READ E) []
                  (End (Normal tt) [])).
Proof.
  split; [| split; [| split; [| split]]].
  - intros this fuel path nextTraceMap specifier s He.
    rewrite esmSpecifier_cjs by exact He. apply yields_for_of_it.
  - intros r r' Hr. apply withoutDefault_Some in Hr. tauto.
  - exact dropSecondDefault_default.
  - exact dropSecondDefault_other.
  - intros fuel E HE. split; by_cases_of E HE.
Qed.

(** [import x from "m"; x.foo;] in strict mode. *)
Lemma C10_witness :
  yields (esmSpecifier (ImportDefaultMember.tracer "strict") 4 ["m"]
            (object_of [("foo", on READ (JsBoolean true))]) 2 []) =
  omap withoutDefault
       [Report.mk 5 ["m"; "default"; "foo"] READ (JsBoolean true)]
  /\ dropSecondDefault ["m"; "foo"; "default"] = ["m"; "foo"; "default"].
Proof.
  split.
  - apply (proj1 C10_specifier_paths_drop_default
             (ImportDefaultMember.tracer "strict") 4 ["m"]
             (object_of [("foo", on READ (JsBoolean true))]) 2 []).
    reflexivity.
  - apply (proj1 (proj2 (proj2 (proj2 C10_specifier_paths_drop_default)))).
    discriminate.
Defined.

(** ** The path and the entry of a record *)

Lemma cjsReference_extends (this : Tracer) (root : TraceMap) (fuel : nat)
    (reference : Reference.t) :
  emits (fun r =>
           exists callNode key,
             Node.parent (nodeAt this (Reference.identifier reference)) =
             Some callNode
             /\ getStringIfConstant this
                  (head (Node.arguments (nodeAt this callNode))) = Some key
             /\ has root key = true
             /\ extends [key] r)
        (cjsReference this fuel root reference).
Proof.
  unfold cjsReference. cbv zeta.
  destruct (negb _); [apply emits_skip |].
  destruct (Node.parent _) as [callNode |] eqn:Hparent; [| apply emits_throw].
  destruct (_ || _); [apply emits_skip |].
  destruct (getStringIfConstant this _) as [key |] eqn:Hkey;
    [| apply emits_skip].
  destruct (get root key) as [nextTraceMap |] eqn:Hg; [| apply emits_skip].
  assert (Hf : follow root [key] = Some nextTraceMap)
    by (simpl; now rewrite Hg).
  apply emits_weaken with (R := consistent root [key]).
  { intros r [_ Hr]. exists callNode, key. unfold has. rewrite Hg. auto. }
  emit. now apply traversal_consistent.
Qed.

Lemma esmSpecifier_extends (this : Tracer) (fuel : nat) moduleId nextTraceMap
    specifier :
  emits (extends [moduleId])
        (esmSpecifier this fuel [moduleId] nextTraceMap specifier).
Proof.
  destruct (esm nextTraceMap) eqn:He; intros s.
  - rewrite esmSpecifier_esm by exact He.
    eapply Forall_impl;
      [apply (import_consistent this (object_of [(moduleId, nextTraceMap)]));
       apply follow_singleton |].
    now intros r [_ Hr].
  - rewrite esmSpecifier_cjs by exact He. rewrite yields_for_of_it.
    eapply Forall_omap;
      [| apply (import_consistent this
                  (object_of [(moduleId,
                               if mode this =? "legacy"
                               then assignDefault nextTraceMap
                               else wrapDefault nextTraceMap)]));
         apply follow_singleton].
    intros r r' [_ [rest Hrest]] Hr'.
    apply withoutDefault_Some in Hr' as (_ & Hpath & _).
    unfold extends. rewrite Hpath, Hrest. simpl.
    destruct rest as [| second rest]; [now exists [] |].
    destruct (second =? "default"); eauto.
Qed.

Lemma esmDeclaration_extends (this : Tracer) (fuel : nat) (root : TraceMap)
    (node : NodeId) (moduleId : string) :
  Node.source (nodeAt this node) = Some moduleId ->
  emits (extends [moduleId]) (esmDeclaration this fuel root node).
Proof.
  intros Hsource. unfold esmDeclaration. cbv zeta. rewrite Hsource.
  destruct (negb _); [apply emits_skip |].
  destruct (get root moduleId) as [nextTraceMap |]; [| apply emits_skip].
  apply emits_seq.
  - apply emits_if_marker. intros payload _ _. apply emits_yield.
    now exists [].
  - destruct (_ =? _).
    + apply emits_for_of. intros key _. unfold esmExportAll.
      destruct (get nextTraceMap key); [| apply emits_skip].
      apply emits_if_marker. intros payload _ _. apply emits_yield.
      now exists [key].
    + apply emits_for_of. intros specifier _. apply esmSpecifier_extends.
Qed.

(** C1, with the corner of the ES-module strategy left out.  The path of
    every record extends the path its branch was entered with: [[key]] for
    a top-level key of the global strategy, [[key]] for the constant
    string [key], an own key of the trace map, that is the first argument
    of the [require] call of the reference, and [[moduleId]] for an import
    or export declaration of [moduleId].  Under the global and the
    CommonJS strategies the path of every record leads, in the caller's
    trace map, to a node whose marker of the record's type holds the
    record's entry; so it does under the ES-module strategy when, in
    legacy mode, no module without the [ESM] marker has an own key
    [default]. *)
Theorem C1_reports_follow_the_trace_map (this : Tracer) (fuel : nat)
    (traceMap : TraceMap) :
  emits (payload_at traceMap) (iterateGlobalReferences this fuel traceMap)
  /\ emits (payload_at traceMap) (iterateCjsReferences this fuel traceMap)
  /\ ((mode this = "legacy" ->
       forall moduleId nextTraceMap,
         get traceMap moduleId = Some nextTraceMap ->
         esm nextTraceMap = false ->
         get nextTraceMap "default" = None) ->
      emits (payload_at traceMap) (iterateEsmReferences this fuel traceMap))
  /\ (forall key,
        emits (extends [key]) (globalVariable this fuel traceMap key))
  /\ (forall reference,
        emits (fun r =>
                 exists callNode key,
                   Node.parent
                     (nodeAt this (Reference.identifier reference)) =
                   Some callNode
                   /\ getStringIfConstant this
                        (head (Node.arguments (nodeAt this callNode))) =
                      Some key
                   /\ has traceMap key = true
                   /\ extends [key] r)
              (cjsReference this fuel traceMap reference))
  /\ (forall node moduleId,
        Node.source (nodeAt this node) = Some moduleId ->
        emits (extends [moduleId]) (esmDeclaration this fuel traceMap node)).
Proof.
  split; [| split; [| split; [| split; [| split]]]].
  - apply emits_seq; apply emits_for_of; intros key _.
    + eapply emits_weaken; [| apply globalVariable_consistent].
      now intros r [H _].
    + eapply emits_weaken; [| apply globalObject_consistent].
      now intros r [H _].
  - unfold iterateCjsReferences.
    destruct (undeclared this "require"); [| apply emits_skip].
    apply emits_for_of. intros reference _.
    eapply emits_weaken; [| apply cjsReference_consistent].
    now intros r (key & H & _).
  - intros Hown. apply emits_for_of. intros node _.
    eapply emits_weaken; [| apply esmDeclaration_consistent; exact Hown].
    now intros r [H _].
  - intros key. eapply emits_weaken; [| apply globalVariable_consistent].
    now intros r [_ H].
  - intros reference. apply cjsReference_extends.
  - intros node moduleId Hsource. now apply esmDeclaration_extends.
Qed.

(** C1 as it stands does not hold of the ES-module strategy on
    [import x from "m"; x.foo;] in legacy mode against
    [{ m: { default: { foo: { [READ]: "e1" } }, foo: { [READ]: "e2" } } }],
    a module without the [ESM] marker that has a [default] of its own.  The
    record has path [["m"; "foo"]] and entry ["e1"], the payload at
    [m.default.foo]; the node its path leads to in the caller's trace map
    is [m.foo], whose payload is ["e2"]. *)
Lemma C1_own_default_entry_off_path :
  iterateEsmReferences (ImportDefaultMember.tracer "legacy") 4
    (ImportDefaultMember.ownDefault (JsString "e1") (JsString "e2")) [] =
  Yield (Report.mk 5 ["m"; "foo"] READ (JsString "e1")) []
        (End (Normal tt) [])
  /\ follow (ImportDefaultMember.ownDefault (JsString "e1") (JsString "e2"))
            ["m"; "foo"] = Some (on READ (JsString "e2"))
  /\ ~ emits (payload_at (ImportDefaultMember.ownDefault
                            (JsString "e1") (JsString "e2")))
        (iterateEsmReferences (ImportDefaultMember.tracer "legacy") 4
           (ImportDefaultMember.ownDefault (JsString "e1") (JsString "e2"))).
Proof.
  split; [| split]; try (vm_compute; reflexivity).
  intros H. specialize (H []). vm_compute in H.
  apply Forall_cons_1 in H as [(terminal & Hf & Hm) _].
  vm_compute in Hf. injection Hf as <-. discriminate Hm.
Qed.

(** [import x from "m"; x.foo;] in legacy mode against
    [{ m: { foo: { [READ]: true } } }], where the module has no [default]
    of its own. *)
Lemma C1_witness :
  Forall (payload_at (cjsFoo (JsBoolean true)))
         (yields (iterateEsmReferences (ImportDefaultMember.tracer "legacy") 4
                    (cjsFoo (JsBoolean true)) [])).
Proof.
  apply (proj1 (proj2 (proj2 (C1_reports_follow_the_trace_map
                               (ImportDefaultMember.tracer "legacy") 4
                               (cjsFoo (JsBoolean true)))))).
  intros _ moduleId nextTraceMap Hget _.
  unfold get in Hget. simpl in Hget.
  destruct ("m" =? moduleId); [| discriminate Hget].
  injection Hget as <-. reflexivity.
Defined.

(** * Further properties of the code *)

(** ** What every record of a traversal is *)

Lemma traced_from_weaken (this : Tracer) path traceMap reported r :
  traced_from this path traceMap false r ->
  traced_from this path traceMap reported r.
Proof.
  intros (Ht & (rest & terminal & Hp & Hf & Hm & Hr) & Hc & Hn & He).
  repeat split; auto. exists rest, terminal. repeat split; auto.
Qed.

Lemma traced_from_child (this : Tracer) path traceMap key nextTraceMap
    reported r :
  get traceMap key = Some nextTraceMap ->
  traced_from this (path ++ [key]) nextTraceMap reported r ->
  traced_from this path traceMap false r.
Proof.
  intros Hg (Ht & (rest & terminal & Hp & Hf & Hm & Hr) & Hc & Hn & He).
  repeat split; auto. exists (key :: rest), terminal.
  split; [| split; [| split]].
  - now rewrite Hp, <- app_assoc.
  - simpl. now rewrite Hg.
  - exact Hm.
  - discriminate.
Qed.

Lemma traced_from_here (this : Tracer) path traceMap symbol payload node :
  marker traceMap symbol = Some payload ->
  truthy payload = true ->
  symbol <> ESM ->
  (symbol = CALL -> Node.type (nodeAt this node) = "CallExpression") ->
  (symbol = CONSTRUCT -> Node.type (nodeAt this node) = "NewExpression") ->
  forall reported,
    (symbol = READ -> reported = true) ->
    traced_from this path traceMap reported
                (Report.mk node path symbol payload).
Proof.
  intros Hm Ht He Hc Hn reported Hr. repeat split; auto.
  exists [], traceMap. split; [| split; [| split]].
  - simpl. now rewrite app_nil_r.
  - reflexivity.
  - exact Hm.
  - intros Hs Hrep. specialize (Hr Hs). simpl in Hs. congruence.
Qed.

Lemma emits_read_child (this : Tracer) path traceMap key nextTraceMap node :
  get traceMap key = Some nextTraceMap ->
  emits (traced_from this path traceMap false)
        (if_marker nextTraceMap READ (fun payload =>
           yield (Report.mk node (path ++ [key]) READ payload))).
Proof.
  intros Hg. apply emits_if_marker. intros payload Hm Ht.
  apply emits_yield. eapply traced_from_child; [exact Hg |].
  apply traced_from_here with (reported := true); auto; discriminate.
Qed.

Lemma emits_traced_child (this : Tracer) path traceMap key nextTraceMap
    reported (g : Gen) :
  get traceMap key = Some nextTraceMap ->
  emits (traced_from this (path ++ [key]) nextTraceMap reported) g ->
  emits (traced_from this path traceMap false) g.
Proof.
  intros Hg. apply emits_weaken. intros r. now apply traced_from_child.
Qed.

Lemma traversal_traced (this : Tracer) (fuel : nat) :
  (forall variable path traceMap shouldReport,
     emits (traced_from this path traceMap shouldReport)
           (_iterateVariableReferences this fuel variable path traceMap
                                       shouldReport))
  /\ (forall rootNode path traceMap,
        emits (traced_from this path traceMap false)
              (_iteratePropertyReferences this fuel rootNode path traceMap))
  /\ (forall patternNode path traceMap,
        emits (traced_from this path traceMap false)
              (_iterateLhsReferences this fuel patternNode path traceMap)).
Proof.
  induction fuel as [| fuel (IHv & IHp & IHl)].
  - repeat split; intros; apply emits_out_of_fuel.
  - repeat split.
    + intros variable path traceMap shouldReport s. simpl.
      destruct (includes s variable); [constructor |].
      rewrite yields_finally. generalize (push s variable) as s1.
      destruct variable as [v |]; [| apply emits_throw].
      apply emits_for_of. intros reference _.
      destruct (negb _); [apply emits_skip |].
      apply emits_seq.
      * destruct shouldReport; [| apply emits_skip].
        apply emits_if_marker. intros payload Hm Ht. apply emits_yield.
        apply traced_from_here; auto; discriminate.
      * eapply emits_weaken; [| apply IHp].
        intros r. apply traced_from_weaken.
    + intros rootNode path traceMap. simpl.
      destruct (climb this fuel rootNode) as [[node parent] | e |];
        [| apply emits_throw | apply emits_out_of_fuel].
      cbv zeta.
      destruct (Node.type (nodeAt this parent) =? "MemberExpression").
      { destruct (same_node _ _); [| apply emits_skip].
        destruct (getPropertyName this parent) as [key |];
          [| apply emits_skip].
        destruct (get traceMap key) as [nextTraceMap |] eqn:Hg;
          [| apply emits_skip].
        apply emits_seq; [now apply emits_read_child |].
        eapply emits_traced_child; [exact Hg | apply IHp]. }
      destruct (Node.type (nodeAt this parent) =? "CallExpression") eqn:Hc.
      { apply String.eqb_eq in Hc.
        destruct (same_node _ _); [| apply emits_skip].
        apply emits_if_marker. intros payload Hm Ht. apply emits_yield.
        apply traced_from_here; auto; discriminate. }
      destruct (Node.type (nodeAt this parent) =? "NewExpression") eqn:Hn.
      { apply String.eqb_eq in Hn.
        destruct (same_node _ _); [| apply emits_skip].
        apply emits_if_marker. intros payload Hm Ht. apply emits_yield.
        apply traced_from_here; auto; discriminate. }
      emit.
    + intros patternNode path traceMap. simpl.
      destruct patternNode as [patternNode |]; [| apply emits_throw].
      cbv zeta.
      destruct (Node.type (nodeAt this patternNode) =? "Identifier").
      { destruct (_findVariable this patternNode); emit. }
      destruct (Node.type (nodeAt this patternNode) =? "ObjectPattern");
        [| emit].
      apply emits_for_of. intros property _.
      destruct (getPropertyName this property) as [key |];
        [| apply emits_skip].
      destruct (get traceMap key) as [nextTraceMap |] eqn:Hg;
        [| apply emits_skip].
      apply emits_seq; [now apply emits_read_child |].
      eapply emits_traced_child; [exact Hg | apply IHl].
Qed.

Lemma import_traced (this : Tracer) (fuel : nat) specifierNode path traceMap :
  emits (traced_from this path traceMap false)
        (_iterateImportReferences this fuel specifierNode path traceMap).
Proof.
  destruct (traversal_traced this fuel) as (Hv & _ & _).
  unfold _iterateImportReferences. cbv zeta.
  destruct (_ || _).
  - destruct (if _ =? _ then _ else _) as [key | e |]; emit.
    destruct (get traceMap key) as [nextTraceMap |] eqn:Hg;
      [| apply emits_skip].
    apply emits_seq; [now apply emits_read_child |].
    destruct (local_variable this specifierNode); emit.
    eapply emits_traced_child; [exact Hg | apply Hv].
  - emit.
    + destruct (local_variable this specifierNode); emit.
    + destruct (name_of this _) as [key | e |]; emit.
      destruct (get traceMap key) as [nextTraceMap |] eqn:Hg;
        [| apply emits_skip].
      now apply emits_read_child.
Qed.

Lemma follow_app root path traceMap rest :
  follow root path = Some traceMap ->
  follow root (path ++ rest) = follow traceMap rest.
Proof.
  revert root. induction path as [| k path IH]; intros root Hf; simpl in *.
  - now injection Hf as <-.
  - destruct (get root k); [now apply IH | discriminate].
Qed.

Lemma traced_at_its_kind (this : Tracer) path traceMap reported r :
  traced_from this path traceMap reported r -> at_its_kind this r.
Proof.
  intros (_ & _ & Hc & Hn & He). unfold at_its_kind.
  destruct (Report.type r); auto.
Qed.

Lemma traced_entry (this : Tracer) (root : TraceMap) path traceMap reported r :
  follow root path = Some traceMap ->
  (reported = true -> path <> []) ->
  traced_from this path traceMap reported r ->
  from_marker root r /\ at_its_kind this r
  /\ (Report.type r = READ -> Report.path r <> []).
Proof.
  intros Hf Hp Hr. split; [| split].
  - destruct Hr as (Ht & (rest & terminal & Hpath & Hfr & Hm & _) & _).
    split; [exact Ht |]. exists (path ++ rest), terminal.
    split; [| exact Hm]. now rewrite (follow_app _ _ _ _ Hf).
  - eapply traced_at_its_kind, Hr.
  - destruct Hr as (_ & (rest & terminal & Hpath & _ & _ & Hrest) & _).
    intros Hread. rewrite Hpath. destruct reported.
    + specialize (Hp eq_refl). now destruct path.
    + specialize (Hrest Hread eq_refl). destruct path; [exact Hrest |].
      discriminate.
Qed.

(** A node of the map an import specifier is matched against is a node of
    the module's own map, with the same payloads. *)
Lemma wrapper_reach (legacy : bool) nextTraceMap rest terminal symbol payload :
  follow (if legacy then assignDefault nextTraceMap
          else wrapDefault nextTraceMap) rest = Some terminal ->
  marker terminal symbol = Some payload ->
  exists path terminal',
    follow nextTraceMap path = Some terminal'
    /\ marker terminal' symbol = Some payload.
Proof.
  intros Hf Hm. destruct rest as [| key rest]; simpl in Hf.
  - injection Hf as <-. exists [], nextTraceMap. split; [reflexivity |].
    destruct legacy.
    + now rewrite marker_assignDefault in Hm.
    + now rewrite marker_wrapDefault in Hm.
  - destruct legacy.
    + rewrite get_assignDefault in Hf.
      destruct ("default" =? key) eqn:Hk.
      * apply String.eqb_eq in Hk. subst key.
        destruct (get nextTraceMap "default") as [own |] eqn:Hown.
        -- exists ("default" :: rest), terminal. simpl. now rewrite Hown.
        -- exists rest, terminal. auto.
      * exists (key :: rest), terminal. simpl. auto.
    + rewrite get_wrapDefault in Hf.
      destruct ("default" =? key); [| discriminate].
      exists rest, terminal. auto.
Qed.

Lemma esmSpecifier_well (this : Tracer) (root : TraceMap) (fuel : nat)
    moduleId nextTraceMap specifier :
  get root moduleId = Some nextTraceMap ->
  emits (fun r => from_marker root r /\ at_its_kind this r
                  /\ (Report.type r = READ -> 2 <= length (Report.path r)))
        (esmSpecifier this fuel [moduleId] nextTraceMap specifier).
Proof.
  intros Hroot. destruct (esm nextTraceMap) eqn:He; intros s.
  - rewrite esmSpecifier_esm by exact He.
    eapply Forall_impl; [apply import_traced |]. intros r Hr. simpl in Hr.
    destruct (traced_entry this root [moduleId] nextTraceMap false r)
      as (Hm & Hk & _); [simpl; now rewrite Hroot | discriminate | exact Hr |].
    split; [exact Hm |]. split; [exact Hk |].
    destruct Hr as (_ & (rest & terminal & Hpath & _ & _ & Hrest) & _).
    intros Hread. rewrite Hpath. specialize (Hrest Hread eq_refl).
    destruct rest; [now destruct Hrest | simpl; lia].
  - rewrite esmSpecifier_cjs by exact He. rewrite yields_for_of_it.
    eapply Forall_omap; [| apply import_traced].
    intros r r' Hr Hw. simpl in Hr.
    apply withoutDefault_Some in Hw as (Hnode & Hpath' & Htype & Hentry & Hkeep).
    destruct Hr as (Ht & (rest & terminal & Hpath & Hf & Hm & _) & Hc & Hn
                    & Hesm).
    split; [| split].
    + unfold from_marker. rewrite Hentry, Htype. split; [exact Ht |].
      destruct (wrapper_reach (mode this =? "legacy") nextTraceMap rest
                  terminal (Report.type r) (Report.entry r) Hf Hm)
        as (path' & terminal' & Hf' & Hm').
      exists (moduleId :: path'), terminal'. simpl. now rewrite Hroot.
    + unfold at_its_kind. rewrite Htype, Hnode.
      destruct (Report.type r); auto.
    + intros Hread. destruct Hkeep as [Hlen | Hno]; [exact Hlen |].
      contradiction.
Qed.

Lemma entries_well (this : Tracer) (fuel : nat) (traceMap : TraceMap) :
  emits (fun r => from_marker traceMap r /\ at_its_kind this r
                  /\ (Report.type r = READ -> Report.path r <> []))
        (iterateGlobalReferences this fuel traceMap)
  /\ emits (fun r => from_marker traceMap r /\ at_its_kind this r
                     /\ (Report.type r = READ -> Report.path r <> []))
           (iterateCjsReferences this fuel traceMap)
  /\ emits (fun r => from_marker traceMap r /\ at_its_kind this r
                     /\ (Report.type r = READ -> Report.path r <> []))
           (iterateEsmReferences this fuel traceMap).
Proof.
  destruct (traversal_traced this fuel) as (Hv & Hp & Hl).
  repeat split.
  - apply emits_seq; apply emits_for_of; intros key _.
    + unfold globalVariable.
      destruct (get traceMap key) as [nextTraceMap |] eqn:Hg;
        [| apply emits_skip].
      cbv zeta. destruct (undeclared this key); [| apply emits_skip].
      eapply emits_weaken; [| apply Hv]. intros r.
      apply traced_entry; [simpl; now rewrite Hg | discriminate].
    + unfold globalObject. cbv zeta.
      destruct (undeclared this key); [| apply emits_skip].
      eapply emits_weaken; [| apply Hv]. intros r.
      apply traced_entry; [reflexivity | discriminate].
  - unfold iterateCjsReferences.
    destruct (undeclared this "require"); [| apply emits_skip].
    apply emits_for_of. intros reference _. unfold cjsReference. cbv zeta.
    destruct (negb _); [apply emits_skip |].
    destruct (Node.parent _) as [callNode |]; [| apply emits_throw].
    destruct (_ || _); [apply emits_skip |].
    destruct (getStringIfConstant this _) as [key |]; [| apply emits_skip].
    destruct (get traceMap key) as [nextTraceMap |] eqn:Hg;
      [| apply emits_skip].
    eapply emits_weaken with (R := traced_from this [key] nextTraceMap true).
    { intros r. apply traced_entry; [simpl; now rewrite Hg | discriminate]. }
    apply emits_seq.
    + apply emits_if_marker. intros payload Hm Ht. apply emits_yield.
      apply traced_from_here; auto; discriminate.
    + eapply emits_weaken; [| apply Hp]. intros r. apply traced_from_weaken.
  - apply emits_for_of. intros node _. unfold esmDeclaration. cbv zeta.
    destruct (negb _); [apply emits_skip |].
    destruct (Node.source (nodeAt this node)) as [moduleId |];
      [| apply emits_skip].
    destruct (get traceMap moduleId) as [nextTraceMap |] eqn:Hg;
      [| apply emits_skip].
    apply emits_seq.
    + eapply emits_weaken
        with (R := traced_from this [moduleId] nextTraceMap true).
      { intros r. apply traced_entry; [simpl; now rewrite Hg | discriminate]. }
      apply emits_if_marker. intros payload Hm Ht. apply emits_yield.
      apply traced_from_here; auto; discriminate.
    + destruct (_ =? _).
      * eapply emits_weaken
          with (R := traced_from this [moduleId] nextTraceMap false).
        { intros r. apply traced_entry; [simpl; now rewrite Hg | discriminate]. }
        apply emits_for_of. intros key _. unfold esmExportAll.
        destruct (get nextTraceMap key) as [exportTraceMap |] eqn:Hk;
          [| apply emits_skip].
        now apply emits_read_child.
      * apply emits_for_of. intros specifier _.
        eapply emits_weaken; [| apply esmSpecifier_well; exact Hg].
        intros r (Hm & Hk & Hlen). split; [exact Hm |]. split; [exact Hk |].
        intros Hread. specialize (Hlen Hread).
        destruct (Report.path r); [simpl in Hlen; lia | discriminate].
Qed.

(** ** The stack of variables *)

(** X1: when the generator of an entry strategy runs to its end, by a
    return or a throw, and when its consumer closes it at any record
    (with [return()], as leaving a [for]-[of] loop does, so that the
    pending [finally] blocks run), the stack of variables of the tracer
    is left as the strategy found it. *)
Theorem X1_stack_left_as_found (this : Tracer) (fuel : nat)
    (traceMap : TraceMap) (s : Stack) :
  leaves s (iterateGlobalReferences this fuel traceMap s)
  /\ leaves s (iterateCjsReferences this fuel traceMap s)
  /\ leaves s (iterateEsmReferences this fuel traceMap s).
Proof.
  destruct (entries_balanced this fuel traceMap) as (Bg & Bc & Be).
  split; [apply Bg |]. split; [apply Bc | apply Be].
Qed.

(** ** Termination *)

(** X2: on a finite program (parent links that lead to the root, patterns
    of bounded height, finitely many variables) every entry strategy comes
    to an end, by a return or a throw, from every stack; and with more
    fuel than the bound the run is the same. *)
Theorem X2_finite_programs_settle (this : Tracer) depth height D H V
    (F : Finite this depth height D H V) (fuel : nat) (traceMap : TraceMap)
    (s : Stack) :
  fuelProp D H (length V) D <= fuel ->
  (settled (iterateGlobalReferences this fuel traceMap s)
   /\ iterateGlobalReferences this fuel traceMap s =
      iterateGlobalReferences this (fuelProp D H (length V) D) traceMap s)
  /\ (settled (iterateCjsReferences this fuel traceMap s)
      /\ iterateCjsReferences this fuel traceMap s =
         iterateCjsReferences this (fuelProp D H (length V) D) traceMap s)
  /\ (settled (iterateEsmReferences this fuel traceMap s)
      /\ iterateEsmReferences this fuel traceMap s =
         iterateEsmReferences this (fuelProp D H (length V) D) traceMap s).
Proof.
  intros Hfuel.
  destruct (entries_settle this depth height D H V F fuel traceMap s Hfuel)
    as (Sg & Sc & Se).
  destruct (entries_settle this depth height D H V F
              (fuelProp D H (length V) D) traceMap s (le_n _))
    as (Sg0 & Sc0 & Se0).
  replace fuel with ((fuel - fuelProp D H (length V) D)
                     + fuelProp D H (length V) D) at 2 4 6 by lia.
  destruct (enough_fuel this (fuel - fuelProp D H (length V) D)
              (fuelProp D H (length V) D) traceMap) as (Ag & Ac & Ae).
  repeat split; auto.
Qed.

(** [const {y} = window.x; y();] is finite, and 100 is more fuel than its
    bound. *)
Lemma X2_witness :
  fuelProp 5 1 2 5 <= 100
  /\ settled (iterateGlobalReferences Destructure.tracer 100
                (Destructure.traceMap (JsBoolean true)) [])
  /\ iterateGlobalReferences Destructure.tracer 100
       (Destructure.traceMap (JsBoolean true)) [] =
     iterateGlobalReferences Destructure.tracer (fuelProp 5 1 2 5)
       (Destructure.traceMap (JsBoolean true)) [].
Proof.
  assert (Hfuel : fuelProp 5 1 2 5 <= 100) by (vm_compute; lia).
  split; [exact Hfuel |].
  exact (proj1 (X2_finite_programs_settle Destructure.tracer
                  Destructure.depth Destructure.height 5 1
                  [Destructure.window; Destructure.y] Destructure_finite 100
                  (Destructure.traceMap (JsBoolean true)) [] Hfuel)).
Defined.

(** ** The records of the entry strategies *)

(** X3: in every mode and for every program, the entry of every record of
    every entry strategy is truthy, and is the payload held under the
    record's type by some node of the trace map of the caller: a marker
    with a falsy payload is never reported, and no entry is made up. *)
Theorem X3_entries_are_truthy_markers (this : Tracer) (fuel : nat)
    (traceMap : TraceMap) :
  emits (from_marker traceMap) (iterateGlobalReferences this fuel traceMap)
  /\ emits (from_marker traceMap) (iterateCjsReferences this fuel traceMap)
  /\ emits (from_marker traceMap) (iterateEsmReferences this fuel traceMap).
Proof.
  destruct (entries_well this fuel traceMap) as (Hg & Hc & He).
  repeat split; (eapply emits_weaken; [| eassumption]); now intros r (Hr & _).
Qed.

(** X4: a trace map none of whose nodes holds a truthy [READ], [CALL] or
    [CONSTRUCT] payload (the empty map, say) gives no record, under every
    strategy and for every program. *)
Theorem X4_no_marker_no_record (this : Tracer) (fuel : nat)
    (traceMap : TraceMap) (s : Stack) :
  (forall path terminal symbol payload,
      follow traceMap path = Some terminal ->
      symbol <> ESM ->
      marker terminal symbol = Some payload ->
      truthy payload = false) ->
  yields (iterateGlobalReferences this fuel traceMap s) = []
  /\ yields (iterateCjsReferences this fuel traceMap s) = []
  /\ yields (iterateEsmReferences this fuel traceMap s) = [].
Proof.
  intros Hnone.
  assert (Hno : forall l : list Report.t,
             Forall (fun r => from_marker traceMap r /\ at_its_kind this r
                              /\ (Report.type r = READ ->
                                  Report.path r <> [])) l ->
             l = []).
  { intros [| r l] Hl; [reflexivity |]. exfalso.
    apply Forall_inv in Hl as ((Ht & path & terminal & Hf & Hm) & Hk & _).
    assert (Hsym : Report.type r <> ESM).
    { intros Hsym. unfold at_its_kind in Hk. now rewrite Hsym in Hk. }
    rewrite (Hnone path terminal (Report.type r) (Report.entry r) Hf Hsym Hm)
      in Ht.
    discriminate. }
  destruct (entries_well this fuel traceMap) as (Hg & Hc & He).
  split; [apply Hno, Hg |]. split; [apply Hno, Hc | apply Hno, He].
Qed.

(** [window.x] with a map whose only marker is falsy. *)
Lemma X4_witness :
  yields (iterateGlobalReferences Destructure.tracer 100
            (object_of [("x", on READ (JsBoolean false))]) []) = [].
Proof.
  apply (X4_no_marker_no_record Destructure.tracer 100
           (object_of [("x", on READ (JsBoolean false))]) []).
  intros path terminal symbol payload Hf Hsym Hm.
  destruct path as [| key path]; simpl in Hf.
  - injection Hf as <-. destruct symbol; discriminate.
  - unfold get in Hf. simpl in Hf. destruct ("x" =? key); [| discriminate].
    destruct path as [| key' path]; simpl in Hf.
    + injection Hf as <-. destruct symbol; try discriminate.
      now injection Hm as <-.
    + discriminate.
Defined.

(** X5: under every strategy a [CALL] record is at a call expression and
    a [CONSTRUCT] record at a [new] expression, and no record has the type
    [ESM]. *)
Theorem X5_calls_at_calls (this : Tracer) (fuel : nat) (traceMap : TraceMap) :
  emits (at_its_kind this) (iterateGlobalReferences this fuel traceMap)
  /\ emits (at_its_kind this) (iterateCjsReferences this fuel traceMap)
  /\ emits (at_its_kind this) (iterateEsmReferences this fuel traceMap).
Proof.
  destruct (entries_well this fuel traceMap) as (Hg & Hc & He).
  repeat split; (eapply emits_weaken; [| eassumption]);
    now intros r (_ & Hr & _).
Qed.

(** X6: no [READ] record has the empty path, so that a name of the global
    object alone ([window;]) is not reported; and a [READ] record of an
    import or export specifier has a path of two segments at least, so
    that the module alone is reported at its declaration only. *)
Theorem X6_reads_below_the_entry (this : Tracer) (fuel : nat)
    (traceMap : TraceMap) :
  emits (fun r => Report.type r = READ -> Report.path r <> [])
        (iterateGlobalReferences this fuel traceMap)
  /\ emits (fun r => Report.type r = READ -> Report.path r <> [])
           (iterateCjsReferences this fuel traceMap)
  /\ emits (fun r => Report.type r = READ -> Report.path r <> [])
           (iterateEsmReferences this fuel traceMap)
  /\ (forall moduleId nextTraceMap specifier,
         emits (fun r => Report.type r = READ -> 2 <= length (Report.path r))
               (esmSpecifier this fuel [moduleId] nextTraceMap specifier)).
Proof.
  destruct (entries_well this fuel traceMap) as (Hg & Hc & He).
  split; [| split; [| split]];
    try (eapply emits_weaken; [| eassumption]; now intros r (_ & _ & Hr)).
  intros moduleId nextTraceMap specifier.
  eapply emits_weaken;
    [| apply (esmSpecifier_well this
                (object_of [(moduleId, nextTraceMap)]) fuel moduleId
                nextTraceMap specifier)].
  - now intros r (_ & _ & Hr).
  - unfold get. simpl. now rewrite String.eqb_refl.
Qed.

(** ** Expressions that hand their operand on *)

(** X7: a parent whose type is none of the sentinel types (a unary,
    logical, conditional or sequence expression, a [Property], ...) is
    passed through: the property matching of a node below such a parent
    is the property matching of the parent, whichever child of the parent
    the node is. *)
Theorem X7_other_parents_are_passed_through (this : Tracer) (fuel : nat)
    (rootNode parent : NodeId) (path : list string) (traceMap : TraceMap) :
  Node.parent (nodeAt this rootNode) = Some parent ->
  SENTINEL_TYPE (Node.type (nodeAt this parent)) = false ->
  agrees (_iteratePropertyReferences this (S fuel) rootNode path traceMap)
         (_iteratePropertyReferences this fuel parent path traceMap).
Proof.
  intros Hparent Hsentinel s Hs.
  destruct fuel as [| fuel]; [now destruct Hs |].
  destruct (traversal_agrees this (S fuel)) as (_ & Hp & _).
  rewrite <- (Hp parent path traceMap s Hs).
  assert (Hc : climb this fuel parent <> OutOfFuel).
  { intros Hc. apply Hs. cbn [_iteratePropertyReferences]. now rewrite Hc. }
  cbn [_iteratePropertyReferences].
  rewrite (climb_more this fuel parent Hc).
  cbn [climb]. now rewrite Hparent, Hsentinel.
Qed.

(** [const b = !a; b.foo;]: what is known of [a] is taken to hold of [!a],
    and so of [b]. *)
Lemma X7_witness :
  _iteratePropertyReferences Negated.tracer 10 5 ["a"]
    (object_of [("foo", on READ (JsBoolean true))]) [Some Negated.a] =
  _iteratePropertyReferences Negated.tracer 9 4 ["a"]
    (object_of [("foo", on READ (JsBoolean true))]) [Some Negated.a]
  /\ yields (iterateGlobalReferences Negated.tracer 10
               (Negated.traceMap (JsBoolean true)) []) =
     [Report.mk 7 ["a"; "foo"] READ (JsBoolean true)].
Proof.
  split; [| vm_compute; reflexivity].
  apply (X7_other_parents_are_passed_through Negated.tracer 9 5 4 ["a"]
           (object_of [("foo", on READ (JsBoolean true))])).
  - reflexivity.
  - vm_compute. reflexivity.
  - vm_compute. discriminate.
Defined.

(** ** The mode *)

Lemma same_refl (g : Gen) : same g g.
Proof. now intros s. Qed.

Lemma same_seq (g1' g1 g2' g2 : Gen) :
  same g1' g1 -> same g2' g2 -> same (g1' ;; g2') (g1 ;; g2).
Proof. intros H1 H2 s. unfold seq. rewrite H1. now apply then_ext. Qed.

Lemma same_for_of {A : Type} (l : list A) (body' body : A -> Gen) :
  (forall x, same (body' x) (body x)) -> same (for_of l body') (for_of l body).
Proof. intros Hb s. apply for_of_ext. intros x s1 _. apply Hb. Qed.

Lemma same_if_marker traceMap symbol (body' body : JsValue -> Gen) :
  (forall payload, same (body' payload) (body payload)) ->
  same (if_marker traceMap symbol body') (if_marker traceMap symbol body).
Proof.
  intros Hb s. unfold if_marker.
  destruct (marker traceMap symbol) as [payload |]; [| reflexivity].
  destruct (truthy payload); [apply Hb | reflexivity].
Qed.

Ltac same_run :=
  repeat first
    [ apply same_refl
    | apply same_seq
    | apply same_for_of; intros ?
    | apply same_if_marker; intros ?
    | solve [auto]
    | match goal with
      | |- same (if ?c then _ else _) (if ?c then _ else _) => destruct c
      | |- same (match ?x with _ => _ end) (match ?x with _ => _ end) =>
          destruct x
      | |- same (let _ := _ in _) _ => cbv zeta
      end ].

Lemma climb_mode (this : Tracer) (mode : string) (fuel : nat) (node : NodeId) :
  climb (with_mode this mode) fuel node = climb this fuel node.
Proof.
  revert node. induction fuel as [| fuel IH]; intros node; simpl.
  - reflexivity.
  - destruct (Node.parent (nodeAt this node)) as [parent |]; [| reflexivity].
    destruct (SENTINEL_TYPE _); [reflexivity | apply IH].
Qed.

Lemma traversal_mode (this : Tracer) (mode : string) (fuel : nat) :
  (forall variable path traceMap shouldReport,
      same (_iterateVariableReferences (with_mode this mode) fuel variable
                                       path traceMap shouldReport)
           (_iterateVariableReferences this fuel variable path traceMap
                                       shouldReport))
  /\ (forall rootNode path traceMap,
         same (_iteratePropertyReferences (with_mode this mode) fuel rootNode
                                          path traceMap)
              (_iteratePropertyReferences this fuel rootNode path traceMap))
  /\ (forall patternNode path traceMap,
         same (_iterateLhsReferences (with_mode this mode) fuel patternNode
                                     path traceMap)
              (_iterateLhsReferences this fuel patternNode path traceMap)).
Proof.
  induction fuel as [| fuel (IHv & IHp & IHl)].
  - repeat split; intros; apply same_refl.
  - repeat split.
    + intros variable path traceMap shouldReport s. simpl.
      destruct (includes s variable); [reflexivity |]. f_equal.
      destruct variable as [v |]; [| reflexivity].
      revert s. intros s. generalize (push s (Some v)).
      change (same
        (for_of (Var.references (varAt this v)) (fun reference =>
           if negb (Reference.isRead reference) then skip
           else
             (if shouldReport
              then if_marker traceMap READ (fun payload =>
                     yield (Report.mk (Reference.identifier reference) path
                                      READ payload))
              else skip) ;;
             _iteratePropertyReferences (with_mode this mode) fuel
               (Reference.identifier reference) path traceMap))
        (for_of (Var.references (varAt this v)) (fun reference =>
           if negb (Reference.isRead reference) then skip
           else
             (if shouldReport
              then if_marker traceMap READ (fun payload =>
                     yield (Report.mk (Reference.identifier reference) path
                                      READ payload))
              else skip) ;;
             _iteratePropertyReferences this fuel
               (Reference.identifier reference) path traceMap))).
      same_run.
    + intros rootNode path traceMap. simpl. rewrite climb_mode.
      destruct (climb this fuel rootNode) as [[node parent] | e |];
        same_run.
    + intros patternNode path traceMap. simpl.
      destruct patternNode as [patternNode |]; [| apply same_refl].
      change (_findVariable (with_mode this mode) patternNode)
        with (_findVariable this patternNode).
      same_run.
Qed.

Lemma import_mode (this : Tracer) (mode : string) (fuel : nat) specifier path
    traceMap :
  same (_iterateImportReferences (with_mode this mode) fuel specifier path
                                 traceMap)
       (_iterateImportReferences this fuel specifier path traceMap).
Proof.
  destruct (traversal_mode this mode fuel) as (Hv & _ & _).
  unfold _iterateImportReferences. cbv zeta.
  change (nodeAt (with_mode this mode)) with (nodeAt this).
  change (local_variable (with_mode this mode)) with (local_variable this).
  change (name_of (with_mode this mode)) with (name_of this).
  same_run.
Qed.

Lemma esmSpecifier_mode (this : Tracer) (mode1 mode2 : string) (fuel : nat)
    path nextTraceMap specifier :
  (mode1 =? "legacy") = (mode2 =? "legacy") ->
  same (esmSpecifier (with_mode this mode1) fuel path nextTraceMap specifier)
       (esmSpecifier (with_mode this mode2) fuel path nextTraceMap specifier).
Proof.
  intros Hmode. unfold esmSpecifier. cbv zeta.
  change (mode (with_mode this mode1)) with mode1.
  change (mode (with_mode this mode2)) with mode2.
  rewrite Hmode.
  assert (Hi : forall map,
             same (_iterateImportReferences (with_mode this mode1) fuel
                     specifier path map)
                  (_iterateImportReferences (with_mode this mode2) fuel
                     specifier path map)).
  { intros map s1. rewrite (import_mode this mode1), (import_mode this mode2).
    reflexivity. }
  destruct (esm nextTraceMap); [apply Hi |]. intros s1. now rewrite Hi.
Qed.

Lemma esm_mode (this : Tracer) (mode1 mode2 : string) (fuel : nat)
    (traceMap : TraceMap) :
  (mode1 =? "legacy") = (mode2 =? "legacy") ->
  same (iterateEsmReferences (with_mode this mode1) fuel traceMap)
       (iterateEsmReferences (with_mode this mode2) fuel traceMap).
Proof.
  intros Hmode. unfold iterateEsmReferences. cbv zeta.
  change (nodeAt (with_mode this mode1)) with (nodeAt this).
  change (nodeAt (with_mode this mode2)) with (nodeAt this).
  change (globalScope (with_mode this mode1)) with (globalScope this).
  change (globalScope (with_mode this mode2)) with (globalScope this).
  apply same_for_of. intros node. unfold esmDeclaration. cbv zeta.
  change (nodeAt (with_mode this mode1)) with (nodeAt this).
  change (nodeAt (with_mode this mode2)) with (nodeAt this).
  pose proof (esmSpecifier_mode this mode1 mode2 fuel) as Hspecifier.
  same_run.
Qed.

Lemma global_mode (this : Tracer) (mode : string) (fuel : nat)
    (traceMap : TraceMap) :
  same (iterateGlobalReferences (with_mode this mode) fuel traceMap)
       (iterateGlobalReferences this fuel traceMap).
Proof.
  destruct (traversal_mode this mode fuel) as (Hv & _ & _).
  unfold iterateGlobalReferences, globalVariable, globalObject. cbv zeta.
  change (globalObjectNames (with_mode this mode))
    with (globalObjectNames this).
  change (undeclared (with_mode this mode)) with (undeclared this).
  same_run.
Qed.

Lemma cjs_mode (this : Tracer) (mode : string) (fuel : nat)
    (traceMap : TraceMap) :
  same (iterateCjsReferences (with_mode this mode) fuel traceMap)
       (iterateCjsReferences this fuel traceMap).
Proof.
  destruct (traversal_mode this mode fuel) as (_ & Hp & _).
  unfold iterateCjsReferences, cjsReference. cbv zeta.
  change (undeclared (with_mode this mode)) with (undeclared this).
  change (varAt (with_mode this mode)) with (varAt this).
  change (nodeAt (with_mode this mode)) with (nodeAt this).
  change (getStringIfConstant (with_mode this mode))
    with (getStringIfConstant this).
  same_run.
Qed.

(** X8: the mode is read for the import and export specifiers only, and
    only to tell [legacy] from the rest: the global and the CommonJS
    strategies run the same in every mode, and the ES-module strategy runs
    the same in two modes that are both [legacy] or both not, so that a
    mode that is no known word runs as [strict] does. *)
Theorem X8_only_legacy_is_told_apart (this : Tracer) (mode1 mode2 : string)
    (fuel : nat) (traceMap : TraceMap) (s : Stack) :
  iterateGlobalReferences (with_mode this mode1) fuel traceMap s =
  iterateGlobalReferences this fuel traceMap s
  /\ iterateCjsReferences (with_mode this mode1) fuel traceMap s =
     iterateCjsReferences this fuel traceMap s
  /\ ((mode1 =? "legacy") = (mode2 =? "legacy") ->
      iterateEsmReferences (with_mode this mode1) fuel traceMap s =
      iterateEsmReferences (with_mode this mode2) fuel traceMap s).
Proof.
  split; [apply global_mode |]. split; [apply cjs_mode |].
  intros Hmode. now apply esm_mode.
Qed.

(** [import x from "m"; x.foo;] in a mode that is no known word. *)
Lemma X8_witness :
  iterateEsmReferences
    (with_mode (ImportDefaultMember.tracer "legacy") "loose") 10
    (ImportDefaultMember.ownDefault (JsBoolean true) (JsNumber 2)) [] =
  iterateEsmReferences
    (with_mode (ImportDefaultMember.tracer "legacy") "strict") 10
    (ImportDefaultMember.ownDefault (JsBoolean true) (JsNumber 2)) [].
Proof.
  apply (X8_only_legacy_is_told_apart (ImportDefaultMember.tracer "legacy")
           "loose" "strict" 10
           (ImportDefaultMember.ownDefault (JsBoolean true) (JsNumber 2)) []).
  reflexivity.
Defined.

(** ** Star re-exports *)

Lemma if_marker_read_records node path traceMap (s : Stack) :
  if_marker traceMap READ (fun payload =>
    yield (Report.mk node path READ payload)) s =
  for_of (match read traceMap with
          | Some payload =>
              if truthy payload then [Report.mk node path READ payload]
              else []
          | None => []
          end) yield s.
Proof.
  unfold if_marker. simpl. destruct (read traceMap) as [payload |];
    [| reflexivity].
  destruct (truthy payload); reflexivity.
Qed.

(** X9: [export * from "m"] with [m] in the trace map runs to its end
    without a throw, whatever the fuel, the mode and the scopes are: it
    yields the [READ] of the module when its map has a truthy one, and
    then, in the order of the keys of the map of the module, one [READ]
    at the declaration with the path [[m; key]] for each key whose child
    has a truthy [READ] payload, and nothing from deeper in the map. *)
Theorem X9_star_export_reads_one_level (this : Tracer) (fuel : nat)
    (traceMap nextTraceMap : TraceMap) (node : NodeId) (moduleId : string)
    (s : Stack) :
  Node.type (nodeAt this node) = "ExportAllDeclaration" ->
  Node.source (nodeAt this node) = Some moduleId ->
  get traceMap moduleId = Some nextTraceMap ->
  esmDeclaration this fuel traceMap node s =
  for_of (declarationRead node moduleId nextTraceMap
          ++ exportedReads node moduleId nextTraceMap) yield s.
Proof.
  intros Htype Hsource Hget. unfold esmDeclaration. cbv zeta.
  rewrite Htype, Hsource, Hget.
  replace (IMPORT_TYPE "ExportAllDeclaration") with true
    by (vm_compute; reflexivity).
  replace ("ExportAllDeclaration" =? "ExportAllDeclaration") with true
    by (vm_compute; reflexivity).
  cbn [negb]. rewrite for_of_app. unfold seq.
  unfold declarationRead. rewrite if_marker_read_records.
  apply then_ext. intros s1. unfold exportedReads.
  rewrite for_of_flat_map. apply for_of_ext. intros key s2 _.
  unfold esmExportAll.
  destruct (get nextTraceMap key) as [exportTraceMap |]; [| reflexivity].
  apply if_marker_read_records.
Qed.

(** [export * from "m";] with [{ m: { default: { [READ]: E } } }]: one
    record, with the path [["m"; "default"]]. *)
Lemma X9_witness :
  esmDeclaration (ExportAll.tracer "strict") 0
    (ExportAll.traceMap (JsBoolean true)) 1 [] =
  Yield (Report.mk 1 ["m"; "default"] READ (JsBoolean true)) []
        (End (Normal tt) []).
Proof.
  apply (X9_star_export_reads_one_level (ExportAll.tracer "strict") 0
           (ExportAll.traceMap (JsBoolean true))
           (object_of [("default", on READ (JsBoolean true))]) 1 "m" []).
  - reflexivity.
  - reflexivity.
  - vm_compute. reflexivity.
Defined.

(** ** Named imports in legacy mode *)

Lemma for_of_it_id (body : Report.t -> option Report.t) (t : Trace) :
  Forall (fun r => body r = Some r) (yields t) -> for_of_it body t = t.
Proof.
  induction t as [r c rest IH | c s]; simpl; intros Hall.
  - apply Forall_cons in Hall as (Hr & Hrest). rewrite Hr.
    now rewrite IH.
  - reflexivity.
Qed.

Lemma withoutDefault_kept (r : Report.t) moduleId key rest :
  Report.path r = moduleId :: key :: rest ->
  key <> "default" ->
  withoutDefault r = Some r.
Proof.
  intros Hpath Hkey. unfold withoutDefault. cbv zeta.
  rewrite array_filter_exceptDefault, Hpath.
  rewrite dropSecondDefault_other by exact Hkey. simpl.
  destruct r as [node path type entry]. simpl in Hpath. now subst path.
Qed.

(** X10: in legacy mode a named import [import {key as local} from "m"]
    with a name other than [default], from a module whose map has no
    [ESM] marker, is traced as from a module whose map has it: against
    the map of the module as it is, with no segment taken out of a path
    and no record held back. *)
Theorem X10_legacy_named_import (this : Tracer) (fuel : nat)
    (moduleId : string) (nextTraceMap : TraceMap) (specifier imported : NodeId)
    (s : Stack) :
  mode this = "legacy" ->
  esm nextTraceMap = false ->
  Node.type (nodeAt this specifier) = "ImportSpecifier" ->
  Node.imported (nodeAt this specifier) = Some imported ->
  Node.name (nodeAt this imported) <> "default" ->
  esmSpecifier this fuel [moduleId] nextTraceMap specifier s =
  _iterateImportReferences this fuel specifier [moduleId] nextTraceMap s.
Proof.
  intros Hmode Hesm Htype Himported Hname.
  rewrite esmSpecifier_cjs by exact Hesm. rewrite Hmode.
  replace ("legacy" =? "legacy") with true by (vm_compute; reflexivity).
  assert (Hkey : ("default" =? Node.name (nodeAt this imported)) = false).
  { apply String.eqb_neq. congruence. }
  assert (Hsame : _iterateImportReferences this fuel specifier [moduleId]
                    (assignDefault nextTraceMap) s =
                  _iterateImportReferences this fuel specifier [moduleId]
                    nextTraceMap s).
  { unfold _iterateImportReferences. cbv zeta. rewrite Htype, Himported.
    replace ("ImportSpecifier" =? "ImportSpecifier") with true
      by (vm_compute; reflexivity).
    replace ("ImportSpecifier" =? "ImportDefaultSpecifier") with false
      by (vm_compute; reflexivity).
    cbn [orb name_of]. now rewrite get_assignDefault, Hkey. }
  rewrite Hsame. apply for_of_it_id.
  eapply Forall_impl
    with (P := fun r => exists rest,
                 Report.path r =
                 moduleId :: Node.name (nodeAt this imported) :: rest).
  2: { intros r (rest & Hpath). eapply withoutDefault_kept; eauto. }
  clear Hsame. revert s.
  change (emits (fun r => exists rest,
                   Report.path r =
                   moduleId :: Node.name (nodeAt this imported) :: rest)
                (_iterateImportReferences this fuel specifier [moduleId]
                   nextTraceMap)).
  unfold _iterateImportReferences. cbv zeta. rewrite Htype, Himported.
  replace ("ImportSpecifier" =? "ImportSpecifier") with true
    by (vm_compute; reflexivity).
  replace ("ImportSpecifier" =? "ImportDefaultSpecifier") with false
    by (vm_compute; reflexivity).
  cbn [orb name_of].
  destruct (get nextTraceMap (Node.name (nodeAt this imported)))
    as [next |]; [| apply emits_skip].
  apply emits_seq.
  - apply emits_if_marker. intros payload _ _. apply emits_yield.
    now exists [].
  - destruct (local_variable this specifier) as [variable | e |];
      [| apply emits_throw | apply emits_out_of_fuel].
    eapply emits_weaken; [| apply (traversal_traced this fuel)].
    intros r (_ & (rest & terminal & Hpath & _) & _). exists rest.
    now rewrite Hpath.
Qed.

(** [import {foo} from "m"; foo;] in legacy mode, with the map
    [{ m: { foo: { [READ]: E } } }] of a CommonJS module. *)
Lemma X10_witness :
  esmSpecifier (ImportNamed.tracer "legacy") 10 ["m"]
    (object_of [("foo", on READ (JsBoolean true))]) 2 [] =
  _iterateImportReferences (ImportNamed.tracer "legacy") 10 2 ["m"]
    (object_of [("foo", on READ (JsBoolean true))]) [].
Proof.
  apply (X10_legacy_named_import (ImportNamed.tracer "legacy") 10 "m"
           (object_of [("foo", on READ (JsBoolean true))]) 2 3 []).
  - reflexivity.
  - reflexivity.
  - reflexivity.
  - reflexivity.
  - vm_compute. discriminate.
Defined.

(** ** Scopes *)

(** X11: the variable found for an identifier is the one its name is
    bound to in the innermost scope, from the scope of the identifier
    outwards, that binds the name: a binding of an inner scope hides the
    bindings of the scopes around it; and no variable is found exactly
    when no scope on the way out binds the name. *)
Theorem X11_inner_binding_hides_outer (this : Tracer) (node : NodeId) :
  match _findVariable this node with
  | Some variable =>
      exists inner binder outer,
        chain (getInnermostScope this (globalScope this) node) =
        inner ++ binder :: outer
        /\ Forall (fun sc =>
                     Scope.set sc !! Node.name (nodeAt this node) = None)
                  inner
        /\ Scope.set binder !! Node.name (nodeAt this node) = Some variable
  | None =>
      Forall (fun sc => Scope.set sc !! Node.name (nodeAt this node) = None)
             (chain (getInnermostScope this (globalScope this) node))
  end.
Proof.
  unfold _findVariable.
  generalize (Node.name (nodeAt this node)) as name.
  generalize (getInnermostScope this (globalScope this) node) as scope.
  intros scope name. revert scope. fix IH 1. intros [set upper block].
  cbn [lookup_in_chain chain].
  destruct (set !! name) as [variable |] eqn:Hset.
  - exists [], (Scope.mk set upper block),
      (match upper with Some scope' => chain scope' | None => [] end).
    repeat split; [constructor | exact Hset].
  - destruct upper as [scope' |].
    + specialize (IH scope').
      destruct (lookup_in_chain scope' name) as [variable |].
      * destruct IH as (inner & binder & outer & Hchain & Hinner & Hbinder).
        exists (Scope.mk set (Some scope') block :: inner), binder, outer.
        repeat split; [now rewrite Hchain | | exact Hbinder].
        constructor; [exact Hset | exact Hinner].
      * constructor; [exact Hset | exact IH].
    + constructor; [exact Hset | constructor].
Qed.

(** ** Statements the ES-module strategy passes over *)

(** X12: on a program none of whose top-level statements is an import or
    export declaration with a source that is a key of the trace map
    ([export default], [export const x = 1] and [export {x}] have no
    source), the ES-module strategy ends at once with no record, whatever
    the fuel is; declarations below the top level are not looked at. *)
Theorem X12_only_sourced_declarations (this : Tracer) (fuel : nat)
    (traceMap : TraceMap) (s : Stack) :
  Forall (fun node =>
            IMPORT_TYPE (Node.type (nodeAt this node)) = false
            \/ Node.source (nodeAt this node) = None
            \/ exists moduleId,
                 Node.source (nodeAt this node) = Some moduleId
                 /\ has traceMap moduleId = false)
         (Node.body (nodeAt this (Scope.block (globalScope this)))) ->
  iterateEsmReferences this fuel traceMap s = End (Normal tt) s.
Proof.
  intros Hall. unfold iterateEsmReferences. cbv zeta.
  apply for_of_skip. intros node s1 Hin.
  rewrite List.Forall_forall in Hall. specialize (Hall node Hin).
  unfold esmDeclaration. cbv zeta.
  destruct Hall as [Htype | [Hsource | (moduleId & Hsource & Hhas)]].
  - now rewrite Htype.
  - destruct (negb _); [reflexivity |]. now rewrite Hsource.
  - destruct (negb _); [reflexivity |]. rewrite Hsource.
    unfold has in Hhas. now destruct (get traceMap moduleId).
Qed.

(** [import {foo} from "m"; foo;] with a trace map for another module,
    at no fuel at all. *)
Lemma X12_witness :
  iterateEsmReferences (ImportNamed.tracer "strict") 0
    (object_of [("n", on READ (JsBoolean true))]) [] = End (Normal tt) [].
Proof.
  apply (X12_only_sourced_declarations (ImportNamed.tracer "strict") 0
           (object_of [("n", on READ (JsBoolean true))]) []).
  simpl. constructor; [| constructor; [| constructor]].
  - right. right. exists "m". split; reflexivity.
  - left. vm_compute. reflexivity.
Defined.

(** ** Well-formed programs *)

Lemma completion_then (t : Trace) (g : Gen) :
  completion (then_ t g) =
  match completion t with
  | Normal _ => completion (g (final_stack t))
  | c => c
  end.
Proof.
  induction t as [r c rest IH | c s]; simpl; [exact IH |].
  destruct c; reflexivity.
Qed.

Lemma quiet_skip : quiet skip.
Proof. intros s e. discriminate. Qed.

Lemma quiet_out_of_fuel : quiet out_of_fuel.
Proof. intros s e. discriminate. Qed.

Lemma quiet_yield r : quiet (yield r).
Proof. intros s e. discriminate. Qed.

Lemma quiet_seq (g1 g2 : Gen) : quiet g1 -> quiet g2 -> quiet (g1 ;; g2).
Proof.
  intros H1 H2 s e. unfold seq. rewrite completion_then.
  specialize (H1 s). destruct (completion (g1 s)); [apply H2 | apply H1 |].
  discriminate.
Qed.

Lemma quiet_for_of {A : Type} (l : list A) (body : A -> Gen) :
  (forall x, In x l -> quiet (body x)) -> quiet (for_of l body).
Proof.
  intros Hb. induction l as [| x l IH]; simpl.
  - apply quiet_skip.
  - apply quiet_seq; [apply Hb; now left |].
    apply IH. intros y Hy. apply Hb. now right.
Qed.

Lemma quiet_if_marker traceMap symbol (body : JsValue -> Gen) :
  (forall payload, quiet (body payload)) ->
  quiet (if_marker traceMap symbol body).
Proof.
  intros Hb. unfold if_marker.
  destruct (marker traceMap symbol) as [payload |]; [| apply quiet_skip].
  destruct (truthy payload); [apply Hb | apply quiet_skip].
Qed.

Lemma quiet_marker traceMap symbol node path :
  quiet (if_marker traceMap symbol (fun payload =>
           yield (Report.mk node path symbol payload))).
Proof. apply quiet_if_marker. intros payload. apply quiet_yield. Qed.

Ltac hush :=
  repeat first
    [ apply quiet_skip
    | apply quiet_out_of_fuel
    | apply quiet_yield
    | apply quiet_marker
    | apply quiet_seq
    | solve [auto]
    | match goal with
      | |- quiet (if ?c then _ else _) => destruct c eqn:?
      | |- quiet (let _ := _ in _) => cbv zeta
      end ].

Lemma climb_quiet (this : Tracer) (W : WellFormed this) (fuel : nat)
    (node : NodeId) (e : JsError) :
  Node.parent (nodeAt this node) <> None -> climb this fuel node <> Throw e.
Proof.
  revert node. induction fuel as [| fuel IH]; intros node Hnode;
    cbn [climb]; [discriminate |].
  destruct (Node.parent (nodeAt this node)) as [parent |] eqn:Hparent;
    [| now destruct Hnode].
  destruct (SENTINEL_TYPE _) eqn:Hsentinel; [discriminate |].
  apply IH. eapply parents_have_parents; eauto.
Qed.

Lemma traversal_quiet (this : Tracer) (W : WellFormed this) (fuel : nat) :
  (forall v path traceMap shouldReport,
      quiet (_iterateVariableReferences this fuel (Some v) path traceMap
                                        shouldReport))
  /\ (forall rootNode path traceMap,
         Node.parent (nodeAt this rootNode) <> None ->
         quiet (_iteratePropertyReferences this fuel rootNode path traceMap))
  /\ (forall patternNode path traceMap,
         quiet (_iterateLhsReferences this fuel (Some patternNode) path
                                      traceMap)).
Proof.
  induction fuel as [| fuel (IHv & IHp & IHl)].
  - repeat split; intros; apply quiet_out_of_fuel.
  - repeat split.
    + intros v path traceMap shouldReport s e. simpl.
      destruct (includes s (Some v)); [discriminate |].
      rewrite completion_finally. revert e. generalize (push s (Some v)).
      change (quiet
        (for_of (Var.references (varAt this v)) (fun reference =>
           if negb (Reference.isRead reference) then skip
           else
             (if shouldReport
              then if_marker traceMap READ (fun payload =>
                     yield (Report.mk (Reference.identifier reference) path
                                      READ payload))
              else skip) ;;
             _iteratePropertyReferences this fuel
               (Reference.identifier reference) path traceMap))).
      apply quiet_for_of. intros reference Hin. hush.
      apply IHp. eapply references_have_parents; eauto.
    + intros rootNode path traceMap Hroot. simpl.
      pose proof (climb_quiet this W fuel rootNode) as Hclimb.
      destruct (climb this fuel rootNode) as [[node parent] | e |];
        [| now destruct (Hclimb e Hroot) | apply quiet_out_of_fuel].
      cbv zeta.
      destruct (Node.type (nodeAt this parent) =? "MemberExpression")
        eqn:Hmember.
      { apply String.eqb_eq in Hmember.
        destruct (same_node _ node); [| apply quiet_skip].
        destruct (getPropertyName this parent) as [key |];
          [| apply quiet_skip].
        destruct (get traceMap key) as [nextTraceMap |]; [| apply quiet_skip].
        hush. apply IHp. apply expressions_have_parents; auto. }
      destruct (Node.type (nodeAt this parent) =? "CallExpression");
        [hush |].
      destruct (Node.type (nodeAt this parent) =? "NewExpression");
        [hush |].
      destruct (Node.type (nodeAt this parent) =? "AssignmentExpression")
        eqn:Hassign.
      { apply String.eqb_eq in Hassign.
        destruct (same_node _ node); [| apply quiet_skip].
        pose proof (assignments_have_left this W parent (or_introl Hassign))
          as Hleft.
        destruct (Node.left (nodeAt this parent)) as [l |];
          [| now destruct Hleft].
        hush. apply IHp. apply expressions_have_parents; auto. }
      destruct (Node.type (nodeAt this parent) =? "AssignmentPattern")
        eqn:Hpattern.
      { apply String.eqb_eq in Hpattern.
        destruct (same_node _ node); [| apply quiet_skip].
        pose proof (assignments_have_left this W parent (or_intror Hpattern))
          as Hleft.
        destruct (Node.left (nodeAt this parent)) as [l |];
          [apply IHl | now destruct Hleft]. }
      destruct (Node.type (nodeAt this parent) =? "VariableDeclarator")
        eqn:Hdeclarator; [| apply quiet_skip].
      apply String.eqb_eq in Hdeclarator.
      destruct (same_node _ node); [| apply quiet_skip].
      pose proof (declarators_have_id this W parent Hdeclarator) as Hid.
      destruct (Node.id (nodeAt this parent)) as [i |];
        [apply IHl | now destruct Hid].
    + intros patternNode path traceMap. simpl.
      destruct (Node.type (nodeAt this patternNode) =? "Identifier").
      { destruct (_findVariable this patternNode) as [variable |];
          [apply IHv | apply quiet_skip]. }
      destruct (Node.type (nodeAt this patternNode) =? "ObjectPattern")
        eqn:Hobject.
      { apply String.eqb_eq in Hobject. apply quiet_for_of.
        intros property Hin.
        pose proof (properties_have_value this W patternNode property Hobject
                      Hin) as Hvalue.
        destruct (getPropertyName this property) as [key |];
          [| apply quiet_skip].
        destruct (get traceMap key) as [nextTraceMap |]; [| apply quiet_skip].
        destruct (Node.value (nodeAt this property)) as [value |];
          [| now destruct Hvalue].
        hush. }
      destruct (Node.type (nodeAt this patternNode) =? "AssignmentPattern")
        eqn:Hpattern; [| apply quiet_skip].
      apply String.eqb_eq in Hpattern.
      pose proof (assignments_have_left this W patternNode
                    (or_intror Hpattern)) as Hleft.
      destruct (Node.left (nodeAt this patternNode)) as [l |];
        [apply IHl | now destruct Hleft].
Qed.

Lemma import_quiet (this : Tracer) (W : WellFormed this) (fuel : nat)
    specifier path traceMap :
  quiet (_iterateImportReferences this fuel specifier path traceMap).
Proof.
  destruct (traversal_quiet this W fuel) as (Hv & _ & _).
  unfold _iterateImportReferences. cbv zeta.
  pose proof (imports_are_bound this W specifier) as Hbound.
  pose proof (imports_have_imported this W specifier) as Himported.
  pose proof (exports_have_local this W specifier) as Hlocal.
  destruct (Node.type (nodeAt this specifier) =? "ImportSpecifier")
    eqn:His;
    destruct (Node.type (nodeAt this specifier) =? "ImportDefaultSpecifier")
      eqn:Hids; cbn [orb];
    try apply String.eqb_eq in His; try apply String.eqb_eq in Hids.
  - rewrite His in Hids. discriminate.
  - destruct Hbound as (local & variable & Hl & Hfind); [auto |].
    unfold local_variable. rewrite Hl, Hfind.
    specialize (Himported His).
    destruct (Node.imported (nodeAt this specifier)) as [i |];
      [| now destruct Himported].
    cbn [name_of]. destruct (get traceMap _); hush.
  - destruct Hbound as (local & variable & Hl & Hfind); [auto |].
    unfold local_variable. rewrite Hl, Hfind.
    destruct (get traceMap _); hush.
  - destruct (Node.type (nodeAt this specifier) =? "ImportNamespaceSpecifier")
      eqn:Hns.
    { apply String.eqb_eq in Hns.
      destruct Hbound as (local & variable & Hl & Hfind); [auto |].
      unfold local_variable. rewrite Hl, Hfind. apply Hv. }
    destruct (Node.type (nodeAt this specifier) =? "ExportSpecifier")
      eqn:Hes; [| apply quiet_skip].
    apply String.eqb_eq in Hes. specialize (Hlocal Hes).
    destruct (Node.local (nodeAt this specifier)) as [l |];
      [| now destruct Hlocal].
    cbn [name_of]. destruct (get traceMap _); hush.
Qed.

(** X13: on a well-formed program (only the program node is without a
    parent, the nodes have the fields of their types, the local names of
    the import specifiers are bound) no entry strategy throws, whatever
    the trace map and the stack are. *)
Theorem X13_well_formed_programs_do_not_throw (this : Tracer)
    (W : WellFormed this) (fuel : nat) (traceMap : TraceMap) :
  quiet (iterateGlobalReferences this fuel traceMap)
  /\ quiet (iterateCjsReferences this fuel traceMap)
  /\ quiet (iterateEsmReferences this fuel traceMap).
Proof.
  destruct (traversal_quiet this W fuel) as (Hv & Hp & Hl).
  repeat split.
  - apply quiet_seq; apply quiet_for_of; intros key _.
    + unfold globalVariable.
      destruct (get traceMap key) as [nextTraceMap |]; [| apply quiet_skip].
      cbv zeta. destruct (undeclared this key); [apply Hv | apply quiet_skip].
    + unfold globalObject. cbv zeta.
      destruct (undeclared this key); [apply Hv | apply quiet_skip].
  - unfold iterateCjsReferences.
    destruct (undeclared this "require") as [variable |];
      [| apply quiet_skip].
    apply quiet_for_of. intros reference Hin. unfold cjsReference. cbv zeta.
    destruct (negb (Reference.isRead reference)); [apply quiet_skip |].
    pose proof (references_have_parents this W variable reference Hin)
      as Hparent.
    destruct (Node.parent (nodeAt this (Reference.identifier reference)))
      as [callNode |]; [| now destruct Hparent].
    destruct (negb (Node.type (nodeAt this callNode) =? "CallExpression"))
      eqn:Hcall; [apply quiet_skip |].
    apply negb_false_iff, String.eqb_eq in Hcall. cbn [orb].
    destruct (negb _); [apply quiet_skip |].
    destruct (getStringIfConstant this _) as [key |]; [| apply quiet_skip].
    destruct (get traceMap key) as [nextTraceMap |]; [| apply quiet_skip].
    hush. apply Hp. apply expressions_have_parents; auto.
  - apply quiet_for_of. intros node _. unfold esmDeclaration. cbv zeta.
    destruct (negb _); [apply quiet_skip |].
    destruct (Node.source (nodeAt this node)) as [moduleId |];
      [| apply quiet_skip].
    destruct (get traceMap moduleId) as [nextTraceMap |];
      [| apply quiet_skip].
    apply quiet_seq; [apply quiet_marker |].
    destruct (_ =? _).
    + apply quiet_for_of. intros key _. unfold esmExportAll.
      destruct (get nextTraceMap key); [apply quiet_marker | apply quiet_skip].
    + apply quiet_for_of. intros specifier _. unfold esmSpecifier. cbv zeta.
      destruct (esm nextTraceMap); [now apply import_quiet |].
      intros s e. rewrite completion_for_of_it. now apply import_quiet.
Qed.

(** [const {y} = window.x; y();] is well formed. *)
Lemma Destructure_well_formed : WellFormed Destructure.tracer.
Proof.
  split.
  - intros n p Hn.
    do 13 (destruct n as [| n];
           [simpl in Hn; try discriminate Hn; injection Hn as <-;
            vm_compute; try discriminate; intros _; discriminate |]).
    discriminate Hn.
  - intros n.
    do 13 (destruct n as [| n];
           [simpl; try discriminate; intuition discriminate |]).
    simpl. intuition discriminate.
  - intros v reference.
    do 2 (destruct v as [| v];
          [simpl; intros Hin;
           repeat (destruct Hin as [<- | Hin]; [discriminate |]);
           destruct Hin |]).
    intros [].
  - intros n.
    do 13 (destruct n as [| n]; [simpl; intuition discriminate |]).
    simpl. intuition discriminate.
  - intros n.
    do 13 (destruct n as [| n]; [simpl; intros; discriminate |]).
    simpl. discriminate.
  - intros n property Htype.
    destruct (Nat.eq_dec n 3) as [-> | Hn].
    + simpl. intros [<- | []] _. discriminate.
    + exfalso. revert Htype.
      do 13 (destruct n as [| n]; [try discriminate; now destruct Hn |]).
      discriminate.
  - intros n.
    do 13 (destruct n as [| n]; [simpl; intros; discriminate |]).
    simpl. discriminate.
  - intros n.
    do 13 (destruct n as [| n]; [simpl; intros; discriminate |]).
    simpl. discriminate.
  - intros n.
    do 13 (destruct n as [| n]; [simpl; intuition discriminate |]).
    simpl. intuition discriminate.
Qed.

(** So is [import {foo} from "m"; foo;], where the scope analysis binds
    [foo]. *)
Lemma ImportNamed_well_formed (mode : string) :
  WellFormed (ImportNamed.tracer mode).
Proof.
  split.
  - intros n p Hn.
    do 7 (destruct n as [| n];
          [simpl in Hn; try discriminate Hn; injection Hn as <-;
           vm_compute; try discriminate; intros _; discriminate |]).
    discriminate Hn.
  - intros n.
    do 7 (destruct n as [| n];
          [simpl; try discriminate; intuition discriminate |]).
    simpl. intuition discriminate.
  - intros v reference.
    destruct v as [| v]; [| intros []].
    simpl. intros [<- | []]. discriminate.
  - intros n.
    do 7 (destruct n as [| n]; [simpl; intuition discriminate |]).
    simpl. intuition discriminate.
  - intros n.
    do 7 (destruct n as [| n]; [simpl; intros; discriminate |]).
    simpl. discriminate.
  - intros n property.
    do 7 (destruct n as [| n]; [simpl; intros; discriminate |]).
    simpl. discriminate.
  - intros n.
    do 7 (destruct n as [| n]; [simpl; intros; discriminate |]).
    simpl. discriminate.
  - intros n.
    do 7 (destruct n as [| n]; [simpl; intros; discriminate |]).
    simpl. discriminate.
  - intros n Htype. destruct (Nat.eq_dec n 2) as [-> | Hn].
    + exists 4, ImportNamed.foo. split; reflexivity.
    + exfalso. revert Htype.
      do 7 (destruct n as [| n];
            [simpl; try (now destruct Hn); intuition discriminate |]).
      simpl. intuition discriminate.
Qed.

(** Both programs, from every stack. *)
Lemma X13_witness :
  quiet (iterateGlobalReferences Destructure.tracer 100
           (Destructure.traceMap (JsBoolean true)))
  /\ quiet (iterateEsmReferences (ImportNamed.tracer "legacy") 100
              (cjsFoo (JsBoolean true))).
Proof.
  split.
  - exact (proj1 (X13_well_formed_programs_do_not_throw Destructure.tracer
                    Destructure_well_formed 100
                    (Destructure.traceMap (JsBoolean true)))).
  - exact (proj2 (proj2 (X13_well_formed_programs_do_not_throw
                           (ImportNamed.tracer "legacy")
                           (ImportNamed_well_formed "legacy") 100
                           (cjsFoo (JsBoolean true))))).
Defined.
